(** * Infinite-scroll pagination of a product grid: [assets/paginated-list.js]

    A shallow embedding of the [PaginatedList] custom element and the proofs
    of the properties its specification states.

    - [JS]: the values of the language the component computes with (numbers
      that are whole or [NaN], [Number(...)] of an attribute, the grammar of
      numeric strings, URLs).
    - [Ratio]: [#getSafeImageAspectRatio], with binary64 division written out.
    - [Normalizer]: the aspect-ratio passes over the card galleries.
    - [Paginated]: the component as a transition system over browser events
      (intersections, completed fetches, idle callbacks).
    - [Reconnection]: the same with the element connected more than once.
    - [Contract], [Invariant], [Journal], [Outcome]: what the markup and the
      server are taken to provide, and what the lives of the element and
      the passes are shown to keep.
    - the facts: [Guards], [NormalizerFacts], [RatioFacts], [AdaptiveRatio]
      for single calls and passes; [Lifetime], [Trace], [Arrival],
      [Failure], [EmptyPage], [Untagged], [Order], [Interleaving],
      [Requests] for whole lives of the element; [PassFacts], [ClampFacts]
      for the passes. *)

From Stdlib Require Import ZArith QArith Qround Qminmax Qpower Qabs Lia Lqa SpecFloat Ascii String.
From stdpp Require Import gmap strings list fin_maps pretty sorting.

Local Open Scope Z_scope.

(* ===================================================================== *)
(** ** Values *)
(* ===================================================================== *)

Module JS.

(** A JavaScript number as the pagination code meets it: the page and
    last-page attributes are decimal integers, so [Number(...)] of them is a
    whole number, or [NaN] when the text is no number.  The whole numbers
    are those of the safe range (below 2^53 in absolute value, [safe] of the
    contract), where binary64 holds them and adds and subtracts one without
    rounding; fractions and infinities do not occur. *)
Inductive jsnum : Type :=
  | NaN
  | Int (z : Z).

#[global] Instance jsnum_eq_dec : EqDecision jsnum.
Proof. solve_decision. Defined.

Definition jsnum_to_option (n : jsnum) : option Z :=
  match n with NaN => None | Int z => Some z end.

Definition jsnum_of_option (o : option Z) : jsnum :=
  match o with None => NaN | Some z => Int z end.

#[global] Instance jsnum_countable : Countable jsnum.
Proof.
  refine (inj_countable' jsnum_to_option jsnum_of_option _).
  by intros [].
Defined.

(** [a > b], [a < b]: every comparison with [NaN] is false. *)
Definition js_gt (a b : jsnum) : bool :=
  match a, b with
  | Int x, Int y => bool_decide (x > y)
  | _, _ => false
  end.

Definition js_lt (a b : jsnum) : bool :=
  match a, b with
  | Int x, Int y => bool_decide (x < y)
  | _, _ => false
  end.

(** [a + b], [a - b]: [NaN] is absorbing. *)
Definition js_add (a b : jsnum) : jsnum :=
  match a, b with
  | Int x, Int y => Int (x + y)
  | _, _ => NaN
  end.

Definition js_sub (a b : jsnum) : jsnum :=
  match a, b with
  | Int x, Int y => Int (x - y)
  | _, _ => NaN
  end.

(** [n.toString()] *)
Definition toString (n : jsnum) : string :=
  match n with
  | NaN => "NaN"
  | Int z => pretty z
  end.

(** *** [Number(text)] *)

(** A string is its code units, taken below 256.  White space of a numeric
    string ([StrWhiteSpaceChar]) among them: tab, line feed, vertical tab,
    form feed, carriage return, space and the no-break space. *)
Definition is_space (a : ascii) : bool :=
  let n := N_of_ascii a in
  ((n =? 32) || ((9 <=? n) && (n <=? 13)) || (n =? 160))%N.

Definition digit_of (a : ascii) : option Z :=
  let n := N_of_ascii a in
  if ((48 <=? n) && (n <=? 57))%N then Some (Z.of_N n - 48) else None.

Fixpoint trim_start (s : string) : string :=
  match s with
  | String a s' => if is_space a then trim_start s' else s
  | EmptyString => EmptyString
  end.

Definition trim (s : string) : string :=
  String.rev (trim_start (String.rev (trim_start s))).

Fixpoint digits_value (acc : Z) (s : string) : option Z :=
  match s with
  | EmptyString => Some acc
  | String a s' =>
      match digit_of a with
      | Some d => digits_value (10 * acc + d) s'
      | None => None
      end
  end.

Definition unsigned_literal (s : string) : jsnum :=
  match s with
  | EmptyString => NaN
  | _ => jsnum_of_option (digits_value 0 s)
  end.

Definition js_neg (n : jsnum) : jsnum :=
  match n with NaN => NaN | Int z => Int (- z) end.

(** [Number(s)] for a string: surrounding white space is dropped, the empty
    string is [0], an optionally signed run of decimal digits is its value,
    anything else is [NaN].  Literals with a fraction, an exponent or a radix
    prefix, and [Infinity], are numbers the pagination has no page for: they
    have no value in [jsnum], and what is stated of a text that is no number
    is stated with [StringNumericLiteral] below, which knows them. *)
Definition StringToNumber (s : string) : jsnum :=
  match trim s with
  | EmptyString => Int 0
  | String "+" r => unsigned_literal r
  | String "-" r => js_neg (unsigned_literal r)
  | t => unsigned_literal t
  end.

(** *** The texts [Number(text)] reads as a number

    The grammar [StringNumericLiteral] of the language: [Number(text)] is
    [NaN] exactly when the text is not of this form. *)

Definition is_digit (a : ascii) : bool :=
  match digit_of a with Some _ => true | None => false end.

Definition is_binary_digit (a : ascii) : bool :=
  let n := N_of_ascii a in ((n =? 48) || (n =? 49))%N.

Definition is_octal_digit (a : ascii) : bool :=
  let n := N_of_ascii a in ((48 <=? n) && (n <=? 55))%N.

Definition is_hex_digit (a : ascii) : bool :=
  let n := N_of_ascii a in
  (((48 <=? n) && (n <=? 57)) || ((97 <=? n) && (n <=? 102)) ||
   ((65 <=? n) && (n <=? 70)))%N.

Fixpoint all_chars (P : ascii → bool) (s : string) : bool :=
  match s with
  | EmptyString => true
  | String a s' => P a && all_chars P s'
  end.

(** One character or more, all of one kind. *)
Definition some_chars (P : ascii → bool) (s : string) : bool :=
  match s with
  | EmptyString => false
  | _ => all_chars P s
  end.

Fixpoint drop_digits (s : string) : string :=
  match s with
  | String a s' => if is_digit a then drop_digits s' else s
  | EmptyString => EmptyString
  end.

Definition starts_with_digit (s : string) : bool :=
  match s with
  | String a _ => is_digit a
  | EmptyString => false
  end.

(** [SignedInteger] and an optional [ExponentPart] *)
Definition SignedInteger (s : string) : bool :=
  match s with
  | String "+" r => some_chars is_digit r
  | String "-" r => some_chars is_digit r
  | _ => some_chars is_digit s
  end.

Definition ExponentPart_opt (s : string) : bool :=
  match s with
  | EmptyString => true
  | String "e" r => SignedInteger r
  | String "E" r => SignedInteger r
  | _ => false
  end.

(** [Infinity], digits with an optional fraction, or a fraction alone, and
    an optional exponent. *)
Definition StrUnsignedDecimalLiteral (s : string) : bool :=
  String.eqb s "Infinity" ||
  match drop_digits s with
  | String "." f =>
      (starts_with_digit s || starts_with_digit f) &&
      ExponentPart_opt (drop_digits f)
  | r => starts_with_digit s && ExponentPart_opt r
  end.

Definition StrDecimalLiteral (s : string) : bool :=
  match s with
  | String "+" r => StrUnsignedDecimalLiteral r
  | String "-" r => StrUnsignedDecimalLiteral r
  | _ => StrUnsignedDecimalLiteral s
  end.

(** [0b], [0o] and [0x] literals; they take no sign. *)
Definition NonDecimalIntegerLiteral (s : string) : bool :=
  match s with
  | String "0" (String "b" r) => some_chars is_binary_digit r
  | String "0" (String "B" r) => some_chars is_binary_digit r
  | String "0" (String "o" r) => some_chars is_octal_digit r
  | String "0" (String "O" r) => some_chars is_octal_digit r
  | String "0" (String "x" r) => some_chars is_hex_digit r
  | String "0" (String "X" r) => some_chars is_hex_digit r
  | _ => false
  end.

(** The empty and the blank text are numeric: they read [0]. *)
Definition StringNumericLiteral (s : string) : bool :=
  let t := trim s in
  String.eqb t "" || StrDecimalLiteral t || NonDecimalIntegerLiteral t.

(** [Number(el.dataset.name)]: a missing data attribute reads [undefined],
    and [Number(undefined)] is [NaN]. *)
Definition Number_dataset (a : option string) : jsnum :=
  match a with
  | None => NaN
  | Some s => StringToNumber s
  end.

(** [Number(el.getAttribute(name))]: a missing attribute reads [null], and
    [Number(null)] is [0]. *)
Definition Number_attribute (a : option string) : jsnum :=
  match a with
  | None => Int 0
  | Some s => StringToNumber s
  end.

(** *** URLs *)

Record URL : Type := mkURL {
  url_base : string;                      (* origin and path *)
  url_search : list (string * string);    (* query parameters, in order *)
  url_hash : string
}.

#[global] Instance URL_eq_dec : EqDecision URL.
Proof. solve_decision. Defined.

(** [searchParams.set(name, value)]: the first pair named [name] takes the
    value and later ones are removed; without one the pair is appended. *)
Fixpoint searchParams_set (name value : string) (ps : list (string * string))
  : list (string * string) :=
  match ps with
  | [] => [(name, value)]
  | (k, v) :: ps' =>
      if decide (k = name)
      then (name, value) :: filter (λ kv, kv.1 ≠ name) ps'
      else (k, v) :: searchParams_set name value ps'
  end.

Definition searchParams_get (name : string) (ps : list (string * string))
  : option string :=
  snd <$> head (filter (λ kv, kv.1 = name) ps).

End JS.

Export JS.

(* ===================================================================== *)
(** ** [#getSafeImageAspectRatio] *)
(* ===================================================================== *)

Module Ratio.

Local Open Scope Q_scope.

(** The numbers of the ratio computation are binary64 values that are never
    negative: a finite one is kept as the exact rational it denotes. *)
Inductive double : Type :=
  | DNaN
  | DInfinity
  | DFinite (q : Q).

Definition pow2 (e : Z) : Q := Qpower 2 e.

(** Nearest integer, ties to the even one. *)
Definition round_half_even (x : Q) : Z :=
  let f := Qfloor x in
  match Qcompare (x - inject_Z f) (1 # 2) with
  | Lt => f
  | Gt => (f + 1)%Z
  | Eq => if Z.even f then f else (f + 1)%Z
  end.

(** [floor (log2 q)] for a positive [q]. *)
Definition ilog2 (q : Q) : Z :=
  let e := (Z.log2 (Qnum q) - Z.log2 (Zpos (Qden q)))%Z in
  if Qle_bool (pow2 e) q then e else (e - 1)%Z.

(** Rounding of a positive rational to the nearest binary64 value: 53
    significant bits, ties to even.  The quotients met here lie between
    2^-32 and 2^32, far from the subnormal and overflow ranges. *)
Definition round53 (q : Q) : Q :=
  let e := (ilog2 q - 52)%Z in
  Qred (inject_Z (round_half_even (q / pow2 e)) * pow2 e).

(** The exact quotient of two naturals, the second not zero. *)
Definition quotient (width height : N) : Q :=
  Z.of_N width # N.succ_pos (N.pred height).

(** [width / height] for the natural sizes of an image (DOM
    [unsigned long]s, exact as numbers). *)
Definition js_div (width height : N) : double :=
  match width, height with
  | 0%N, 0%N => DNaN
  | _, 0%N => DInfinity
  | 0%N, _ => DFinite 0
  | _, _ => DFinite (round53 (quotient width height))
  end.

(** The literals [10] and [0.1]; the latter is the binary64 value nearest
    to one tenth. *)
Definition ten : Q := 10.
Definition tenth : Q := 3602879701896397 # 36028797018963968.

(** [Math.min(10, x)] and [Math.max(0.1, x)] *)
Definition min_ten (x : double) : double :=
  match x with
  | DNaN => DNaN
  | DInfinity => DFinite ten
  | DFinite q => DFinite (if Qle_bool ten q then ten else q)
  end.

Definition max_tenth (x : double) : double :=
  match x with
  | DNaN => DNaN
  | DInfinity => DInfinity
  | DFinite q => DFinite (if Qle_bool q tenth then tenth else q)
  end.

(** [x.toFixed(3)] for [0 <= x < 1e21]: [n] is the integer with [n / 1000]
    nearest to [x], the larger one on a tie; its digits are padded with
    zeros to four and the point goes before the last three. *)
Definition toFixed3_n (x : Q) : Z := Qfloor (x * 1000 + (1 # 2)).

Definition string_repeat (a : ascii) (k : nat) : string :=
  string_of_list_ascii (replicate k a).

Definition toFixed3_digits (n : Z) : string :=
  let m := pretty n in
  let k := String.length m in
  let m := if (k <=? 3)%nat then string_repeat "0" (3 + 1 - k) +:+ m else m in
  let k := String.length m in
  substring 0 (k - 3) m +:+ "." +:+ substring (k - 3) 3 m.

Definition toFixed3 (x : double) : string :=
  match x with
  | DNaN => "NaN"
  | DInfinity => "Infinity"
  | DFinite q => toFixed3_digits (toFixed3_n q)
  end.

Definition getSafeImageAspectRatio (width height : N) : string :=
  let rawRatio := js_div width height in
  toFixed3 (max_tenth (min_ten rawRatio)).

(** The wording of the specification: the exact ratio, clamped to
    [[0.1, 10]], written with three decimals. *)
Definition exact_clamped (width height : N) : Q :=
  Qmax (1 # 10) (Qmin 10 (quotient width height)).

Definition three_digits (k : Z) : string :=
  (if (k <? 10)%Z then "00" else if (k <? 100)%Z then "0" else "") +:+ pretty k.

Definition decimal3 (n : Z) : string :=
  pretty (n / 1000)%Z +:+ "." +:+ three_digits (n mod 1000)%Z.

(** The same division by the reference operations of [SpecFloat], for
    comparison on sample inputs. *)
Definition reference_div (width height : Z) : spec_float :=
  SFdiv 53 1024 (binary_normalize 53 1024 width 0 false)
                (binary_normalize 53 1024 height 0 false).

(** Sums and differences of whole numbers by the same reference
    operations: what [+] and [-] of the language give on page numbers. *)
Definition reference_add (x y : Z) : spec_float :=
  SFadd 53 1024 (binary_normalize 53 1024 x 0 false)
                (binary_normalize 53 1024 y 0 false).

Definition reference_sub (x y : Z) : spec_float :=
  SFsub 53 1024 (binary_normalize 53 1024 x 0 false)
                (binary_normalize 53 1024 y 0 false).

Definition spec_float_value (x : spec_float) : option Q :=
  match x with
  | S754_zero _ => Some 0
  | S754_finite s m e =>
      Some (Qred (inject_Z (if s then Z.neg m else Z.pos m) * pow2 e))
  | _ => None
  end.

End Ratio.

(* ===================================================================== *)
(** ** Aspect-ratio normalisation of the card galleries *)
(* ===================================================================== *)

Module Normalizer.

Import Ratio.

(** The [img] of a gallery: whether it has finished loading, and the natural
    size it reports once it has (a broken image is complete with size 0). *)
Record image : Type := mkImage {
  complete : bool;
  naturalWidth : N;
  naturalHeight : N
}.

(** A [.product-media-container] inside a gallery. *)
Record container : Type := mkContainer {
  container_is_html : bool;               (* instanceof HTMLElement *)
  style_aspectRatio : option string
}.

(** A [.card-gallery] element of the component. *)
Record gallery : Type := mkGallery {
  node : nat;                               (* identity of the element *)
  gallery_is_html : bool;                   (* instanceof HTMLElement *)
  data_aspect_ratio_applied : option string;
  data_product_id : option string;
  img : option image;                       (* querySelector('img') *)
  gallery_aspect_ratio : option string;     (* --gallery-aspect-ratio *)
  mediaContainers : list container
}.

(** Truthiness of a string or [null]. *)
Definition truthy (s : option string) : bool :=
  match s with
  | None => false
  | Some s => negb (String.eqb s "")
  end.

(** The selector [.card-gallery:not([data-aspect-ratio-applied])] *)
Definition unprocessed (g : gallery) : bool :=
  match data_aspect_ratio_applied g with None => true | Some _ => false end.

Definition getUnprocessedGalleries (dom : list gallery) : list gallery :=
  filter (λ g, unprocessed g = true) dom.

Definition markAsProcessed (g : gallery) : gallery :=
  if negb (gallery_is_html g) then g
  else mkGallery (node g) (gallery_is_html g) (Some "true"%string)
         (data_product_id g) (img g) (gallery_aspect_ratio g)
         (mediaContainers g).

Definition set_container (aspectRatio : string) (c : container) : container :=
  if container_is_html c
  then mkContainer (container_is_html c) (Some aspectRatio)
  else c.

Definition applyAspectRatioToGallery (g : gallery) (aspectRatio : string)
  : gallery :=
  if negb (gallery_is_html g) then g
  else
    markAsProcessed
      (mkGallery (node g) (gallery_is_html g) (data_aspect_ratio_applied g)
         (data_product_id g) (img g) (Some aspectRatio)
         (set_container aspectRatio <$> mediaContainers g)).

(** *** Fixed mode *)

Definition ASPECT_RATIOS : list (string * string) :=
  [ ("square", "1"); ("portrait", "0.8"); ("landscape", "1.778") ]%string.

Fixpoint own_property (name : string) (o : list (string * string))
  : option string :=
  match o with
  | [] => None
  | (k, v) :: o' => if decide (k = name) then Some v else own_property name o'
  end.

(** [ASPECT_RATIOS[ratioSetting] || null], for the setting names of the
    theme (names inherited from [Object.prototype] are not settings). *)
Definition getAspectRatioValue (ratioSetting : string) : option string :=
  let v := own_property ratioSetting ASPECT_RATIOS in
  if truthy v then v else None.

(** [#applyFixedAspectRatio] up to its request for an animation frame: the
    ratio and the galleries the frame callback will go through, or [None]
    when the pass returns early. *)
Definition applyFixedAspectRatio (imageRatioSetting : option string)
    (dom : list gallery) : option (string * list nat) :=
  match imageRatioSetting with
  | None => None
  | Some setting =>
      if negb (truthy (Some setting)) then None
      else
        match getAspectRatioValue setting with
        | None => None
        | Some aspectRatio =>
            match getUnprocessedGalleries dom with
            | [] => None
            | newCardGalleries => Some (aspectRatio, node <$> newCardGalleries)
            end
        end
  end.

(** The frame callback of the fixed pass, on the document as it is then. *)
Definition applyFixed_frame (aspectRatio : string) (newCardGalleries : list nat)
    (dom : list gallery) : list gallery :=
  (λ g, if bool_decide (node g ∈ newCardGalleries)
        then applyAspectRatioToGallery g aspectRatio
        else g) <$> dom.

(** *** Adaptive mode *)

(** What one pass keeps while it runs and for the load listeners it leaves
    behind: the per-pass cache, the galleries it called
    [#getSafeImageAspectRatio] for, and the listeners still waiting. *)
Record pass : Type := mkPass {
  productRatioCache : gmap string string;
  computed : list nat;
  listeners : list nat
}.

Definition cache_has (productId : option string) (p : pass) : option string :=
  match productId with
  | Some k => if truthy productId then productRatioCache p !! k else None
  | None => None
  end.

(** [loadAndSetRatio] for gallery [g] with its image [i]. *)
Definition loadAndSetRatio (g : gallery) (i : image) (p : pass)
  : gallery * pass :=
  if (naturalWidth i =? 0)%N || (naturalHeight i =? 0)%N then (g, p)
  else
    let imgRatio := getSafeImageAspectRatio (naturalWidth i) (naturalHeight i) in
    let cache :=
      match data_product_id g with
      | Some k => if truthy (Some k) then <[k := imgRatio]> (productRatioCache p)
                  else productRatioCache p
      | None => productRatioCache p
      end in
    (applyAspectRatioToGallery g imgRatio,
     mkPass cache (computed p ++ [node g]) (listeners p)).

(** The body of the [forEach] of [#fixAdaptiveAspectRatios]. *)
Definition adaptive_body (g : gallery) (p : pass) : gallery * pass :=
  if negb (gallery_is_html g) then (g, p)
  else
    match cache_has (data_product_id g) p with
    | Some r => (applyAspectRatioToGallery g r, p)
    | None =>
        match img g with
        | None => (applyAspectRatioToGallery g "1", p)
        | Some i =>
            if complete i then loadAndSetRatio g i p
            else (g, mkPass (productRatioCache p) (computed p)
                       (listeners p ++ [node g]))
        end
    end.

(** The loop over the unprocessed galleries, in document order; galleries
    that carry the marker are not in the node list. *)
Fixpoint adaptive_forEach (dom : list gallery) (p : pass)
  : list gallery * pass :=
  match dom with
  | [] => ([], p)
  | g :: dom' =>
      let '(g', p') := if unprocessed g then adaptive_body g p else (g, p) in
      let '(rest, p'') := adaptive_forEach dom' p' in
      (g' :: rest, p'')
  end.

Definition fixAdaptiveAspectRatios (dom : list gallery) : list gallery * pass :=
  adaptive_forEach dom (mkPass ∅ [] []).

(** The [load] event of the image of gallery [n], when a listener of the
    pass waits for it: the image is complete from then on, the listener runs
    once and is gone. *)
Fixpoint fire_load (n : nat) (dom : list gallery) (p : pass)
  : list gallery * pass :=
  match dom with
  | [] => ([], p)
  | g :: dom' =>
      if bool_decide (node g = n) then
        match img g with
        | Some i =>
            let i' := mkImage true (naturalWidth i) (naturalHeight i) in
            let g1 := mkGallery (node g) (gallery_is_html g)
                        (data_aspect_ratio_applied g) (data_product_id g)
                        (Some i') (gallery_aspect_ratio g) (mediaContainers g) in
            let '(g2, p') := loadAndSetRatio g1 i' p in
            (g2 :: dom', p')
        | None => (g :: dom', p)
        end
      else
        let '(rest, p') := fire_load n dom' p in (g :: rest, p')
  end.

Definition on_load (n : nat) (dom : list gallery) (p : pass)
  : list gallery * pass :=
  if bool_decide (n ∈ listeners p)
  then fire_load n dom
         (mkPass (productRatioCache p) (computed p)
            (filter (λ k, k ≠ n) (listeners p)))
  else (dom, p).

(** [#processNewElements], once its animation frame has come. *)
Inductive processed : Type :=
  | Adaptive (dom : list gallery) (p : pass)
  | Fixed (request : option (string * list nat)).

Definition processNewElements (imageRatioSetting : option string)
    (dom : list gallery) : processed :=
  if bool_decide (imageRatioSetting = Some "adapt"%string)
  then let '(dom', p) := fixAdaptiveAspectRatios dom in Adaptive dom' p
  else Fixed (applyFixedAspectRatio imageRatioSetting dom).

End Normalizer.

(* ===================================================================== *)
(** ** The component *)
(* ===================================================================== *)

Module Paginated.

(** The argument [type] of [#fetchPage] and [#getPage]. *)
Inductive direction : Type := next | previous.

#[global] Instance direction_eq_dec : EqDecision direction.
Proof. solve_decision. Defined.

(** A card of the grid: its [data-page] attribute and the rest of it. *)
Record card : Type := mkCard {
  data_page : option string;
  card_content : string
}.

#[global] Instance card_eq_dec : EqDecision card.
Proof. solve_decision. Defined.

(** The HTML of a section as [#getGridForPage] sees it through [DOMParser]
    and its two selectors. *)
Inductive html : Type :=
  | Blank                          (* the empty string *)
  | NoGrid                         (* no element with ref="grid" *)
  | GridOf (items : list card).    (* the grid's own children with ref="cards[]" *)

Record pageinfo : Type := mkPage {
  page : jsnum;
  url : URL
}.

(** A call of [sectionRenderer.getSectionHTML] that has not settled, with
    what the rest of [#fetchPage] needs once it has. *)
Record request : Type := mkRequest {
  request_id : nat;
  request_type : direction;
  request_page : jsnum;
  request_sectionId : string;
  request_url : URL
}.

(** A render suspended at [await promise]; [waiter_id] names the resolver
    of that promise. *)
Record waiter : Type := mkWaiter {
  waiter_id : nat;
  waiter_type : direction;
  waiter_page : pageinfo
}.

(** The element as the page serves it.

    Modelled from the spec: the base class [Component] that resolves
    [this.refs] is not among the sources.  The refs are the named elements
    of the markup, each possibly absent; [refs.cards] is the array of the
    cards now in the grid, in document order, and is undefined when there is
    none. *)
Record markup : Type := mkMarkup {
  section_id : option string;              (* attribute section-id *)
  grid_last_page : option (option string); (* refs.grid, its last-page attribute *)
  viewMorePrevious : bool;                 (* refs.viewMorePrevious is there *)
  viewMoreNext : bool;                     (* refs.viewMoreNext is there *)
  cardGallery_ratio : option (option string);
      (* the first [ref="cardGallery"] element, its data-image-ratio *)
  href : URL;                              (* window.location.href on arrival *)
  served_cards : list card
}.

Record state : Type := mkState {
  element : markup;
  cards : list card;                       (* refs.cards / children of the grid *)
  pages : gmap jsnum html;
  infinityScrollObserver : bool;           (* created and observing *)
  resolveNextPagePromise : option nat;
  resolvePreviousPagePromise : option nat;
  imageRatioSetting : option string;
  location : URL;
  history : list URL;                      (* pushState entries, oldest first *)
  scrollY : Z;
  suspended : list waiter;
  in_flight : list request;
  idle_callbacks : list direction;         (* requestIdleCallback queue *)
  frame_callbacks : nat;                   (* #processNewElements frames asked for *)
  fresh : nat;
  (* the record of what happened *)
  issued : list request;
  spliced : list (direction * jsnum * list card);
  rejections : list string
}.

Definition set_cards v s := mkState (element s) v (pages s)
  (infinityScrollObserver s) (resolveNextPagePromise s)
  (resolvePreviousPagePromise s) (imageRatioSetting s) (location s) (history s)
  (scrollY s) (suspended s) (in_flight s) (idle_callbacks s) (frame_callbacks s)
  (fresh s) (issued s) (spliced s) (rejections s).
Definition set_pages v s := mkState (element s) (cards s) v
  (infinityScrollObserver s) (resolveNextPagePromise s)
  (resolvePreviousPagePromise s) (imageRatioSetting s) (location s) (history s)
  (scrollY s) (suspended s) (in_flight s) (idle_callbacks s) (frame_callbacks s)
  (fresh s) (issued s) (spliced s) (rejections s).
Definition set_observer v s := mkState (element s) (cards s) (pages s)
  v (resolveNextPagePromise s)
  (resolvePreviousPagePromise s) (imageRatioSetting s) (location s) (history s)
  (scrollY s) (suspended s) (in_flight s) (idle_callbacks s) (frame_callbacks s)
  (fresh s) (issued s) (spliced s) (rejections s).
Definition set_resolveNext v s := mkState (element s) (cards s) (pages s)
  (infinityScrollObserver s) v
  (resolvePreviousPagePromise s) (imageRatioSetting s) (location s) (history s)
  (scrollY s) (suspended s) (in_flight s) (idle_callbacks s) (frame_callbacks s)
  (fresh s) (issued s) (spliced s) (rejections s).
Definition set_resolvePrevious v s := mkState (element s) (cards s) (pages s)
  (infinityScrollObserver s) (resolveNextPagePromise s)
  v (imageRatioSetting s) (location s) (history s)
  (scrollY s) (suspended s) (in_flight s) (idle_callbacks s) (frame_callbacks s)
  (fresh s) (issued s) (spliced s) (rejections s).
Definition set_imageRatioSetting v s := mkState (element s) (cards s) (pages s)
  (infinityScrollObserver s) (resolveNextPagePromise s)
  (resolvePreviousPagePromise s) v (location s) (history s)
  (scrollY s) (suspended s) (in_flight s) (idle_callbacks s) (frame_callbacks s)
  (fresh s) (issued s) (spliced s) (rejections s).
Definition set_location v s := mkState (element s) (cards s) (pages s)
  (infinityScrollObserver s) (resolveNextPagePromise s)
  (resolvePreviousPagePromise s) (imageRatioSetting s) v (history s)
  (scrollY s) (suspended s) (in_flight s) (idle_callbacks s) (frame_callbacks s)
  (fresh s) (issued s) (spliced s) (rejections s).
Definition set_history v s := mkState (element s) (cards s) (pages s)
  (infinityScrollObserver s) (resolveNextPagePromise s)
  (resolvePreviousPagePromise s) (imageRatioSetting s) (location s) v
  (scrollY s) (suspended s) (in_flight s) (idle_callbacks s) (frame_callbacks s)
  (fresh s) (issued s) (spliced s) (rejections s).
Definition set_scrollY v s := mkState (element s) (cards s) (pages s)
  (infinityScrollObserver s) (resolveNextPagePromise s)
  (resolvePreviousPagePromise s) (imageRatioSetting s) (location s) (history s)
  v (suspended s) (in_flight s) (idle_callbacks s) (frame_callbacks s)
  (fresh s) (issued s) (spliced s) (rejections s).
Definition set_suspended v s := mkState (element s) (cards s) (pages s)
  (infinityScrollObserver s) (resolveNextPagePromise s)
  (resolvePreviousPagePromise s) (imageRatioSetting s) (location s) (history s)
  (scrollY s) v (in_flight s) (idle_callbacks s) (frame_callbacks s)
  (fresh s) (issued s) (spliced s) (rejections s).
Definition set_in_flight v s := mkState (element s) (cards s) (pages s)
  (infinityScrollObserver s) (resolveNextPagePromise s)
  (resolvePreviousPagePromise s) (imageRatioSetting s) (location s) (history s)
  (scrollY s) (suspended s) v (idle_callbacks s) (frame_callbacks s)
  (fresh s) (issued s) (spliced s) (rejections s).
Definition set_idle_callbacks v s := mkState (element s) (cards s) (pages s)
  (infinityScrollObserver s) (resolveNextPagePromise s)
  (resolvePreviousPagePromise s) (imageRatioSetting s) (location s) (history s)
  (scrollY s) (suspended s) (in_flight s) v (frame_callbacks s)
  (fresh s) (issued s) (spliced s) (rejections s).
Definition set_frame_callbacks v s := mkState (element s) (cards s) (pages s)
  (infinityScrollObserver s) (resolveNextPagePromise s)
  (resolvePreviousPagePromise s) (imageRatioSetting s) (location s) (history s)
  (scrollY s) (suspended s) (in_flight s) (idle_callbacks s) v
  (fresh s) (issued s) (spliced s) (rejections s).
Definition set_fresh v s := mkState (element s) (cards s) (pages s)
  (infinityScrollObserver s) (resolveNextPagePromise s)
  (resolvePreviousPagePromise s) (imageRatioSetting s) (location s) (history s)
  (scrollY s) (suspended s) (in_flight s) (idle_callbacks s) (frame_callbacks s)
  v (issued s) (spliced s) (rejections s).
Definition set_issued v s := mkState (element s) (cards s) (pages s)
  (infinityScrollObserver s) (resolveNextPagePromise s)
  (resolvePreviousPagePromise s) (imageRatioSetting s) (location s) (history s)
  (scrollY s) (suspended s) (in_flight s) (idle_callbacks s) (frame_callbacks s)
  (fresh s) v (spliced s) (rejections s).
Definition set_spliced v s := mkState (element s) (cards s) (pages s)
  (infinityScrollObserver s) (resolveNextPagePromise s)
  (resolvePreviousPagePromise s) (imageRatioSetting s) (location s) (history s)
  (scrollY s) (suspended s) (in_flight s) (idle_callbacks s) (frame_callbacks s)
  (fresh s) (issued s) v (rejections s).
Definition set_rejections v s := mkState (element s) (cards s) (pages s)
  (infinityScrollObserver s) (resolveNextPagePromise s)
  (resolvePreviousPagePromise s) (imageRatioSetting s) (location s) (history s)
  (scrollY s) (suspended s) (in_flight s) (idle_callbacks s) (frame_callbacks s)
  (fresh s) (issued s) (spliced s) v.

(** The element before [connectedCallback]. *)
Definition mount (m : markup) : state :=
  mkState m (served_cards m) ∅ false None None None (href m) [] 0
    [] [] [] 0 0 [] [] [].

(** A completed getter: a value or a thrown error. *)
Inductive completion (A : Type) : Type :=
  | Normal (a : A)
  | Throw (message : string).
Arguments Normal {A} a.
Arguments Throw {A} message.

(** [get sectionId] *)
Definition sectionId (s : state) : completion string :=
  match section_id (element s) with
  | Some id =>
      if String.eqb id "" then Throw "The section-id attribute is required"
      else Normal id
  | None => Throw "The section-id attribute is required"
  end.

Definition getLastPage (s : state) : jsnum :=
  match grid_last_page (element s) with
  | None => Int 0
  | Some last_page => Number_attribute last_page
  end.

Definition shouldUsePage (s : state) (pageInfo : option pageinfo) : bool :=
  match pageInfo with
  | None => false
  | Some pageInfo =>
      if js_gt (page pageInfo) (getLastPage s) || js_lt (page pageInfo) (Int 1)
      then false
      else true
  end.

(** [Number(card.dataset.page)] *)
Definition card_page (c : card) : jsnum := Number_dataset (data_page c).

(** [cards[isPrevious ? 0 : cards.length - 1]] *)
Definition targetCard (s : state) (type : direction) : option card :=
  if bool_decide (type = previous) then head (cards s) else last (cards s).

Definition getPage (s : state) (type : direction) : option pageinfo :=
  let isPrevious := bool_decide (type = previous) in
  match cards s with
  | [] => None                                  (* refs.cards is no array *)
  | _ =>
      match targetCard s type with
      | None => None
      | Some targetCard =>
          let page :=
            if isPrevious
            then js_sub (card_page targetCard) (Int 1)
            else js_add (card_page targetCard) (Int 1) in
          let here := location s in
          Some (mkPage page
                  (mkURL (url_base here)
                     (searchParams_set "page" (toString page) (url_search here))
                     ""))
      end
  end.

Definition getGridForPage (s : state) (page : jsnum) : option (list card) :=
  match pages s !! page with
  | None => None
  | Some Blank => None
  | Some NoGrid => None
  | Some (GridOf items) => Some items
  end.

(** [#fetchPage], up to its [await]: nothing, a rejected call, or a request. *)
Definition fetchPage (type : direction) (s : state) : state :=
  match getPage s type with
  | None => s
  | Some page_ =>
      if negb (shouldUsePage s (Some page_)) then s
      else
        match sectionId s with
        | Throw message => set_rejections (rejections s ++ [message]) s
        | Normal id =>
            let r := mkRequest (fresh s) type (page page_) id (url page_) in
            set_fresh (S (fresh s))
              (set_in_flight (in_flight s ++ [r])
                 (set_issued (issued s ++ [r]) s))
        end
  end.

Definition resolver (type : direction) (s : state) : option nat :=
  match type with
  | next => resolveNextPagePromise s
  | previous => resolvePreviousPagePromise s
  end.

Definition set_resolver (type : direction) (v : option nat) (s : state)
  : state :=
  match type with
  | next => set_resolveNext v s
  | previous => set_resolvePrevious v s
  end.

(** [new Promise(res => slot = res); await promise] *)
Definition suspend (type : direction) (p : pageinfo) (s : state) : state :=
  let w := mkWaiter (fresh s) type p in
  set_fresh (S (fresh s))
    (set_suspended (suspended s ++ [w])
       (set_resolver type (Some (fresh s)) s)).

Definition pushState (u : URL) (s : state) : state :=
  set_location u (set_history (history s ++ [u]) s).

Definition requestIdleCallback (type : direction) (s : state) : state :=
  set_idle_callbacks (idle_callbacks s ++ [type]) s.

Definition processNewElements (s : state) : state :=
  set_frame_callbacks (S (frame_callbacks s)) s.

Definition record_splice (type : direction) (p : jsnum) (els : list card)
    (s : state) : state :=
  set_spliced (spliced s ++ [(type, p, els)]) s.

Section Viewport.

(** The layout the browser computes: the distance of a card from the top of
    the document when the grid holds the given cards, and the scroll offset
    the window has once the browser has laid out an insertion (it may move
    it by itself, or leave it). *)
Variable document_top : list card → card → Z.
Variable scroll_after_layout : list card → Z → Z.

(** [el.getBoundingClientRect().top] *)
Definition client_top (s : state) (el : card) : Z :=
  document_top (cards s) el - scrollY s.

(** [#renderNextPage] from [grid.append] on. *)
Definition append_page (nextPage : pageinfo) (els : list card) (s : state)
  : state :=
  let s := set_cards (cards s ++ els) s in
  let s := record_splice next (page nextPage) els s in
  let s := processNewElements s in
  let s := pushState (url nextPage) s in
  requestIdleCallback next s.

(** [#renderPreviousPage] from the scroll bookkeeping on. *)
Definition prepend_page (previousPage : pageinfo) (els : list card)
    (s : state) : state :=
  let scrollTop := scrollY s in
  let firstElement := head (cards s) in
  let oldHeight :=
    match firstElement with
    | Some el => client_top s el + scrollY s
    | None => 0
    end in
  let s := set_cards (els ++ cards s) s in
  let s := set_scrollY (scroll_after_layout (cards s) scrollTop) s in
  let s := record_splice previous (page previousPage) els s in
  let s := processNewElements s in
  let s := pushState (url previousPage) s in
  let s :=
    match firstElement with
    | Some el =>
        let newHeight := client_top s el + scrollY s in
        let heightDiff := newHeight - oldHeight in
        set_scrollY (scrollTop + heightDiff) s
    | None => s
    end in
  requestIdleCallback previous s.

Definition splice_page (type : direction) (p : pageinfo) (els : list card)
    (s : state) : state :=
  match type with
  | next => append_page p els s
  | previous => prepend_page p els s
  end.

(** [#renderNextPage] and [#renderPreviousPage] up to their [await]. *)
Definition renderPage (type : direction) (s : state) : state :=
  match grid_last_page (element s) with
  | None => s
  | Some _ =>
      match getPage s type with
      | None => s
      | Some p =>
          if negb (shouldUsePage s (Some p)) then s
          else
            match getGridForPage s (page p) with
            | Some els => splice_page type p els s
            | None => suspend type p s
            end
      end
  end.

Definition renderNextPage : state → state := renderPage next.
Definition renderPreviousPage : state → state := renderPage previous.

(** The rest of a render once its promise is resolved. *)
Definition resume (w : waiter) (s : state) : state :=
  match getGridForPage s (page (waiter_page w)) with
  | None => s
  | Some els => splice_page (waiter_type w) (waiter_page w) els s
  end.

(** Calling the resolver [k]: the render that awaits its promise goes on. *)
Definition resolve (k : nat) (s : state) : state :=
  match filter (λ w, waiter_id w = k) (suspended s) with
  | w :: _ =>
      resume w (set_suspended (filter (λ w, waiter_id w ≠ k) (suspended s)) s)
  | [] => s
  end.

(** The rest of [#fetchPage] once [getSectionHTML] has given [body]. *)
Definition fetched (r : request) (body : html) (s : state) : state :=
  let s := set_pages (<[request_page r := body]> (pages s)) s in
  let slot := resolver (request_type r) s in
  let s := set_resolver (request_type r) None s in
  match slot with
  | Some k => resolve k s
  | None => s
  end.

Definition storeImageRatioSettings (s : state) : state :=
  match cardGallery_ratio (element s) with
  | None => s
  | Some a => set_imageRatioSetting a s
  end.

Definition observeViewMore (s : state) : state :=
  if negb (viewMorePrevious (element s)) || negb (viewMoreNext (element s))
  then s
  else set_observer true s.

Definition connectedCallback (s : state) : state :=
  let s := storeImageRatioSettings s in
  let s := fetchPage next s in
  let s := fetchPage previous s in
  observeViewMore s.

Definition disconnectedCallback (s : state) : state :=
  set_observer false s.

(** What the browser does to the element after it is connected. *)
Inductive event : Type :=
  | Intersect (target : direction) (isIntersecting : bool)
      (* one entry of an observer callback, past the view-transition wait *)
  | FetchDone (id : nat) (body : html)    (* getSectionHTML fulfils *)
  | FetchFail (id : nat)                  (* getSectionHTML rejects *)
  | Idle (n : nat)                        (* the n-th idle callback runs *)
  | Disconnect.

Definition find_request (id : nat) (s : state) : option request :=
  head (filter (λ r, request_id r = id) (in_flight s)).

Definition drop_request (id : nat) (s : state) : state :=
  set_in_flight (filter (λ r, request_id r ≠ id) (in_flight s)) s.

Definition step (s : state) (e : event) : state :=
  match e with
  | Intersect target isIntersecting =>
      if infinityScrollObserver s && isIntersecting
      then renderPage target s
      else s
  | FetchDone id body =>
      match find_request id s with
      | Some r => fetched r body (drop_request id s)
      | None => s
      end
  | FetchFail id =>
      match find_request id s with
      | Some r =>
          set_rejections (rejections s ++ ["getSectionHTML"%string])
            (drop_request id s)
      | None => s
      end
  | Idle n =>
      match idle_callbacks s !! n with
      | Some type =>
          fetchPage type (set_idle_callbacks (delete n (idle_callbacks s)) s)
      | None => s
      end
  | Disconnect => disconnectedCallback s
  end.

Definition run (s : state) (es : list event) : state := foldl step s es.

(** One life of the element: connected, then the events. *)
Definition lifetime (m : markup) (es : list event) : state :=
  run (connectedCallback (mount m)) es.

End Viewport.

End Paginated.

(* ===================================================================== *)
(** ** The contract of the markup and of the section renderer *)
(* ===================================================================== *)

Module Contract.

Import Paginated.

(** The page as served: a section id, a grid that publishes [L] as its last
    page, both sentinels, and at least one card, every card on page [n]. *)
Record served (m : markup) (n L : Z) : Prop := mkServed {
  served_section : ∃ id, section_id m = Some id ∧ id ≠ ""%string;
  served_grid : ∃ a, grid_last_page m = Some a ∧ Number_attribute a = Int L;
  served_sentinels : viewMorePrevious m = true ∧ viewMoreNext m = true;
  served_some : served_cards m ≠ [];
  served_tagged : Forall (λ c, card_page c = Int n) (served_cards m)
}.

(** The whole numbers binary64 adds one to and takes one from without
    rounding.  From 2^53 on the component computes [p + 1 = p]; the page
    numbers of a shop are far below. *)
Definition safe (z : Z) : Prop := - 2 ^ 53 < z < 2 ^ 53.

#[global] Instance safe_dec (z : Z) : Decision (safe z).
Proof. unfold safe. apply _. Defined.

(** A page served with all it needs but the page number of its cards. *)
Record untagged_page (m : markup) : Prop := mkUntagged {
  untagged_section : ∃ id, section_id m = Some id ∧ id ≠ ""%string;
  untagged_grid : ∃ a, grid_last_page m = Some a;
  untagged_sentinels : viewMorePrevious m = true ∧ viewMoreNext m = true;
  untagged_some : served_cards m ≠ [];
  untagged_cards : Forall (λ c, card_page c = NaN) (served_cards m)
}.

(** What the section renderer sends back for a request: when the body has a
    grid, the grid has cards and they carry the page that was asked for. *)
Definition page_of (p : jsnum) (body : html) : Prop :=
  match body with
  | GridOf items => items ≠ [] ∧ Forall (λ c, card_page c = p) items
  | _ => True
  end.

Definition answers (s : state) (e : event) : Prop :=
  match e with
  | FetchDone id body =>
      match find_request id s with
      | Some r => page_of (request_page r) body
      | None => True
      end
  | _ => True
  end.

#[global] Instance page_of_dec (p : jsnum) (body : html) :
  Decision (page_of p body).
Proof. destruct body; apply _. Defined.

#[global] Instance answers_dec (s : state) (e : event) : Decision (answers s e).
Proof.
  destruct e; try apply _. simpl. destruct (find_request _ _); apply _.
Defined.

Section Traces.

Variable document_top : list card → card → Z.
Variable scroll_after_layout : list card → Z → Z.

(** Every completed fetch of the run answers its request. *)
Fixpoint faithful (s : state) (es : list event) : Prop :=
  match es with
  | [] => True
  | e :: es' =>
      answers s e ∧
      faithful (step document_top scroll_after_layout s e) es'
  end.

#[global] Instance faithful_dec (s : state) (es : list event) :
  Decision (faithful s es).
Proof. revert s. induction es as [|e es IH]; intros s; simpl; apply _. Defined.

End Traces.

(** Only the sentinel after the list is met. *)
Definition forward_only (es : list event) : Prop :=
  Forall (λ e, ∀ b, e ≠ Intersect previous b) es.

Definition requests_of (type : direction) (rs : list request) : list request :=
  filter (λ r, request_type r = type) rs.

Definition requests_for (p : jsnum) (rs : list request) : list request :=
  filter (λ r, request_page r = p) rs.

(** The pages and the cards of the splices of one direction, oldest first. *)
Definition splices_of (type : direction)
    (l : list (direction * jsnum * list card)) : list (jsnum * list card) :=
  omap (λ e, if decide (e.1.1 = type) then Some (e.1.2, e.2) else None) l.

(** A configuration error: a ref or the section id is missing. *)
Definition configuration_error (m : markup) : Prop :=
  section_id m = None ∨ grid_last_page m = None ∨
  viewMorePrevious m = false ∨ viewMoreNext m = false ∨ served_cards m = [].

End Contract.

(* ===================================================================== *)
(** ** Sample pages *)
(* ===================================================================== *)

Module Sample.

Import Paginated Normalizer.

Definition shop : URL :=
  mkURL "https://shop.example/collections/all" [("page", "2")]%string "grid".

Definition on_page (n : string) (name : string) : card := mkCard (Some n) name.

(** Page 2 of 3, two cards. *)
Definition page2of3 : markup :=
  mkMarkup (Some "collection"%string) (Some (Some "3"%string)) true true
    (Some (Some "adapt"%string)) shop
    [on_page "2" "c"; on_page "2" "d"].

(** The last page, 3 of 3. *)
Definition page3of3 : markup :=
  mkMarkup (Some "collection"%string) (Some (Some "3"%string)) true true
    (Some (Some "adapt"%string)) shop
    [on_page "3" "e"].

(** A card without the page attribute. *)
Definition untagged : markup :=
  mkMarkup (Some "collection"%string) (Some (Some "3"%string)) true true
    None shop [mkCard None "x"].

(** A card whose page attribute is there with the text [t], and one whose
    page attribute is a word. *)
Definition unnumbered (t : string) : markup :=
  mkMarkup (Some "collection"%string) (Some (Some "3"%string)) true true
    None shop [mkCard (Some t) "x"].

Definition worded : markup := unnumbered "two".

(** The grid ref is missing. *)
Definition without_grid : markup :=
  mkMarkup (Some "collection"%string) None true true None shop
    [on_page "2" "c"].

(** The section id is missing. *)
Definition without_section_id : markup :=
  mkMarkup None (Some (Some "3"%string)) true true None shop
    [on_page "2" "c"].

(** The sentinel after the list is missing. *)
Definition without_next_sentinel : markup :=
  mkMarkup (Some "collection"%string) (Some (Some "3"%string)) true false
    (Some (Some "adapt"%string)) shop
    [on_page "2" "c"; on_page "2" "d"].

(** A collection without products. *)
Definition without_cards : markup :=
  mkMarkup (Some "collection"%string) (Some (Some "3"%string)) true true
    None shop [].

Definition cards_of_page1 : list card := [on_page "1" "a"; on_page "1" "b"].
Definition cards_of_page3 : list card := [on_page "3" "e"; on_page "3" "f"].

(** Cards in a column, 100 pixels each. *)
Definition column (cs : list card) (c : card) : Z :=
  match list_find (λ x, x = c) cs with
  | Some (i, _) => 100 * Z.of_nat i
  | None => 0
  end.

(** A browser that leaves the scroll offset alone on insertion, and one
    that anchors it 30 pixels further. *)
Definition unanchored (cs : list card) (y : Z) : Z := y.
Definition anchored (cs : list card) (y : Z) : Z := y + 30.

(** Two cards of product 42 in one pass, their images still loading. *)
Definition loading (n : nat) (w h : N) : gallery :=
  mkGallery n true None (Some "42"%string) (Some (mkImage false w h)) None
    [mkContainer true None].

(** The page before page 2 of the shop, and the request for the page
    after it. *)
Definition page1_of_shop : pageinfo :=
  mkPage (Int 1)
    (mkURL "https://shop.example/collections/all" [("page", "1")]%string "").

Definition request_of_page3 : request :=
  mkRequest 0 next (Int 3) "collection"
    (mkURL "https://shop.example/collections/all" [("page", "3")]%string "").

(** A gallery whose image has loaded. *)
Definition loaded (n : nat) (w h : N) : gallery :=
  mkGallery n true None (Some "42"%string) (Some (mkImage true w h)) None
    [mkContainer true None].


End Sample.


(* ===================================================================== *)
(** ** What every state of a life of the element satisfies *)
(* ===================================================================== *)

Module Invariant.

Import Paginated Contract.

(** With the first card on page [lo] and the last on page [hi], the page a
    direction goes for next. *)
Definition target (lo hi : Z) (d : direction) : jsnum :=
  match d with
  | next => Int (hi + 1)
  | previous => Int (lo - 1)
  end.

(** The first and last page once a page was spliced in direction [d]. *)
Definition lo_after (d : direction) (lo : Z) : Z :=
  match d with next => lo | previous => lo - 1 end.

Definition hi_after (d : direction) (hi : Z) : Z :=
  match d with next => hi + 1 | previous => hi end.

(** A direction holds at most one of: a request in flight, an idle callback
    that will fetch, a cached page ready to be spliced. *)
Definition pending (d : direction) (s : state) : nat :=
  length (requests_of d (in_flight s)).

Definition queued (d : direction) (s : state) : nat :=
  length (filter (λ x, x = d) (idle_callbacks s)).

Definition ready (p : jsnum) (s : state) : nat :=
  match getGridForPage s p with
  | Some _ => 1
  | None => 0
  end.

Definition tokens (lo hi : Z) (d : direction) (s : state) : nat :=
  pending d s + queued d s + ready (target lo hi d) s.

(** Cards in page order. *)
Definition page_le (c1 c2 : card) : Prop :=
  ∃ z1 z2, card_page c1 = Int z1 ∧ card_page c2 = Int z2 ∧ z1 ≤ z2.

Definition appended (s : state) : list (jsnum * list card) :=
  splices_of next (spliced s).

Definition prepended (s : state) : list (jsnum * list card) :=
  splices_of previous (spliced s).

Record shape (m : markup) (n lo hi : Z) (s : state) : Prop := mkShape {
  shape_element : element s = m;
  shape_order : lo ≤ n ≤ hi;
  shape_head : card_page <$> head (cards s) = Some (Int lo);
  shape_last : card_page <$> last (cards s) = Some (Int hi);
  shape_bounds :
    Forall (λ c, ∃ z, card_page c = Int z ∧ lo ≤ z ≤ hi) (cards s);
  shape_sorted : StronglySorted page_le (cards s);
  shape_requests :
    Forall (λ r, request_page r = target lo hi (request_type r)) (in_flight s);
  shape_cache :
    ∀ p els, getGridForPage s p = Some els →
      (∃ z, p = Int z ∧ lo - 1 ≤ z ≤ hi + 1) ∧ page_of p (GridOf els);
  shape_waiters : Forall (λ w, (waiter_id w < fresh s)%nat) (suspended s);
  shape_slots :
    ∀ d k, resolver d s = Some k →
      ∃ w, head (filter (λ w, waiter_id w = k) (suspended s)) = Some w ∧
           waiter_type w = d ∧
           page (waiter_page w) = target lo hi d ∧
           getGridForPage s (target lo hi d) = None;
  shape_cards :
    cards s =
      concat (reverse (snd <$> prepended s)) ++ served_cards m ++
      concat (snd <$> appended s);
  shape_journal :
    Forall (λ e, pages s !! e.1.2 = Some (GridOf e.2)) (spliced s);
  shape_appended :
    ∃ zs, fst <$> appended s = Int <$> zs ∧
          StronglySorted Z.lt zs ∧ Forall (λ z, n < z ≤ hi) zs
}.

Definition invariant (m : markup) (n : Z) (s : state) : Prop :=
  ∃ lo hi, shape m n lo hi s ∧ ∀ d, (tokens lo hi d s ≤ 1)%nat.

(** The steps of [fetched]: the body stored and the slot emptied, and the
    waiter of a resolver taken off the suspended renders. *)
Definition stored (r : request) (body : html) (s : state) : state :=
  set_resolver (request_type r) None
    (set_pages (<[request_page r := body]> (pages s)) s).

Definition awake (k : nat) (s : state) : state :=
  set_suspended (filter (λ w, waiter_id w ≠ k) (suspended s)) s.


(** No render of the previous page has begun. *)
Definition forward (s : state) : Prop :=
  resolvePreviousPagePromise s = None ∧
  Forall (λ w, waiter_type w = next) (suspended s) ∧
  prepended s = [].

End Invariant.

(* ===================================================================== *)
(** ** The record a life of the element leaves *)
(* ===================================================================== *)

Module Journal.

Import Paginated Contract Invariant.

(** The test of [#shouldUsePage] on a page number, for the element [m]. *)
Definition in_bounds (m : markup) (p : jsnum) : bool :=
  shouldUsePage (mount m) (Some (mkPage p (href m))).

(** The URL [#getPage] builds for page [p] from the address [here]: the same
    origin and path, the page parameter set, every other parameter as it
    was, no fragment. *)
Definition addressed (here : URL) (p : jsnum) (u : URL) : Prop :=
  url_base u = url_base here ∧
  url_hash u = ""%string ∧
  searchParams_get "page" (url_search u) = Some (toString p) ∧
  ∀ k, k ≠ "page"%string →
       searchParams_get k (url_search u) = searchParams_get k (url_search here).

(** What holds of every state of the element [m], whatever the markup and
    whatever the browser and the server do.  [owed] counts the fetches
    [connectedCallback] or a running idle callback has still to make. *)
Record journal (m : markup) (owed : nat) (s : state) : Prop := mkJournal {
  journal_element : element s = m;
  journal_location : location s = default (href m) (last (history s));
  journal_issued :
    Forall (λ r, in_bounds m (request_page r) = true ∧
                 section_id m = Some (request_sectionId r) ∧
                 request_sectionId r ≠ ""%string ∧
                 addressed (href m) (request_page r) (request_url r))
      (issued s);
  journal_in_flight : in_flight s ⊆ issued s;
  journal_suspended :
    Forall (λ w, in_bounds m (page (waiter_page w)) = true ∧
                 addressed (href m) (page (waiter_page w)) (url (waiter_page w)))
      (suspended s);
  journal_history :
    Forall2 (λ u e, addressed (href m) e.1.2 u ∧ in_bounds m e.1.2 = true)
      (history s) (spliced s);
  journal_frames : frame_callbacks s = length (spliced s);
  journal_fetches :
    (length (issued s) + length (idle_callbacks s) + owed
     ≤ 2 + length (spliced s))%nat;
  journal_cached :
    ∀ p, is_Some (pages s !! p) → p ∈ request_page <$> issued s;
  journal_spliced : Forall (λ e, is_Some (pages s !! e.1.2)) (spliced s)
}.

(** The second state keeps all that the first one has: the cards of the
    grid, the cached pages, the history entries, the splices and the
    requests made. *)
Record extends (s s' : state) : Prop := mkExtends {
  extends_element : element s' = element s;
  extends_cards : ∃ before after, cards s' = before ++ cards s ++ after;
  extends_pages : ∀ p, is_Some (pages s !! p) → is_Some (pages s' !! p);
  extends_history : history s `prefix_of` history s';
  extends_spliced : spliced s `prefix_of` spliced s';
  extends_issued : issued s `prefix_of` issued s';
  extends_fresh : (fresh s ≤ fresh s')%nat
}.

(** No render can begin or go on: there is no observer, no render is
    suspended and no idle callback waits. *)
Record unobserved (m : markup) (s : state) : Prop := mkUnobserved {
  unobserved_observer : infinityScrollObserver s = false;
  unobserved_suspended : suspended s = [];
  unobserved_next : resolveNextPagePromise s = None;
  unobserved_previous : resolvePreviousPagePromise s = None;
  unobserved_idle : idle_callbacks s = [];
  unobserved_cards : cards s = served_cards m;
  unobserved_spliced : spliced s = [];
  unobserved_history : history s = [];
  unobserved_issued : (length (issued s) ≤ 2)%nat
}.

(** A direction that holds none of the three: no request in flight, no
    idle callback that will fetch, no cached page ready to be spliced. *)
Definition spent (m : markup) (n : Z) (d : direction) (s : state) : Prop :=
  ∃ lo hi, shape m n lo hi s ∧ (∀ d', tokens lo hi d' s ≤ 1)%nat ∧
           tokens lo hi d s = 0%nat.

(** The fetch [id] ends without cards: it is rejected, or its body is empty
    or has no grid. *)
Definition fruitless (id : nat) (e : event) : Prop :=
  e = FetchFail id ∨ e = FetchDone id Blank ∨ e = FetchDone id NoGrid.

(** The element on page [n] after [k] rounds in which the server answered
    the request for page [n + 1] with a grid without cards: the request for
    that page is in flight once more. *)
Record again (m : markup) (n : Z) (k : nat) (s : state) : Prop := mkAgain {
  again_element : element s = m;
  again_cards : cards s = served_cards m;
  again_observer : infinityScrollObserver s = true;
  again_idle : idle_callbacks s = [];
  again_slot : resolveNextPagePromise s = None;
  again_ids : Forall (λ r, (request_id r < fresh s)%nat) (in_flight s);
  again_request :
    ∃ r, find_request (request_id r) s = Some r ∧
         request_type r = next ∧ request_page r = Int (n + 1);
  again_issued : length (requests_for (Int (n + 1)) (issued s)) = S k;
  again_spliced : spliced s = replicate k (next, Int (n + 1), []);
  again_history : length (history s) = k
}.

(** The pages spliced so far are those next to the served page [n], none
    left out: after it up to [hi] in the order of the appends, before it
    down to [lo] in the order of the prepends. *)
Definition contiguous (n lo hi : Z) (s : state) : Prop :=
  fst <$> appended s = Int <$> seqZ (n + 1) (hi - n) ∧
  fst <$> prepended s = (λ i, Int (n - 1 - i)) <$> seqZ 0 (n - lo).

(** With the first card on page [lo] and the last on page [hi]: the requests
    made so far are for pages on their side of the served page [n], not
    beyond the page their direction goes for next; while a request for that
    page exists no idle callback of the direction waits; and no page was
    asked for twice. *)
Record asked_once (n lo hi : Z) (s : state) : Prop := mkAskedOnce {
  asked_range :
    Forall (λ r, ∃ z, request_page r = Int z ∧
                      match request_type r with
                      | next => n < z ≤ hi + 1
                      | previous => lo - 1 ≤ z < n
                      end) (issued s);
  asked_target :
    ∀ r, r ∈ issued s → request_page r = target lo hi (request_type r) →
         queued (request_type r) s = 0%nat;
  asked_NoDup : NoDup (request_page <$> issued s)
}.

End Journal.

(* ===================================================================== *)
(** ** What a pass over the galleries leaves *)
(* ===================================================================== *)

Module Outcome.

Import Ratio Normalizer.

(** A ratio as [#getSafeImageAspectRatio] writes it for an image that has a
    size: a number of thousandths from 0.100 to 10.000, with three
    decimals. *)
Definition in_range (r : string) : Prop :=
  ∃ n : Z, r = decimal3 n ∧ 100 ≤ n ≤ 10000.

(** The natural sizes of the image of a gallery are DOM [unsigned long]s. *)
Definition unsigned_long (g : gallery) : Prop :=
  ∀ i, img g = Some i →
       (naturalWidth i < 4294967296)%N ∧ (naturalHeight i < 4294967296)%N.

(** Why the adaptive pass leaves a gallery without the marker: it is no
    HTML element, or its image is still loading and a listener of the pass
    waits for it, or its image is complete without a size (broken). *)
Definition waits (p : pass) (g : gallery) : Prop :=
  gallery_is_html g = false ∨
  ∃ i, img g = Some i ∧
       ((complete i = false ∧ node g ∈ listeners p) ∨
        (complete i = true ∧
         (naturalWidth i = 0%N ∨ naturalHeight i = 0%N))).

End Outcome.

(* ===================================================================== *)
(** ** The element connected more than once *)
(* ===================================================================== *)

Module Reconnection.

Import Paginated Contract.

(** What happens to the element after it is first connected: an event of
    the browser, or the element is inserted into a document again and
    [connectedCallback] runs once more, on the element as it is then. *)
Inductive occurrence : Type :=
  | Browser (e : event)
  | Connect.

Definition is_connect (o : occurrence) : bool :=
  match o with
  | Connect => true
  | Browser _ => false
  end.

Section Viewport.

Variable document_top : list card → card → Z.
Variable scroll_after_layout : list card → Z → Z.

(** [connectedCallback] on the element as it is: it reads the ratio
    setting again (the galleries of the pages loaded since are taken to
    carry the setting of the served ones), fetches both directions from the
    cards now in the grid, and creates an observer. *)
Definition occur (s : state) (o : occurrence) : state :=
  match o with
  | Browser e => step document_top scroll_after_layout s e
  | Connect => connectedCallback s
  end.

(** The element first connected, then the occurrences. *)
Definition existence (m : markup) (os : list occurrence) : state :=
  foldl occur (connectedCallback (mount m)) os.

End Viewport.

(** The events of the browser among the occurrences. *)
Definition events_of (os : list occurrence) : list event :=
  omap (λ o, match o with Browser e => Some e | Connect => None end) os.

(** How often the element was connected again. *)
Definition connections (os : list occurrence) : nat :=
  length (filter (λ o, is_connect o = true) os).

(** The element is connected once and never again. *)
Definition connected_once (os : list occurrence) : Prop :=
  Forall (λ o, is_connect o = false) os.

#[global] Instance connected_once_dec (os : list occurrence) :
  Decision (connected_once os).
Proof. unfold connected_once. apply _. Defined.

End Reconnection.
(* ===================================================================== *)
(** ** Facts about the values *)
(* ===================================================================== *)

Module JSFacts.

Lemma searchParams_get_set (name value : string) (ps : list (string * string)) :
  searchParams_get name (searchParams_set name value ps) = Some value.
Proof.
  unfold searchParams_get.
  induction ps as [|[k v] ps IH]; simpl.
  - rewrite filter_cons_True by done. done.
  - destruct (decide (k = name)) as [->|Hk].
    + rewrite filter_cons_True by done. done.
    + rewrite filter_cons_False by (simpl; congruence). exact IH.
Qed.

Lemma js_gt_NaN_l (b : jsnum) : js_gt NaN b = false.
Proof. done. Qed.

Lemma js_lt_NaN_l (b : jsnum) : js_lt NaN b = false.
Proof. done. Qed.

Lemma js_gt_Int (x y : Z) : js_gt (Int x) (Int y) = true ↔ x > y.
Proof. simpl. by rewrite bool_decide_eq_true. Qed.

Lemma js_lt_Int (x y : Z) : js_lt (Int x) (Int y) = true ↔ x < y.
Proof. simpl. by rewrite bool_decide_eq_true. Qed.

(** Adding and subtracting one, against the reference operations of
    binary64: exact on the whole numbers of the safe range, where [js_add]
    and [js_sub] are what the code computes; at 2^53 the one is absorbed. *)
Example safe_range_is_exact :
  Forall (λ z, Contract.safe z ∧
               Ratio.spec_float_value (Ratio.reference_add z 1) =
                 Some (inject_Z (z + 1)) ∧
               Ratio.spec_float_value (Ratio.reference_sub z 1) =
                 Some (inject_Z (z - 1)))
    [ 0; 1; 2; 41; -1; 4503599627370496; 9007199254740990;
      9007199254740991; -9007199254740991 ] ∧
  ¬ Contract.safe 9007199254740992 ∧
  Ratio.spec_float_value (Ratio.reference_add 9007199254740992 1) =
    Some (inject_Z 9007199254740992).
Proof.
  split.
  - repeat (constructor;
            [split; [unfold Contract.safe; lia|split; vm_compute; reflexivity]|]).
    constructor.
  - split; [unfold Contract.safe; lia | vm_compute; reflexivity].
Qed.

(** *** Texts that are no number *)




(** The grammar on some texts: numbers with a fraction, an exponent, a radix
    prefix, a sign or white space around them are numeric, and so are the
    empty and the blank text; words, units, separators and a lone sign or
    prefix are not. *)
Example numeric_texts :
  Forall (λ t, StringNumericLiteral t = true)
    [ ""; "  "; "7"; " 12 "; "-3"; "+4"; "1.5"; "1."; ".5"; "1e3"; "+.5e-3";
      "0x10"; "0B101"; "0o17"; "Infinity"; "-Infinity" ]%string ∧
  Forall (λ t, StringNumericLiteral t = false)
    [ "abc"; "two"; "12px"; "1_000"; "1 2"; "0x"; "-0x10"; "--1"; "+"; ".";
      "e3"; "1e"; "NaN"; "infinity"; "1,5"; "0b102" ]%string.
Proof. split; repeat (constructor; [reflexivity|]); constructor. Qed.

End JSFacts.

(* ===================================================================== *)
(** ** The guards of the component *)
(* ===================================================================== *)

Module Guards.

Import Paginated Contract JSFacts.

Section WithViewport.

Variable document_top : list card → card → Z.
Variable scroll_after_layout : list card → Z → Z.

Local Abbreviation renderPage := (renderPage document_top scroll_after_layout).
Local Abbreviation step := (step document_top scroll_after_layout).

Lemma getPage_Some (s : state) (type : direction) (target : card) :
  targetCard s type = Some target →
  getPage s type =
    Some (mkPage
            (if bool_decide (type = previous)
             then js_sub (card_page target) (Int 1)
             else js_add (card_page target) (Int 1))
            (mkURL (url_base (location s))
               (searchParams_set "page"
                  (toString (if bool_decide (type = previous)
                             then js_sub (card_page target) (Int 1)
                             else js_add (card_page target) (Int 1)))
                  (url_search (location s)))
               "")).
Proof.
  intros Ht. unfold getPage. rewrite Ht.
  destruct (cards s) eqn:Hc; [|done].
  unfold targetCard in Ht. rewrite Hc in Ht. by case_bool_decide.
Qed.

(** The guard in the words of the specification, for a numeric bound. *)
Lemma shouldUsePage_spec (s : state) (p : pageinfo) (L : Z) :
  getLastPage s = Int L →
  shouldUsePage s (Some p) = true ↔
    page p = NaN ∨ ∃ n, page p = Int n ∧ 1 ≤ n ≤ L.
Proof.
  intros HL. unfold shouldUsePage. rewrite HL.
  destruct (page p) as [|n]; simpl.
  - split; [by left | done].
  - destruct (bool_decide_reflect (n > L)), (bool_decide_reflect (n < 1));
      simpl; split; try done; try (intros [|(k & [= <-] & ?)]; [done | lia]).
    intros _. right. exists n. split; [done | lia].
Qed.

(** C4: when the page descriptor computed for a direction lies below 1 or
    above the last page published by the grid, the guard rejects it, and
    [#fetchPage] and the render of that direction (also when reached from an
    intersection) return the state as it was: no request, no splice, no
    history entry, no waiter. *)
Theorem C4_out_of_range_is_noop (s : state) (type : direction) (p : pageinfo) :
  getPage s type = Some p →
  js_lt (page p) (Int 1) = true ∨ js_gt (page p) (getLastPage s) = true →
  shouldUsePage s (Some p) = false ∧
  fetchPage type s = s ∧
  renderPage type s = s ∧
  ∀ b, step s (Intersect type b) = s.
Proof.
  intros Hp Hout.
  assert (Hguard : shouldUsePage s (Some p) = false).
  { unfold shouldUsePage. destruct Hout as [-> | ->]; by rewrite ?orb_true_r. }
  assert (Hrender : renderPage type s = s).
  { unfold Paginated.renderPage. rewrite Hp, Hguard. simpl.
    by destruct (grid_last_page (element s)). }
  split_and!; [done | | done |].
  - unfold fetchPage. by rewrite Hp, Hguard.
  - intros b. simpl. rewrite Hrender. by destruct (_ && _).
Qed.


(** A suspended or direct render of the previous page is [prepend_page]. *)
Lemma renderPreviousPage_prepends (s : state) (p : pageinfo) (els : list card) :
  grid_last_page (element s) ≠ None →
  getPage s previous = Some p →
  shouldUsePage s (Some p) = true →
  getGridForPage s (page p) = Some els →
  renderPreviousPage document_top scroll_after_layout s =
    prepend_page document_top scroll_after_layout p els s.
Proof.
  intros Hg Hp Hu Hc. unfold renderPreviousPage, Paginated.renderPage.
  destruct (grid_last_page (element s)); [|done].
  by rewrite Hp, Hu, Hc.
Qed.

(** C5: a render of the previous page that prepends cards leaves the window
    at the old scroll offset plus the distance by which the card that was
    first has moved down the document, whatever the browser did to the
    offset while laying out the insertion; that card keeps its place in the
    viewport.  Both the render that found the page cached and the one resumed
    after waiting prepend this way. *)
Theorem C5_prepend_compensates_scroll (s : state) (p : pageinfo)
    (els : list card) (first : card) :
  head (cards s) = Some first →
  let s' := prepend_page document_top scroll_after_layout p els s in
  (cards s' = els ++ cards s ∧
   scrollY s' =
     scrollY s +
     (document_top (els ++ cards s) first - document_top (cards s) first) ∧
   client_top document_top s' first = client_top document_top s first) ∧
  (grid_last_page (element s) ≠ None →
   getPage s previous = Some p →
   shouldUsePage s (Some p) = true →
   getGridForPage s (page p) = Some els →
   renderPreviousPage document_top scroll_after_layout s = s') ∧
  (∀ w, waiter_type w = previous → waiter_page w = p →
        getGridForPage s (page p) = Some els →
        resume document_top scroll_after_layout w s = s').
Proof.
  intros Hfirst s'. split; [|split].
  - subst s'. unfold prepend_page, client_top. rewrite Hfirst. simpl.
    split; [done|]. split; lia.
  - apply renderPreviousPage_prepends.
  - intros w Hw <- Hc. unfold resume. by rewrite Hc, Hw.
Qed.

(** C9, as the code has it: reading [sectionId] without the attribute
    throws, and a [#fetchPage] that has a usable page rejects with that error
    instead of asking for the section.  A missing ref throws nowhere: without
    the grid the last page reads 0 and the renders return at once, without a
    sentinel no observer is created, without cards there is no page to
    compute and nothing is fetched or rendered. *)
Theorem C9_section_id_throws_refs_return (s : state) :
  (section_id (element s) = None →
   sectionId s = Throw "The section-id attribute is required" ∧
   ∀ type p, getPage s type = Some p → shouldUsePage s (Some p) = true →
     fetchPage type s =
       set_rejections
         (rejections s ++ ["The section-id attribute is required"%string]) s) ∧
  (grid_last_page (element s) = None →
   getLastPage s = Int 0 ∧ ∀ type, renderPage type s = s) ∧
  (viewMorePrevious (element s) = false ∨ viewMoreNext (element s) = false →
   observeViewMore s = s) ∧
  (cards s = [] →
   ∀ type, getPage s type = None ∧ fetchPage type s = s ∧ renderPage type s = s).
Proof.
  split_and!.
  - intros Hid. unfold sectionId. rewrite Hid. split; [done|].
    intros type p Hp Hu. unfold fetchPage, sectionId. by rewrite Hp, Hu, Hid.
  - intros Hg. unfold getLastPage, Paginated.renderPage. by rewrite Hg.
  - intros [H|H]; unfold observeViewMore; rewrite H; by rewrite ?orb_true_r.
  - intros Hc type. unfold fetchPage, Paginated.renderPage, getPage.
    rewrite Hc. by destruct (grid_last_page (element s)).
Qed.

End WithViewport.

Import Sample.

Lemma C4_out_of_range_witness :
  let s := mount page3of3 in
  let p := mkPage (Int 4)
             (mkURL "https://shop.example/collections/all"
                [("page", "4")]%string "") in
  shouldUsePage s (Some p) = false ∧
  fetchPage next s = s ∧
  renderPage column unanchored next s = s ∧
  ∀ b, step column unanchored s (Intersect next b) = s.
Proof.
  intros s p.
  apply (C4_out_of_range_is_noop column unanchored s next p).
  - reflexivity.
  - right. reflexivity.
Defined.


(** The same for a card whose page attribute is a word. *)
Example worded_page_is_NaN :
  let s := mount worded in
  (page <$> getPage s next) = Some NaN ∧
  (page <$> getPage s previous) = Some NaN ∧
  (length (in_flight (fetchPage previous (fetchPage next s))) = 2)%nat.
Proof. by split_and!. Qed.


Lemma C5_prepend_witness :
  let s := set_scrollY 40
             (set_pages {[ Int 1 := GridOf cards_of_page1 ]} (mount page2of3)) in
  let p := mkPage (Int 1)
             (mkURL "https://shop.example/collections/all"
                [("page", "1")]%string "") in
  let s' := prepend_page column anchored p cards_of_page1 s in
  (cards s' = cards_of_page1 ++ cards s ∧
   scrollY s' =
     scrollY s +
     (column (cards_of_page1 ++ cards s) (on_page "2" "c")
      - column (cards s) (on_page "2" "c")) ∧
   client_top column s' (on_page "2" "c") = client_top column s (on_page "2" "c")) ∧
  (grid_last_page (element s) ≠ None →
   getPage s previous = Some p →
   shouldUsePage s (Some p) = true →
   getGridForPage s (page p) = Some cards_of_page1 →
   renderPreviousPage column anchored s = s') ∧
  (∀ w, waiter_type w = previous → waiter_page w = p →
        getGridForPage s (page p) = Some cards_of_page1 →
        resume column anchored w s = s').
Proof.
  intros s p.
  apply (C5_prepend_compensates_scroll column anchored s p cards_of_page1
           (on_page "2" "c")).
  reflexivity.
Defined.

(** The scroll offset of the sample prepend: 40 before, two cards of 100
    pixels inserted, 240 after. *)
Example sample_prepend_scroll :
  scrollY (renderPreviousPage column anchored
             (set_scrollY 40
                (set_pages {[ Int 1 := GridOf cards_of_page1 ]}
                   (mount page2of3)))) = 240.
Proof. reflexivity. Qed.

(** C9 as stated fails: with the grid ref missing the element connects
    without an error, creates its observer, fetches nothing, and every
    intersection returns silently. *)
Lemma C9_missing_grid_is_silent :
  let s := lifetime column unanchored without_grid [] in
  configuration_error without_grid ∧
  rejections s = [] ∧
  infinityScrollObserver s = true ∧
  in_flight s = [] ∧
  step column unanchored s (Intersect next true) = s ∧
  step column unanchored s (Intersect previous true) = s.
Proof.
  split_and!; try reflexivity. right; left; reflexivity.
Qed.

(** With the section id missing, the first fetch is rejected with the error
    of the getter. *)
Example missing_section_id_rejects :
  rejections (lifetime column unanchored without_section_id []) =
    [ "The section-id attribute is required";
      "The section-id attribute is required" ]%string ∧
  in_flight (lifetime column unanchored without_section_id []) = [].
Proof. split; reflexivity. Qed.

End Guards.


(* ===================================================================== *)
(** ** The aspect-ratio passes *)
(* ===================================================================== *)

Module NormalizerFacts.

Import Normalizer.

#[local] Arguments truthy : simpl never.
#[local] Arguments cache_has : simpl never.

(** What [#applyAspectRatioToGallery] leaves on an HTML gallery. *)
Lemma applyAspectRatioToGallery_html (g : gallery) (r : string) :
  gallery_is_html g = true →
  let g' := applyAspectRatioToGallery g r in
  node g' = node g ∧
  gallery_aspect_ratio g' = Some r ∧
  data_aspect_ratio_applied g' = Some "true"%string ∧
  mediaContainers g' = set_container r <$> mediaContainers g ∧
  Forall (λ c, container_is_html c = true → style_aspectRatio c = Some r)
    (mediaContainers g').
Proof.
  intros Hh. unfold applyAspectRatioToGallery, markAsProcessed. simpl.
  rewrite Hh. simpl. split_and!; try done.
  apply Forall_fmap, Forall_forall. intros c _. simpl.
  unfold set_container.
  destruct (container_is_html c) eqn:Hc; simpl; [done | congruence].
Qed.



(** *** The adaptive loop *)

Lemma adaptive_forEach_app (l1 l2 : list gallery) (p : pass) :
  adaptive_forEach (l1 ++ l2) p =
    let '(r1, p1) := adaptive_forEach l1 p in
    let '(r2, p2) := adaptive_forEach l2 p1 in
    (r1 ++ r2, p2).
Proof.
  revert p. induction l1 as [|g l1 IH]; intros p; simpl.
  - by destruct (adaptive_forEach l2 p).
  - destruct (if unprocessed g then adaptive_body g p else (g, p)) as [g' p'].
    rewrite IH. destruct (adaptive_forEach l1 p') as [r1 p1].
    by destruct (adaptive_forEach l2 p1).
Qed.

Lemma adaptive_forEach_length (l : list gallery) (p : pass) :
  length (adaptive_forEach l p).1 = length l.
Proof.
  revert p. induction l as [|g l IH]; intros p; simpl; [done|].
  destruct (if unprocessed g then adaptive_body g p else (g, p)) as [g' p'].
  specialize (IH p'). destruct (adaptive_forEach l p'). simpl in *. by rewrite IH.
Qed.

Lemma adaptive_forEach_middle (l1 l2 : list gallery) (g : gallery) (p : pass) :
  unprocessed g = true →
  adaptive_forEach (l1 ++ g :: l2) p =
    let a := adaptive_forEach l1 p in
    let b := adaptive_body g a.2 in
    let c := adaptive_forEach l2 b.2 in
    (a.1 ++ b.1 :: c.1, c.2).
Proof.
  intros Hu. rewrite adaptive_forEach_app. simpl. rewrite Hu.
  destruct (adaptive_forEach l1 p) as [r1 p1]. simpl.
  destruct (adaptive_body g p1) as [g' p']. simpl.
  by destruct (adaptive_forEach l2 p').
Qed.

(** One gallery: only its own node can be added to the galleries computed
    for, and a ratio in the cache is not replaced. *)
Lemma adaptive_body_computed (g : gallery) (p : pass) (n : nat) :
  n ∈ computed (adaptive_body g p).2 → n ∈ computed p ∨ n = node g.
Proof.
  unfold adaptive_body.
  destruct (gallery_is_html g); simpl; [|by eauto].
  destruct (cache_has (data_product_id g) p); simpl; [by eauto|].
  destruct (img g) as [i|]; simpl; [|by eauto].
  destruct (complete i); simpl; [|by eauto].
  unfold loadAndSetRatio. destruct (_ || _); simpl; [by eauto|].
  intros [Hn|Hn]%elem_of_app; [by left | right].
  by apply list_elem_of_singleton in Hn.
Qed.

Lemma adaptive_body_cache (g : gallery) (p : pass) (k r : string) :
  productRatioCache p !! k = Some r →
  productRatioCache (adaptive_body g p).2 !! k = Some r.
Proof.
  intros Hk. unfold adaptive_body.
  destruct (gallery_is_html g); simpl; [|done].
  destruct (cache_has (data_product_id g) p) as [r'|] eqn:Hc; simpl; [done|].
  destruct (img g) as [i|]; simpl; [|done].
  destruct (complete i); simpl; [|done].
  unfold loadAndSetRatio. destruct (_ || _); simpl; [done|].
  destruct (data_product_id g) as [k'|] eqn:Hid; [|done].
  destruct (truthy (Some k')) eqn:Ht; [|done].
  destruct (decide (k' = k)) as [->|Hne].
  - unfold cache_has in Hc. rewrite Ht in Hc. congruence.
  - by rewrite lookup_insert_ne.
Qed.

Lemma adaptive_forEach_computed (l : list gallery) (p : pass) (n : nat) :
  n ∈ computed (adaptive_forEach l p).2 → n ∈ computed p ∨ n ∈ node <$> l.
Proof.
  revert p. induction l as [|g l IH]; intros p; simpl; [by eauto|].
  rewrite elem_of_cons.
  destruct (unprocessed g).
  - pose proof (adaptive_body_computed g p n) as Hb.
    destruct (adaptive_body g p) as [g' p']. simpl in *.
    specialize (IH p'). destruct (adaptive_forEach l p') as [rest p''].
    simpl in *. intros Hn. destruct (IH Hn) as [Hn'|Hn']; [|by eauto].
    destruct (Hb Hn'); by eauto.
  - specialize (IH p). destruct (adaptive_forEach l p) as [rest p''].
    simpl in *. intros Hn. destruct (IH Hn); by eauto.
Qed.

Lemma adaptive_forEach_cache (l : list gallery) (p : pass) (k r : string) :
  productRatioCache p !! k = Some r →
  productRatioCache (adaptive_forEach l p).2 !! k = Some r.
Proof.
  revert p. induction l as [|g l IH]; intros p Hk; simpl; [done|].
  destruct (unprocessed g).
  - pose proof (adaptive_body_cache g p k r Hk) as Hk'.
    destruct (adaptive_body g p) as [g' p']. simpl in *.
    specialize (IH p' Hk'). by destruct (adaptive_forEach l p').
  - specialize (IH p Hk). by destruct (adaptive_forEach l p).
Qed.

(** The first gallery of a product whose image has loaded: it gets a ratio,
    and the cache holds that ratio afterwards. *)
Lemma adaptive_body_loaded (g : gallery) (p : pass) (k : string) (im : image) :
  gallery_is_html g = true →
  data_product_id g = Some k → k ≠ ""%string →
  img g = Some im → complete im = true →
  naturalWidth im ≠ 0%N → naturalHeight im ≠ 0%N →
  ∃ r, gallery_aspect_ratio (adaptive_body g p).1 = Some r ∧
       productRatioCache (adaptive_body g p).2 !! k = Some r.
Proof.
  intros Hh Hid Hk Him Hc Hw Hhgt.
  assert (Ht : truthy (Some k) = true).
  { unfold truthy. by apply negb_true_iff, String.eqb_neq. }
  unfold adaptive_body. rewrite Hh, Hid. simpl.
  unfold cache_has. rewrite Ht.
  destruct (productRatioCache p !! k) as [r|] eqn:Hp.
  - exists r. split; [|done].
    by destruct (applyAspectRatioToGallery_html g r Hh) as (_ & ? & _).
  - rewrite Him, Hc. unfold loadAndSetRatio.
    rewrite (proj2 (N.eqb_neq _ _) Hw), (proj2 (N.eqb_neq _ _) Hhgt). simpl.
    eexists. split.
    + by destruct (applyAspectRatioToGallery_html g
        (Ratio.getSafeImageAspectRatio (naturalWidth im) (naturalHeight im)) Hh)
        as (_ & ? & _).
    + rewrite Hid, Ht. simpl. apply lookup_insert_eq.
Qed.

(** A later gallery of the product reads the cache and computes nothing. *)
Lemma adaptive_body_hit (g : gallery) (p : pass) (k r : string) :
  gallery_is_html g = true →
  data_product_id g = Some k → k ≠ ""%string →
  productRatioCache p !! k = Some r →
  adaptive_body g p = (applyAspectRatioToGallery g r, p).
Proof.
  intros Hh Hid Hk Hp.
  assert (Ht : truthy (Some k) = true).
  { unfold truthy. by apply negb_true_iff, String.eqb_neq. }
  unfold adaptive_body. rewrite Hh, Hid. simpl.
  unfold cache_has. by rewrite Ht, Hp.
Qed.

(** C8, as the code has it: of two galleries of one pass that carry the
    same product id, when the image of the one that comes first in the
    document has loaded (complete, natural size not zero) by the time the
    pass runs, both get the same ratio string, the cache of the pass holds it
    under the product id, and the pass does not call
    [#getSafeImageAspectRatio] for the later gallery: it reads the cache. *)
Theorem C8_loaded_first_gallery_shares_ratio
    (l1 l2 l3 : list gallery) (gi gj : gallery) (k : string) (im : image) :
  NoDup (node <$> l1 ++ gi :: l2 ++ gj :: l3) →
  unprocessed gi = true → unprocessed gj = true →
  gallery_is_html gi = true → gallery_is_html gj = true →
  data_product_id gi = Some k → data_product_id gj = Some k → k ≠ ""%string →
  img gi = Some im → complete im = true →
  naturalWidth im ≠ 0%N → naturalHeight im ≠ 0%N →
  let done := fixAdaptiveAspectRatios (l1 ++ gi :: l2 ++ gj :: l3) in
  ∃ r gi' gj',
    done.1 !! length l1 = Some gi' ∧
    done.1 !! (length l1 + S (length l2))%nat = Some gj' ∧
    gallery_aspect_ratio gi' = Some r ∧
    gallery_aspect_ratio gj' = Some r ∧
    productRatioCache done.2 !! k = Some r ∧
    node gj ∉ computed done.2.
Proof.
  intros Hnd Hui Huj Hhi Hhj Hidi Hidj Hk Him Hc Hw Hh. simpl.
  unfold fixAdaptiveAspectRatios.
  set (p0 := mkPass ∅ [] []).
  rewrite (adaptive_forEach_middle l1 _ gi p0 Hui). simpl.
  rewrite (adaptive_forEach_middle l2 _ gj _ Huj). simpl.
  pose proof (adaptive_forEach_length l1 p0) as Hlen1.
  pose proof (adaptive_forEach_computed l1 p0) as Hcomp1.
  set (a := adaptive_forEach l1 p0) in *.
  destruct (adaptive_body_loaded gi a.2 k im Hhi Hidi Hk Him Hc Hw Hh)
    as (r & Hri & Hci).
  pose proof (adaptive_body_computed gi a.2) as Hcompi.
  set (b := adaptive_body gi a.2) in *.
  pose proof (adaptive_forEach_length l2 b.2) as Hlen2.
  pose proof (adaptive_forEach_computed l2 b.2) as Hcomp2.
  pose proof (adaptive_forEach_cache l2 b.2 k r Hci) as Hc2.
  set (c := adaptive_forEach l2 b.2) in *.
  rewrite (adaptive_body_hit gj c.2 k r Hhj Hidj Hk Hc2). simpl.
  pose proof (adaptive_forEach_computed l3 c.2) as Hcomp3.
  pose proof (adaptive_forEach_cache l3 c.2 k r Hc2) as Hc3.
  set (d := adaptive_forEach l3 c.2) in *.
  exists r, b.1, (applyAspectRatioToGallery gj r).
  split_and!.
  - rewrite <- Hlen1. by rewrite list_lookup_middle.
  - rewrite <- Hlen1, <- Hlen2.
    rewrite lookup_app_r by lia.
    replace (length a.1 + S (length c.1) - length a.1)%nat
      with (S (length c.1)) by lia.
    simpl. by rewrite list_lookup_middle.
  - done.
  - by destruct (applyAspectRatioToGallery_html gj r Hhj) as (_ & ? & _).
  - done.
  - intros Hin.
    rewrite fmap_app, fmap_cons, fmap_app, fmap_cons in Hnd.
    apply NoDup_app in Hnd as (_ & Hd1 & Hnd).
    apply NoDup_cons in Hnd as (Hdi & Hnd).
    apply NoDup_app in Hnd as (_ & Hd2 & Hnd).
    apply NoDup_cons in Hnd as (Hd3 & _).
    destruct (Hcomp3 _ Hin) as [Hin2|Hin3]; [|done].
    destruct (Hcomp2 _ Hin2) as [Hini|Hin2'].
    + destruct (Hcompi _ Hini) as [Hin1|Heq].
      * destruct (Hcomp1 _ Hin1) as [Hin0|Hin1'].
        -- by apply elem_of_nil in Hin0.
        -- apply (Hd1 _ Hin1'). rewrite elem_of_cons, elem_of_app, elem_of_cons.
           by eauto.
      * apply Hdi. rewrite elem_of_app, elem_of_cons. by eauto.
    + apply (Hd2 _ Hin2'). rewrite elem_of_cons. by eauto.
Qed.

Import Ratio Sample.

Lemma C8_loaded_first_gallery_witness :
  let dom := [] ++ mkGallery 1 true None (Some "42"%string)
                     (Some (mkImage true 1600 900)) None [mkContainer true None]
                :: [] ++ loading 2 100 2000 :: [] in
  let done := fixAdaptiveAspectRatios dom in
  ∃ r gi' gj',
    done.1 !! 0%nat = Some gi' ∧
    done.1 !! 1%nat = Some gj' ∧
    gallery_aspect_ratio gi' = Some r ∧
    gallery_aspect_ratio gj' = Some r ∧
    productRatioCache done.2 !! "42"%string = Some r ∧
    2%nat ∉ computed done.2.
Proof.
  intros dom.
  apply (C8_loaded_first_gallery_shares_ratio [] [] []
           (mkGallery 1 true None (Some "42"%string)
              (Some (mkImage true 1600 900)) None [mkContainer true None])
           (loading 2 100 2000) "42"%string (mkImage true 1600 900));
    try reflexivity; try discriminate.
  refine (bool_decide_unpack _ _). vm_compute. exact I.
Defined.

(** C8 as stated fails when the images have not loaded by the time the pass
    runs, which is the usual case for cards that were just inserted: the
    pass caches nothing and leaves two listeners; when the images load, each
    gallery gets a ratio computed from its own image, so the ratio is
    computed twice, and the two strings differ when the images do. *)
Lemma C8_loading_images_compute_twice :
  let dom := [loading 1 1600 900; loading 2 100 2000] in
  let '(dom1, p1) := fixAdaptiveAspectRatios dom in
  let '(dom2, p2) := on_load 1 dom1 p1 in
  let '(dom3, p3) := on_load 2 dom2 p2 in
  data_product_id <$> dom = [Some "42"; Some "42"]%string ∧
  gallery_aspect_ratio <$> dom1 = [None; None] ∧
  computed p1 = [] ∧ listeners p1 = [1; 2]%nat ∧
  gallery_aspect_ratio <$> dom3 = [Some "1.778"; Some "0.100"]%string ∧
  computed p3 = [1; 2]%nat.
Proof. vm_compute. by repeat split. Qed.

(** The same with equal images: equal strings, still computed twice. *)
Example loading_equal_images_compute_twice :
  let dom := [loading 1 1600 900; loading 2 1600 900] in
  let '(dom1, p1) := fixAdaptiveAspectRatios dom in
  let '(dom2, p2) := on_load 1 dom1 p1 in
  let '(dom3, p3) := on_load 2 dom2 p2 in
  gallery_aspect_ratio <$> dom3 = [Some "1.778"; Some "1.778"]%string ∧
  computed p3 = [1; 2]%nat.
Proof. vm_compute. by repeat split. Qed.

(** A first gallery without an image gets the default, which is not cached. *)
Example default_ratio_is_not_cached :
  let dom := [mkGallery 1 true None (Some "42"%string) None None [];
              mkGallery 2 true None (Some "42"%string)
                (Some (mkImage true 1600 900)) None []] in
  gallery_aspect_ratio <$> (fixAdaptiveAspectRatios dom).1 =
    [Some "1"; Some "1.778"]%string.
Proof. vm_compute. reflexivity. Qed.


End NormalizerFacts.

(* ===================================================================== *)
(** ** The ratio of an image *)
(* ===================================================================== *)

Module RatioFacts.

Import Ratio.

Local Open Scope Q_scope.

Lemma round_half_even_near (x : Q) :
  inject_Z (round_half_even x) - (1 # 2) <= x ∧
  x <= inject_Z (round_half_even x) + (1 # 2).
Proof.
  unfold round_half_even.
  pose proof (Qfloor_le x) as Hlo. pose proof (Qlt_floor x) as Hhi.
  rewrite inject_Z_plus in Hhi. change (inject_Z 1) with 1 in Hhi.
  destruct (Qcompare_spec (x - inject_Z (Qfloor x)) (1 # 2)) as [He|Hl|Hg];
    [destruct (Z.even (Qfloor x))|..];
    rewrite ?inject_Z_plus; change (inject_Z 1) with 1; split; lra.
Qed.

Lemma pow2_pos (e : Z) : 0 < pow2 e.
Proof. apply Qpower_0_lt. reflexivity. Qed.

Lemma pow2_nonneg_exponent (e : Z) : (0 <= e)%Z → pow2 e == inject_Z (2 ^ e).
Proof. intros He. unfold pow2. by rewrite Zpower_Qpower. Qed.

Lemma ilog2_le (q : Q) : 0 < q → pow2 (ilog2 q) <= q.
Proof.
  intros Hq. unfold ilog2.
  destruct (Qle_bool _ q) eqn:Hb; [by apply Qle_bool_iff|].
  destruct q as [n d]. cbn [Qnum Qden].
  assert (Hn : (0 < n)%Z) by (unfold Qlt in Hq; simpl in Hq; lia).
  pose proof (Z.log2_spec n Hn) as [Hn1 _].
  pose proof (Z.log2_spec (Z.pos d) (Pos2Z.is_pos d)) as [_ Hd2].
  pose proof (Z.log2_nonneg n) as Hln.
  pose proof (Z.log2_nonneg (Z.pos d)) as Hld.
  replace (Z.log2 n - Z.log2 (Z.pos d) - 1)%Z
    with (Z.log2 n - Z.succ (Z.log2 (Z.pos d)))%Z by lia.
  unfold pow2. rewrite Qpower_minus by done.
  fold (pow2 (Z.log2 n)). fold (pow2 (Z.succ (Z.log2 (Z.pos d)))).
  rewrite !pow2_nonneg_exponent by lia.
  rewrite (Qmake_Qdiv n d).
  assert (Hpd : 0 < inject_Z (Z.pos d)) by reflexivity.
  assert (Hpb : 0 < inject_Z (2 ^ Z.succ (Z.log2 (Z.pos d)))).
  { change 0 with (inject_Z 0). rewrite <- Zlt_Qlt. lia. }
  apply Qle_shift_div_r; [done|].
  unfold Qdiv. rewrite <- Qmult_assoc, (Qmult_comm (/ _)), Qmult_assoc.
  apply Qle_shift_div_l; [done|].
  rewrite <- !inject_Z_mult, <- Zle_Qle. nia.
Qed.

(** The relative error of rounding to 53 bits. *)
Lemma round53_near (q : Q) :
  0 < q →
  q - q * (1 # 9007199254740992) <= round53 q ∧
  round53 q <= q + q * (1 # 9007199254740992).
Proof.
  intros Hq. unfold round53. rewrite Qred_correct.
  set (e := (ilog2 q - 52)%Z).
  pose proof (pow2_pos e) as HP.
  pose proof (round_half_even_near (q / pow2 e)) as [Hlo Hhi].
  set (m := inject_Z (round_half_even (q / pow2 e))) in *.
  assert (Hx : q == q / pow2 e * pow2 e) by (field; lra).
  assert (Hscale : pow2 e * 4503599627370496 <= q).
  { pose proof (ilog2_le q Hq) as Hl.
    replace (ilog2 q) with (e + 52)%Z in Hl by (unfold e; lia).
    unfold pow2 in Hl. rewrite Qpower_plus in Hl by done.
    change (2 ^ 52) with (4503599627370496 : Q) in Hl. exact Hl. }
  set (x := q / pow2 e) in *. set (P := pow2 e) in *.
  split; nra.
Qed.

(** Between a half-way point of the thousandths and a quotient with a
    denominator below 2^32 that is not on it, there is room. *)
Lemma gap_above (a n : Z) (p : positive) :
  (Z.pos p < 4294967296)%Z →
  inject_Z n + (1 # 2) < 1000 * (a # p) →
  inject_Z n + (1 # 2) + (1 # 8589934592) <= 1000 * (a # p).
Proof.
  intros Hp. unfold Qlt, Qle, Qplus, Qmult, inject_Z. cbn [Qnum Qden].
  rewrite ?Pos2Z.inj_mul. nia.
Qed.

Lemma gap_below (a n : Z) (p : positive) :
  (Z.pos p < 4294967296)%Z →
  1000 * (a # p) < inject_Z n - (1 # 2) →
  1000 * (a # p) + (1 # 8589934592) <= inject_Z n - (1 # 2).
Proof.
  intros Hp. unfold Qlt, Qle, Qminus, Qplus, Qopp, Qmult, inject_Z.
  cbn [Qnum Qden]. rewrite ?Pos2Z.inj_mul. nia.
Qed.

Lemma Qle_bool_false (x y : Q) : Qle_bool x y = false → y < x.
Proof.
  intros Hb. apply Qnot_le_lt. intros Hle.
  apply Qle_bool_iff in Hle. congruence.
Qed.

Lemma floor_between (x : Q) (lo hi : Z) :
  inject_Z lo <= x → x < inject_Z hi + 1 → (lo ≤ Qfloor x ≤ hi)%Z.
Proof.
  intros Hlo Hhi. pose proof (Qfloor_le x) as H1. pose proof (Qlt_floor x) as H2.
  rewrite inject_Z_plus in H2. change (inject_Z 1) with 1 in H2.
  split.
  - rewrite <- (Qfloor_Z lo). by apply Qfloor_resp_le.
  - assert (H3 : inject_Z (Qfloor x) < inject_Z (hi + 1)).
    { rewrite inject_Z_plus. change (inject_Z 1) with 1. lra. }
    rewrite <- Zlt_Qlt in H3. lia.
Qed.

(** The clamped and rounded value against the exact clamped quotient. *)
Lemma clamped_thousandths (a : Z) (p : positive) (d : Q) :
  (0 < a)%Z → (Z.pos p < 4294967296)%Z →
  (a # p) - (a # p) * (1 # 9007199254740992) <= d →
  d <= (a # p) + (a # p) * (1 # 9007199254740992) →
  let lower := if Qle_bool ten d then ten else d in
  let c := if Qle_bool lower tenth then tenth else lower in
  let n := toFixed3_n c in
  (100 ≤ n ≤ 10000)%Z ∧
  Qabs (inject_Z n / 1000 - Qmax (1 # 10) (Qmin 10 (a # p))) <= 1 # 2000.
Proof.
  intros Ha Hp Hlo Hhi. set (q := a # p) in *.
  assert (Hq : 0 < q) by (unfold q, Qlt; simpl; lia).
  intros lower c n. subst lower. unfold ten, tenth in *.
  destruct (Qle_bool 10 d) eqn:H10.
  - (* the rounded quotient is 10 or more *)
    apply Qle_bool_iff in H10.
    assert (Hn : n = 10000%Z) by (subst n c; reflexivity).
    rewrite Hn. split; [lia|].
    setoid_replace (inject_Z 10000 / 1000) with 10 using relation Qeq by reflexivity.
    apply Qabs_Qle_condition.
    destruct (Q.max_spec (1 # 10) (Qmin 10 q)) as [[? Hx]|[? Hx]];
      destruct (Q.min_spec 10 q) as [[? Hm]|[? Hm]]; rewrite ?Hm in *;
      rewrite Hx; split; lra.
  - apply Qle_bool_false in H10.
    destruct (Qle_bool d _) eqn:Ht; subst c.
    + (* the rounded quotient is the tenth or less *)
      apply Qle_bool_iff in Ht.
      assert (Hn : n = 100%Z) by (subst n; reflexivity).
      rewrite Hn. split; [lia|].
      setoid_replace (inject_Z 100 / 1000) with (1 # 10) using relation Qeq by reflexivity.
      apply Qabs_Qle_condition.
      destruct (Q.max_spec (1 # 10) (Qmin 10 q)) as [[? Hx]|[? Hx]];
        destruct (Q.min_spec 10 q) as [[? Hm]|[? Hm]]; rewrite ?Hm in *;
        rewrite Hx; split; lra.
    + (* in between: the rounded quotient itself is written *)
      apply Qle_bool_false in Ht.
      pose proof (Qfloor_le (d * 1000 + (1 # 2))) as Hf1.
      pose proof (Qlt_floor (d * 1000 + (1 # 2))) as Hf2.
      rewrite inject_Z_plus in Hf2. change (inject_Z 1) with 1 in Hf2.
      fold (toFixed3_n d) in Hf1, Hf2. fold n in Hf1, Hf2.
      assert (Hrange : (100 ≤ n ≤ 10000)%Z).
      { apply floor_between; cbv [inject_Z]; lra. }
      split; [done|].
      apply Qabs_Qle_condition.
      destruct (Qlt_le_dec q (1 # 10)) as [Hsmall|Hge].
      { (* the exact quotient is just below a tenth *)
        assert (Hn : n = 100%Z).
        { assert (n ≤ 100)%Z; [|lia].
          apply (floor_between (d * 1000 + (1 # 2)) 100 100); cbv [inject_Z]; lra. }
        rewrite Hn.
        setoid_replace (inject_Z 100 / 1000) with (1 # 10) using relation Qeq by reflexivity.
        destruct (Q.max_spec (1 # 10) (Qmin 10 q)) as [[? Hx]|[? Hx]];
          destruct (Q.min_spec 10 q) as [[? Hm]|[? Hm]]; rewrite ?Hm in *;
          rewrite Hx; split; lra. }
      destruct (Qlt_le_dec 10 q) as [Hbig|Hle].
      { (* the exact quotient is just above 10 *)
        assert (Hn : n = 10000%Z).
        { assert (10000 ≤ n)%Z; [|lia].
          apply (floor_between (d * 1000 + (1 # 2)) 10000 10000);
            cbv [inject_Z]; lra. }
        rewrite Hn.
        setoid_replace (inject_Z 10000 / 1000) with 10 using relation Qeq by reflexivity.
        destruct (Q.max_spec (1 # 10) (Qmin 10 q)) as [[? Hx]|[? Hx]];
          destruct (Q.min_spec 10 q) as [[? Hm]|[? Hm]]; rewrite ?Hm in *;
          rewrite Hx; split; lra. }
      assert (Hexact : Qmax (1 # 10) (Qmin 10 q) == q).
      { destruct (Q.max_spec (1 # 10) (Qmin 10 q)) as [[? Hx]|[? Hx]];
          destruct (Q.min_spec 10 q) as [[? Hm]|[? Hm]]; rewrite ?Hm in *;
          rewrite Hx; lra. }
      rewrite Hexact.
      change (inject_Z n / 1000) with (inject_Z n * (1 # 1000)).
      assert (Hup : 1000 * q <= inject_Z n + (1 # 2)).
      { destruct (Qlt_le_dec (inject_Z n + (1 # 2)) (1000 * q)) as [Hc|]; [|done].
        pose proof (gap_above a n p Hp Hc) as Hg. fold q in Hg. lra. }
      assert (Hdown : inject_Z n - (1 # 2) <= 1000 * q).
      { destruct (Qlt_le_dec (1000 * q) (inject_Z n - (1 # 2))) as [Hc|]; [|done].
        pose proof (gap_below a n p Hp Hc) as Hg. fold q in Hg. lra. }
      split; lra.
Qed.

(** In the range of the clamp, [toFixed(3)] writes the integer part, a
    point and three digits. *)
Lemma toFixed3_digits_decimal3 (n : Z) :
  (100 ≤ n ≤ 10000)%Z → toFixed3_digits n = decimal3 n.
Proof.
  intros Hn.
  assert (H : forallb (λ k, String.eqb (toFixed3_digits k) (decimal3 k))
                (seqZ 100 9901) = true) by (vm_compute; reflexivity).
  rewrite forallb_forall in H.
  apply String.eqb_eq, H, list_elem_of_In, elem_of_seqZ. lia.
Qed.

Lemma succ_pos_pred (p : positive) : N.succ_pos (N.pred (N.pos p)) = p.
Proof.
  assert (H : N.pos (N.succ_pos (N.pred (N.pos p))) = N.pos p)
    by (rewrite N.succ_pos_spec; lia).
  congruence.
Qed.

Lemma quotient_exact (width height : N) :
  (0 < height)%N →
  quotient width height * inject_Z (Z.of_N height) == inject_Z (Z.of_N width).
Proof.
  intros Hh. destruct height as [|h]; [lia|].
  unfold quotient. rewrite succ_pos_pred.
  unfold Qeq, Qmult, inject_Z. cbn [Qnum Qden]. simpl Z.of_N. lia.
Qed.

(** The ratio of an image that has a size: a number of thousandths [n]
    between 0.100 and 10.000 written with three decimals, a nearest one to
    the exact ratio clamped to [[0.1, 10]]. *)
Lemma ratio_thousandths (width height : N) :
  (0 < width < 4294967296)%N → (0 < height < 4294967296)%N →
  ∃ n : Z,
    getSafeImageAspectRatio width height = decimal3 n ∧
    (100 ≤ n ≤ 10000)%Z ∧
    Qabs (inject_Z n / 1000 - exact_clamped width height) <= 1 # 2000.
Proof.
  intros Hw Hh.
  unfold getSafeImageAspectRatio, js_div, exact_clamped.
  destruct width as [|w]; [lia|]. destruct height as [|h]; [lia|].
  assert (Hq : quotient (N.pos w) (N.pos h) = Z.pos w # h).
  { unfold quotient. by rewrite succ_pos_pred. }
  rewrite Hq.
  destruct (round53_near (Z.pos w # h) eq_refl) as [Hlo Hhi].
  assert (Hp : (Z.pos h < 4294967296)%Z) by lia.
  destruct (clamped_thousandths (Z.pos w) h (round53 (Z.pos w # h))
              eq_refl Hp Hlo Hhi) as [Hrange Hnear].
  cbv beta iota delta [min_ten max_tenth toFixed3].
  eexists. split; [by apply toFixed3_digits_decimal3|]. split; [done|].
  exact Hnear.
Qed.

(** The rounding of [round53] is the division of the reference
    implementation of binary64, on some sizes. *)
Example round53_is_reference_division :
  Forall (λ wh : Z * Z,
            Some (round53 (wh.1 # Z.to_pos wh.2)) =
            spec_float_value (reference_div wh.1 wh.2))
    [ (1600, 900); (100, 2000); (1, 3); (2001, 2000); (1005, 1000);
      (4294967295, 4294967294); (1, 4294967295); (4294967295, 1);
      (1920, 1080); (3, 4); (1, 10); (799, 8000) ]%Z.
Proof. repeat constructor. Qed.

(** Sizes the caller never passes: zero width or height. *)
Example degenerate_sizes :
  getSafeImageAspectRatio 0 7 = "0.100"%string ∧
  getSafeImageAspectRatio 5 0 = "10.000"%string ∧
  getSafeImageAspectRatio 0 0 = "NaN"%string.
Proof. repeat split. Qed.

End RatioFacts.

(* ===================================================================== *)
(** ** The ratio the adaptive pass applies *)
(* ===================================================================== *)

Module AdaptiveRatio.

Import Ratio Normalizer NormalizerFacts RatioFacts Sample.

#[local] Arguments truthy : simpl never.
#[local] Arguments cache_has : simpl never.
#[local] Arguments getSafeImageAspectRatio : simpl never.

Local Open Scope Q_scope.






End AdaptiveRatio.

(* ===================================================================== *)
(** ** One life of the element *)
(* ===================================================================== *)

Module Lifetime.

Import Paginated Contract Invariant Reconnection Guards.

(** *** Lists *)

Lemma filter_delete_length {A} (P : A → Prop) `{∀ x, Decision (P x)}
    (l : list A) (i : nat) (x : A) :
  l !! i = Some x →
  length (filter P l) =
    (length (filter P (delete i l)) + (if decide (P x) then 1 else 0))%nat.
Proof.
  intros Hi. rewrite delete_take_drop.
  rewrite <- (take_drop_middle l i x Hi) at 1.
  rewrite !filter_app, !length_app, filter_cons.
  destruct (decide (P x)); simpl; lia.
Qed.

Lemma head_filter_app {A} (P : A → Prop) `{∀ x, Decision (P x)}
    (l1 l2 : list A) (x : A) :
  head (filter P l1) = Some x → head (filter P (l1 ++ l2)) = Some x.
Proof. intros Hx. rewrite filter_app, head_app. by rewrite Hx. Qed.

Lemma StronglySorted_same_page (p : Z) (l : list card) :
  Forall (λ c, card_page c = Int p) l → StronglySorted page_le l.
Proof.
  induction 1 as [|c l Hc Hl IH]; constructor; [done|].
  eapply Forall_impl; [exact Hl|]. intros c' Hc'. exists p, p. split_and!; [done..|lia].
Qed.

(** *** The cache *)

Lemma getGridForPage_Some (s : state) (p : jsnum) (els : list card) :
  getGridForPage s p = Some els ↔ pages s !! p = Some (GridOf els).
Proof.
  unfold getGridForPage. destruct (pages s !! p) as [[| |items]|]; naive_solver.
Qed.

Lemma getGridForPage_pages (s s' : state) (p : jsnum) :
  pages s' = pages s → getGridForPage s' p = getGridForPage s p.
Proof. unfold getGridForPage. by intros ->. Qed.

Lemma ready_pages (s s' : state) (p : jsnum) :
  pages s' = pages s → ready p s' = ready p s.
Proof. intros Hp. unfold ready. by rewrite (getGridForPage_pages s s' p Hp). Qed.

(** *** The page a direction goes for *)

Lemma getPage_target (m : markup) (n lo hi : Z) (s : state) (d : direction) :
  shape m n lo hi s →
  ∃ u, getPage s d = Some (mkPage (target lo hi d) u).
Proof.
  intros Hs.
  pose proof (shape_head _ _ _ _ _ Hs) as Hh.
  pose proof (shape_last _ _ _ _ _ Hs) as Hl.
  destruct (head (cards s)) as [c1|] eqn:H1; [|done].
  destruct (last (cards s)) as [c2|] eqn:H2; [|done].
  injection Hh as Hh. injection Hl as Hl.
  destruct d.
  - rewrite (getPage_Some s next c2) by (unfold targetCard; by simpl).
    simpl. rewrite Hl. simpl. eauto.
  - rewrite (getPage_Some s previous c1) by (unfold targetCard; by simpl).
    simpl. rewrite Hh. simpl. eauto.
Qed.

(** *** States that differ in what the invariant does not read *)

Lemma resolver_frame (s s' : state) (d : direction) :
  resolveNextPagePromise s' = resolveNextPagePromise s →
  resolvePreviousPagePromise s' = resolvePreviousPagePromise s →
  resolver d s' = resolver d s.
Proof. intros Hn Hp. by destruct d. Qed.

Lemma shape_frame (m : markup) (n lo hi : Z) (s s' : state) :
  shape m n lo hi s →
  element s' = element s →
  cards s' = cards s →
  pages s' = pages s →
  in_flight s' = in_flight s →
  suspended s' = suspended s →
  (fresh s ≤ fresh s')%nat →
  resolveNextPagePromise s' = resolveNextPagePromise s →
  resolvePreviousPagePromise s' = resolvePreviousPagePromise s →
  spliced s' = spliced s →
  shape m n lo hi s'.
Proof.
  intros [] He Hc Hp Hi Hs Hf Hrn Hrp Hj.
  constructor; unfold appended, prepended in *;
    rewrite ?He, ?Hc, ?Hi, ?Hs, ?Hj, ?Hp; try done.
  - intros p els. rewrite (getGridForPage_pages s s' p Hp). auto.
  - eapply Forall_impl; [done|]. simpl. intros w Hw. lia.
  - intros d k. rewrite (resolver_frame s s' d Hrn Hrp).
    rewrite (getGridForPage_pages s s' _ Hp). auto.
Qed.

Lemma tokens_frame (lo hi : Z) (d : direction) (s s' : state) :
  pages s' = pages s →
  in_flight s' = in_flight s →
  idle_callbacks s' = idle_callbacks s →
  tokens lo hi d s' = tokens lo hi d s.
Proof.
  intros Hp Hi Hq. unfold tokens, pending, queued.
  by rewrite Hi, Hq, (ready_pages s s' _ Hp).
Qed.

(** *** [#fetchPage] *)

Lemma fetchPage_cases (d : direction) (s : state) :
  fetchPage d s = s ∨
  (∃ message, fetchPage d s = set_rejections (rejections s ++ [message]) s) ∨
  (∃ p id,
     getPage s d = Some p ∧ shouldUsePage s (Some p) = true ∧
     sectionId s = Normal id ∧
     fetchPage d s =
       set_fresh (S (fresh s))
         (set_in_flight
            (in_flight s ++ [mkRequest (fresh s) d (page p) id (url p)])
            (set_issued
               (issued s ++ [mkRequest (fresh s) d (page p) id (url p)]) s))).
Proof.
  unfold fetchPage. destruct (getPage s d) as [p|]; [|by left].
  destruct (shouldUsePage s (Some p)) eqn:Hu; simpl; [|by left].
  destruct (sectionId s) as [id|message] eqn:Hid; [|by eauto].
  right; right. by exists p, id.
Qed.

Lemma fetchPage_shape (m : markup) (n lo hi : Z) (d : direction) (s : state) :
  shape m n lo hi s → shape m n lo hi (fetchPage d s).
Proof.
  intros Hs.
  destruct (fetchPage_cases d s) as [->|[(msg & ->)|(p & id & Hp & _ & _ & ->)]].
  - done.
  - by apply (shape_frame m n lo hi s).
  - destruct (getPage_target m n lo hi s d Hs) as (u & Hu).
    rewrite Hu in Hp. injection Hp as <-. simpl.
    destruct Hs. constructor; try done; simpl.
    + apply Forall_app. split; [done|]. by constructor.
    + eapply Forall_impl; [done|]. simpl. intros w Hw. lia.
Qed.

Lemma pending_snoc (d : direction) (r : request) (s s' : state) :
  in_flight s' = in_flight s ++ [r] →
  pending d s' =
    (pending d s + (if decide (request_type r = d) then 1 else 0))%nat.
Proof.
  intros Hi. unfold pending, requests_of.
  rewrite Hi, filter_app, length_app, filter_cons, filter_nil.
  by destruct (decide (request_type r = d)).
Qed.

Lemma fetchPage_tokens (lo hi : Z) (d d' : direction) (s : state) :
  (tokens lo hi d' (fetchPage d s) ≤
   tokens lo hi d' s + (if decide (d = d') then 1 else 0))%nat.
Proof.
  destruct (fetchPage_cases d s) as [->|[(msg & ->)|(p & id & _ & _ & _ & ->)]].
  - lia.
  - rewrite (tokens_frame lo hi d' s) by done. lia.
  - unfold tokens.
    rewrite (pending_snoc d' (mkRequest (fresh s) d (page p) id (url p)) s)
      by done.
    simpl request_type.
    assert (Hq : queued d' (set_fresh (S (fresh s))
                   (set_in_flight
                      (in_flight s ++ [mkRequest (fresh s) d (page p) id (url p)])
                      (set_issued
                         (issued s ++ [mkRequest (fresh s) d (page p) id (url p)])
                         s))) = queued d' s) by done.
    rewrite Hq, (ready_pages s) by done. lia.
Qed.

Section WithViewport.

Variable document_top : list card → card → Z.
Variable scroll_after_layout : list card → Z → Z.

Local Abbreviation splice_page := (splice_page document_top scroll_after_layout).
Local Abbreviation renderPage := (renderPage document_top scroll_after_layout).
Local Abbreviation resume := (resume document_top scroll_after_layout).
Local Abbreviation resolve := (resolve document_top scroll_after_layout).
Local Abbreviation fetched := (fetched document_top scroll_after_layout).
Local Abbreviation step := (step document_top scroll_after_layout).
Local Abbreviation run := (run document_top scroll_after_layout).
Local Abbreviation lifetime := (lifetime document_top scroll_after_layout).
Local Abbreviation faithful := (faithful document_top scroll_after_layout).

(** *** Splicing a page *)

Lemma splice_fields (d : direction) (p : pageinfo) (els : list card)
    (s : state) :
  element (splice_page d p els s) = element s ∧
  cards (splice_page d p els s) =
    match d with next => cards s ++ els | previous => els ++ cards s end ∧
  pages (splice_page d p els s) = pages s ∧
  in_flight (splice_page d p els s) = in_flight s ∧
  suspended (splice_page d p els s) = suspended s ∧
  fresh (splice_page d p els s) = fresh s ∧
  resolveNextPagePromise (splice_page d p els s) = resolveNextPagePromise s ∧
  resolvePreviousPagePromise (splice_page d p els s) =
    resolvePreviousPagePromise s ∧
  spliced (splice_page d p els s) = spliced s ++ [(d, page p, els)] ∧
  idle_callbacks (splice_page d p els s) = idle_callbacks s ++ [d] ∧
  issued (splice_page d p els s) = issued s ∧
  rejections (splice_page d p els s) = rejections s ∧
  infinityScrollObserver (splice_page d p els s) = infinityScrollObserver s.
Proof.
  destruct s; destruct d; [by repeat split|].
  unfold Paginated.splice_page, prepend_page; simpl.
  match goal with |- context [head ?l] => destruct l end; by repeat split.
Qed.

Lemma splices_of_snoc (d d' : direction) (p : jsnum) (els : list card)
    (l : list (direction * jsnum * list card)) :
  splices_of d' (l ++ [(d, p, els)]) =
    splices_of d' l ++ (if decide (d = d') then [(p, els)] else []).
Proof.
  unfold splices_of. rewrite omap_app. simpl.
  by destruct (decide (d = d')).
Qed.

Lemma target_after (d d' : direction) (lo hi : Z) :
  d ≠ d' → target (lo_after d lo) (hi_after d hi) d' = target lo hi d'.
Proof. by destruct d, d'. Qed.

Lemma target_differ (lo hi : Z) (d d' : direction) :
  lo ≤ hi → d ≠ d' → target lo hi d ≠ target lo hi d'.
Proof.
  destruct d, d'; simpl; intros Hle Hd Heq; try done; injection Heq; lia.
Qed.

Lemma splice_shape (m : markup) (n lo hi : Z) (d : direction) (p : pageinfo)
    (els : list card) (s : state) :
  shape m n lo hi s →
  (tokens lo hi d s ≤ 1)%nat →
  page p = target lo hi d →
  getGridForPage s (target lo hi d) = Some els →
  shape m n (lo_after d lo) (hi_after d hi) (splice_page d p els s).
Proof.
  intros Hs Htok Hp Hgrid.
  destruct (splice_fields d p els s)
    as (He & Hc & Hpg & Hi & Hsu & Hf & Hrn & Hrp & Hj & _).
  pose proof (shape_cache _ _ _ _ _ Hs _ _ Hgrid) as [_ Hpo].
  simpl in Hpo. destruct Hpo as [Hne Htag].
  assert (Hnone : requests_of d (in_flight s) = []).
  { unfold tokens, pending, ready in Htok. rewrite Hgrid in Htok.
    apply length_zero_iff_nil. lia. }
  destruct Hs as [Hel Hord Hhead Hlast Hbnd Hsort Hreq Hcache Hwait Hslot
                    Hcards Hjour Happ].
  assert (Hels : Forall (λ c, ∃ z, card_page c = Int z ∧
                   lo_after d lo ≤ z ≤ hi_after d hi) els).
  { eapply Forall_impl; [exact Htag|]. simpl. intros c ->.
    destruct d; simpl; eexists; (split; [done|lia]). }
  assert (Hold : Forall (λ c, ∃ z, card_page c = Int z ∧
                   lo_after d lo ≤ z ≤ hi_after d hi) (cards s)).
  { eapply Forall_impl; [exact Hbnd|]. simpl. intros c (z & ? & ?).
    exists z. destruct d; simpl; (split; [done|lia]). }
  constructor.
  - by rewrite He.
  - destruct d; simpl; lia.
  - rewrite Hc. destruct d; simpl.
    + rewrite head_app. by destruct (head (cards s)).
    + rewrite head_app. destruct (head els) as [c|] eqn:Hl.
      * apply head_Some_elem_of in Hl.
        rewrite Forall_forall in Htag. simpl. by rewrite (Htag c Hl).
      * apply head_None in Hl. congruence.
  - rewrite Hc. destruct d; simpl.
    + rewrite last_app. destruct (last els) as [c|] eqn:Hl.
      * apply last_Some_elem_of in Hl.
        rewrite Forall_forall in Htag. simpl. by rewrite (Htag c Hl).
      * apply last_None in Hl. congruence.
    + rewrite last_app. by destruct (last (cards s)).
  - rewrite Hc. destruct d; by apply Forall_app.
  - rewrite Hc.
    assert (Hse : StronglySorted page_le els).
    { destruct d; simpl in Htag;
        eapply StronglySorted_same_page; exact Htag. }
    destruct d; apply StronglySorted_app; (split_and!; [|done|done]);
      intros x1 x2 Hx1 Hx2.
    + rewrite Forall_forall in Hbnd, Htag.
      destruct (Hbnd x1 Hx1) as (z & Hz & ?). exists z, (hi + 1).
      split_and!; [done|by apply Htag|lia].
    + rewrite Forall_forall in Hbnd, Htag.
      destruct (Hbnd x2 Hx2) as (z & Hz & ?). exists (lo - 1), z.
      split_and!; [by apply Htag|done|lia].
  - rewrite Hi. rewrite Forall_forall in Hreq |- *. intros r Hr.
    destruct (decide (request_type r = d)) as [Hd|Hd].
    + exfalso. assert (r ∈ requests_of d (in_flight s))
        by (by apply list_elem_of_filter).
      rewrite Hnone in H. by apply elem_of_nil in H.
    + rewrite target_after by done. by apply Hreq.
  - intros q els'. rewrite (getGridForPage_pages s _ q Hpg). intros Hq.
    destruct (Hcache q els' Hq) as [(z & -> & ?) ?]. split; [|done].
    exists z. destruct d; simpl; (split; [done|lia]).
  - by rewrite Hsu, Hf.
  - intros d' k. rewrite (resolver_frame s _ d' Hrn Hrp), Hsu.
    rewrite (getGridForPage_pages s _ _ Hpg). intros Hk.
    destruct (Hslot d' k Hk) as (w & Hw & Hty & Hwp & Hno).
    destruct (decide (d = d')) as [<-|Hd]; [congruence|].
    rewrite target_after by done. eauto.
  - unfold appended, prepended in *. rewrite Hc, Hj, !splices_of_snoc, Hcards.
    destruct d; simpl.
    + rewrite app_nil_r, fmap_app, concat_app. simpl.
      by rewrite app_nil_r, <- !app_assoc.
    + rewrite app_nil_r, fmap_app, reverse_app. simpl. by rewrite <- app_assoc.
  - rewrite Hj, Hpg. apply Forall_app. split; [done|].
    constructor; [|done]. simpl. rewrite Hp. by apply getGridForPage_Some.
  - unfold appended in *. rewrite Hj, splices_of_snoc.
    destruct Happ as (zs & Hzs & Hsorted & Hrange).
    destruct d; simpl.
    + exists (zs ++ [hi + 1]). rewrite !fmap_app, Hzs, Hp. simpl.
      split_and!; [done| |].
      * apply StronglySorted_app. split_and!; [|done|by repeat constructor].
        rewrite Forall_forall in Hrange.
        intros x1 x2 Hx1 ->%list_elem_of_singleton.
        specialize (Hrange x1 Hx1). simpl in Hrange. lia.
      * apply Forall_app. split.
        -- eapply Forall_impl; [done|]. simpl. lia.
        -- repeat constructor; lia.
    + exists zs. rewrite app_nil_r. by split_and!.
Qed.

Lemma queued_snoc (d d' : direction) (s s' : state) :
  idle_callbacks s' = idle_callbacks s ++ [d] →
  queued d' s' = (queued d' s + (if decide (d = d') then 1 else 0))%nat.
Proof.
  intros Hq. unfold queued.
  rewrite Hq, filter_app, length_app, filter_cons, filter_nil.
  by destruct (decide (d = d')).
Qed.

Lemma ready_out_of_range (m : markup) (n lo hi z : Z) (s : state) :
  shape m n lo hi s → ¬ (lo - 1 ≤ z ≤ hi + 1) → ready (Int z) s = 0%nat.
Proof.
  intros Hs Hz. unfold ready.
  destruct (getGridForPage s (Int z)) as [els|] eqn:Hg; [|done].
  destruct (shape_cache _ _ _ _ _ Hs _ _ Hg) as [(z' & [= <-] & ?) _]. lia.
Qed.

Lemma splice_tokens (m : markup) (n lo hi : Z) (d : direction) (p : pageinfo)
    (els : list card) (s : state) :
  shape m n lo hi s →
  (∀ d', tokens lo hi d' s ≤ 1)%nat →
  getGridForPage s (target lo hi d) = Some els →
  ∀ d', (tokens (lo_after d lo) (hi_after d hi) d' (splice_page d p els s) ≤ 1)%nat.
Proof.
  intros Hs Htok Hgrid d'.
  destruct (splice_fields d p els s)
    as (_ & _ & Hpg & Hi & _ & _ & _ & _ & _ & Hq & _).
  pose proof (shape_order _ _ _ _ _ Hs) as Hord.
  unfold tokens. rewrite (queued_snoc d d' s _ Hq), (ready_pages s _ _ Hpg).
  unfold pending. rewrite Hi. fold (pending d' s).
  destruct (decide (d = d')) as [<-|Hd].
  - pose proof (Htok d) as Ht. unfold tokens, ready in Ht. rewrite Hgrid in Ht.
    assert (Hr : ready (target (lo_after d lo) (hi_after d hi) d) s = 0%nat).
    { destruct d; simpl; apply (ready_out_of_range m n lo hi); (done || lia). }
    lia.
  - rewrite target_after by done. pose proof (Htok d') as Ht.
    unfold tokens in Ht. lia.
Qed.

(** *** Suspending a render *)

Lemma resolver_set (d d' : direction) (v : option nat) (s : state) :
  resolver d' (set_resolver d v s) = if decide (d = d') then v else resolver d' s.
Proof. by destruct d, d'. Qed.

Lemma set_resolver_fields (d : direction) (v : option nat) (s : state) :
  element (set_resolver d v s) = element s ∧
  cards (set_resolver d v s) = cards s ∧
  pages (set_resolver d v s) = pages s ∧
  in_flight (set_resolver d v s) = in_flight s ∧
  suspended (set_resolver d v s) = suspended s ∧
  fresh (set_resolver d v s) = fresh s ∧
  spliced (set_resolver d v s) = spliced s ∧
  idle_callbacks (set_resolver d v s) = idle_callbacks s ∧
  issued (set_resolver d v s) = issued s ∧
  rejections (set_resolver d v s) = rejections s ∧
  infinityScrollObserver (set_resolver d v s) = infinityScrollObserver s.
Proof. by destruct d. Qed.

Lemma suspend_fields (d : direction) (p : pageinfo) (s : state) :
  element (suspend d p s) = element s ∧
  cards (suspend d p s) = cards s ∧
  pages (suspend d p s) = pages s ∧
  in_flight (suspend d p s) = in_flight s ∧
  suspended (suspend d p s) = suspended s ++ [mkWaiter (fresh s) d p] ∧
  fresh (suspend d p s) = S (fresh s) ∧
  spliced (suspend d p s) = spliced s ∧
  idle_callbacks (suspend d p s) = idle_callbacks s ∧
  issued (suspend d p s) = issued s ∧
  rejections (suspend d p s) = rejections s ∧
  infinityScrollObserver (suspend d p s) = infinityScrollObserver s ∧
  ∀ d', resolver d' (suspend d p s) =
        if decide (d = d') then Some (fresh s) else resolver d' s.
Proof. by destruct d; repeat split; intros []. Qed.

Lemma filter_fresh_nil (k : nat) (l : list waiter) :
  Forall (λ w, (waiter_id w < k)%nat) l →
  filter (λ w, waiter_id w = k) l = [].
Proof.
  induction 1 as [|w l Hw _ IH]; [done|].
  rewrite filter_cons_False by lia. done.
Qed.

Lemma suspend_shape (m : markup) (n lo hi : Z) (d : direction) (p : pageinfo)
    (s : state) :
  shape m n lo hi s →
  page p = target lo hi d →
  getGridForPage s (target lo hi d) = None →
  shape m n lo hi (suspend d p s).
Proof.
  intros Hs Hp Hnone.
  destruct (suspend_fields d p s)
    as (He & Hc & Hpg & Hi & Hsu & Hf & Hj & _ & _ & _ & _ & Hr).
  destruct Hs as [Hel Hord Hhead Hlast Hbnd Hsort Hreq Hcache Hwait Hslot
                    Hcards Hjour Happ].
  constructor; unfold appended, prepended in *;
    rewrite ?He, ?Hc, ?Hi, ?Hj, ?Hpg; try done.
  - intros q els. rewrite (getGridForPage_pages s _ q Hpg). auto.
  - rewrite Hsu, Hf. apply Forall_app. split.
    + eapply Forall_impl; [done|]. simpl. intros w Hw. lia.
    + constructor; [simpl; lia|done].
  - intros d' k. rewrite Hr, Hsu, (getGridForPage_pages s _ _ Hpg).
    destruct (decide (d = d')) as [<-|Hd].
    + intros [= <-]. exists (mkWaiter (fresh s) d p).
      rewrite filter_app, (filter_fresh_nil _ _ Hwait), filter_cons_True by done.
      by split_and!.
    + intros Hk. destruct (Hslot d' k Hk) as (w & Hw & ?).
      exists w. split; [by apply head_filter_app|done].
Qed.

Lemma suspend_tokens (lo hi : Z) (d d' : direction) (p : pageinfo) (s : state) :
  tokens lo hi d' (suspend d p s) = tokens lo hi d' s.
Proof.
  destruct (suspend_fields d p s) as (_ & _ & Hpg & Hi & _ & _ & _ & Hq & _).
  by apply tokens_frame.
Qed.

(** *** A render *)

Lemma renderPage_unfold (d : direction) (p : pageinfo) (s : state) :
  getPage s d = Some p →
  renderPage d s =
    match grid_last_page (element s) with
    | None => s
    | Some _ =>
        if shouldUsePage s (Some p)
        then match getGridForPage s (page p) with
             | Some els => splice_page d p els s
             | None => suspend d p s
             end
        else s
    end.
Proof.
  intros Hp. unfold Paginated.renderPage. rewrite Hp.
  destruct (grid_last_page (element s)); [|done].
  by destruct (shouldUsePage s (Some p)).
Qed.

Lemma renderPage_cases (m : markup) (n lo hi : Z) (d : direction) (s : state) :
  shape m n lo hi s →
  renderPage d s = s ∨
  (∃ p els, page p = target lo hi d ∧
            getGridForPage s (target lo hi d) = Some els ∧
            renderPage d s = splice_page d p els s) ∨
  (∃ p, page p = target lo hi d ∧
        getGridForPage s (target lo hi d) = None ∧
        renderPage d s = suspend d p s).
Proof.
  intros Hs. destruct (getPage_target m n lo hi s d Hs) as (u & Hu).
  rewrite (renderPage_unfold d _ s Hu). simpl page.
  destruct (grid_last_page (element s)); [|by left].
  destruct (shouldUsePage s _); [|by left].
  destruct (getGridForPage s (target lo hi d)) as [els|] eqn:Hg.
  - right; left. by exists (mkPage (target lo hi d) u), els.
  - right; right. by exists (mkPage (target lo hi d) u).
Qed.

Lemma renderPage_invariant (m : markup) (n : Z) (d : direction) (s : state) :
  invariant m n s → invariant m n (renderPage d s).
Proof.
  intros (lo & hi & Hs & Htok).
  destruct (renderPage_cases m n lo hi d s Hs)
    as [->|[(p & els & Hp & Hg & ->)|(p & Hp & Hg & ->)]].
  - by exists lo, hi.
  - exists (lo_after d lo), (hi_after d hi). split.
    + by apply splice_shape.
    + by apply (splice_tokens m n).
  - exists lo, hi. split.
    + by apply suspend_shape.
    + intros d'. by rewrite suspend_tokens.
Qed.

(** *** A fetch that completes *)

Lemma find_request_elem (id : nat) (s : state) (r : request) :
  find_request id s = Some r → r ∈ in_flight s ∧ request_id r = id.
Proof.
  unfold find_request. intros Hr. apply head_Some_elem_of in Hr.
  apply list_elem_of_filter in Hr. by destruct Hr.
Qed.

Lemma drop_request_shape (m : markup) (n lo hi : Z) (id : nat) (s : state) :
  shape m n lo hi s → shape m n lo hi (drop_request id s).
Proof.
  intros []. constructor; try done. simpl.
  rewrite Forall_forall in shape_requests0 |- *.
  intros r [_ Hr]%list_elem_of_filter. auto.
Qed.

Lemma requests_of_drop (id : nat) (d : direction) (s : state) :
  requests_of d (in_flight (drop_request id s)) =
    filter (λ r, request_id r ≠ id) (requests_of d (in_flight s)).
Proof.
  unfold requests_of. simpl. rewrite !list_filter_filter.
  apply list_filter_iff. intros r. tauto.
Qed.

Lemma drop_request_pending (id : nat) (d : direction) (s : state) :
  (pending d (drop_request id s) ≤ pending d s)%nat.
Proof. unfold pending. rewrite requests_of_drop. apply length_filter. Qed.

Lemma drop_request_found (id : nat) (r : request) (s : state) :
  find_request id s = Some r →
  (pending (request_type r) (drop_request id s) < pending (request_type r) s)%nat.
Proof.
  intros [Hr Hid]%find_request_elem. unfold pending. rewrite requests_of_drop.
  apply (length_filter_lt _ _ r).
  - by apply list_elem_of_filter.
  - by intros ?.
Qed.

Lemma stored_fields (r : request) (body : html) (s : state) :
  element (stored r body s) = element s ∧
  cards (stored r body s) = cards s ∧
  pages (stored r body s) = <[request_page r := body]> (pages s) ∧
  in_flight (stored r body s) = in_flight s ∧
  suspended (stored r body s) = suspended s ∧
  fresh (stored r body s) = fresh s ∧
  spliced (stored r body s) = spliced s ∧
  idle_callbacks (stored r body s) = idle_callbacks s ∧
  issued (stored r body s) = issued s ∧
  rejections (stored r body s) = rejections s ∧
  infinityScrollObserver (stored r body s) = infinityScrollObserver s ∧
  ∀ d, resolver d (stored r body s) =
       if decide (request_type r = d) then None else resolver d s.
Proof.
  unfold stored. destruct (request_type r); repeat split; by intros [].
Qed.

Lemma drop_request_fields (id : nat) (s : state) :
  element (drop_request id s) = element s ∧
  cards (drop_request id s) = cards s ∧
  pages (drop_request id s) = pages s ∧
  suspended (drop_request id s) = suspended s ∧
  fresh (drop_request id s) = fresh s ∧
  spliced (drop_request id s) = spliced s ∧
  issued (drop_request id s) = issued s ∧
  infinityScrollObserver (drop_request id s) = infinityScrollObserver s ∧
  ∀ d, resolver d (drop_request id s) = resolver d s.
Proof. destruct s. repeat split. Qed.

Lemma awake_stored_fields (k : nat) (r : request) (body : html) (s : state) :
  issued (awake k (stored r body s)) = issued s ∧
  suspended (awake k (stored r body s)) =
    filter (λ w, waiter_id w ≠ k) (suspended s) ∧
  cards (awake k (stored r body s)) = cards s ∧
  spliced (awake k (stored r body s)) = spliced s ∧
  fresh (awake k (stored r body s)) = fresh s ∧
  ∀ d, resolver d (awake k (stored r body s)) =
       if decide (request_type r = d) then None else resolver d s.
Proof.
  unfold awake, stored. destruct s, (request_type r); repeat split; by intros [].
Qed.

Lemma getGridForPage_stored (r : request) (body : html) (s : state) (p : jsnum) :
  getGridForPage (stored r body s) p =
    if decide (request_page r = p)
    then match body with GridOf items => Some items | _ => None end
    else getGridForPage s p.
Proof.
  destruct (stored_fields r body s) as (_ & _ & Hpg & _).
  unfold getGridForPage. rewrite Hpg.
  destruct (decide (request_page r = p)) as [->|Hne].
  - by rewrite lookup_insert_eq.
  - by rewrite lookup_insert_ne.
Qed.

Lemma target_in_range (lo hi : Z) (d : direction) :
  lo ≤ hi → ∃ z, target lo hi d = Int z ∧ lo - 1 ≤ z ≤ hi + 1.
Proof. intros ?. destruct d; simpl; eexists; (split; [done|lia]). Qed.

Lemma stored_shape (m : markup) (n lo hi : Z) (r : request) (body : html)
    (s : state) :
  shape m n lo hi s →
  request_page r = target lo hi (request_type r) →
  getGridForPage s (target lo hi (request_type r)) = None →
  page_of (request_page r) body →
  shape m n lo hi (stored r body s).
Proof.
  intros Hs Hr Hnone Hbody.
  destruct (stored_fields r body s)
    as (He & Hc & Hpg & Hi & Hsu & Hf & Hj & _ & _ & _ & _ & Hres).
  destruct Hs as [Hel Hord Hhead Hlast Hbnd Hsort Hreq Hcache Hwait Hslot
                    Hcards Hjour Happ].
  constructor; unfold appended, prepended in *;
    rewrite ?He, ?Hc, ?Hi, ?Hj, ?Hsu, ?Hf; try done.
  - intros p els. rewrite getGridForPage_stored.
    destruct (decide (request_page r = p)) as [<-|Hne]; [|by auto].
    destruct body as [| |items]; try done. intros [= ->]. split; [|done].
    rewrite Hr. apply target_in_range. lia.
  - intros d k. rewrite Hres, getGridForPage_stored.
    destruct (decide (request_type r = d)) as [<-|Hd]; [done|].
    intros Hk. destruct (Hslot d k Hk) as (w & ? & ? & ? & ?).
    exists w. split_and!; try done.
    rewrite decide_False; [done|].
    rewrite Hr. apply target_differ; [lia|done].
  - rewrite Hpg. eapply Forall_impl; [exact Hjour|]. simpl. intros e He'.
    rewrite lookup_insert_ne; [done|]. intros Heq.
    rewrite Hr in Heq. apply getGridForPage_Some in He'. congruence.
Qed.

Lemma stored_tokens (m : markup) (n lo hi : Z) (r : request) (body : html)
    (s : state) :
  shape m n lo hi s →
  request_page r = target lo hi (request_type r) →
  (∀ d, tokens lo hi d s ≤ 1)%nat →
  pending (request_type r) s = 0%nat →
  queued (request_type r) s = 0%nat →
  ∀ d, (tokens lo hi d (stored r body s) ≤ 1)%nat.
Proof.
  intros Hs Hr Htok Hp Hq d.
  destruct (stored_fields r body s)
    as (_ & _ & _ & Hi & _ & _ & _ & Hidle & _).
  pose proof (shape_order _ _ _ _ _ Hs) as Hord.
  unfold tokens, pending, queued. rewrite Hi, Hidle.
  fold (pending d s). fold (queued d s).
  destruct (decide (request_type r = d)) as [<-|Hd].
  - rewrite Hp, Hq. unfold ready. destruct (getGridForPage _ _); simpl; lia.
  - unfold ready. rewrite getGridForPage_stored, decide_False.
    + apply (Htok d).
    + rewrite Hr. apply target_differ; [lia|done].
Qed.

Lemma filter_other_waiter (k k' : nat) (l : list waiter) :
  k' ≠ k →
  filter (λ w, waiter_id w = k') (filter (λ w, waiter_id w ≠ k) l) =
  filter (λ w, waiter_id w = k') l.
Proof.
  intros Hk. induction l as [|w l IH]; [done|].
  destruct (decide (waiter_id w = k)) as [Hw|Hw].
  - rewrite (filter_cons_False (λ w, waiter_id w ≠ k)) by (simpl; tauto).
    rewrite (filter_cons_False (λ w, waiter_id w = k')) by (simpl; lia). done.
  - rewrite (filter_cons_True (λ w, waiter_id w ≠ k)) by done.
    rewrite !filter_cons, IH. done.
Qed.

Lemma awake_shape (m : markup) (n lo hi : Z) (k : nat) (s : state) :
  shape m n lo hi s →
  (∀ d k', resolver d s = Some k' → k' ≠ k) →
  shape m n lo hi (awake k s).
Proof.
  intros [] Hk. constructor; try done; simpl.
  - rewrite Forall_forall in shape_waiters0 |- *.
    intros w [_ Hw]%list_elem_of_filter. auto.
  - intros d k' Hk'. change (resolver d (awake k s)) with (resolver d s) in Hk'.
    destruct (shape_slots0 d k' Hk') as (w & Hw & ?).
    exists w. rewrite filter_other_waiter by eauto. done.
Qed.

Lemma slots_differ (m : markup) (n lo hi : Z) (s : state) (d d' : direction)
    (k k' : nat) :
  shape m n lo hi s →
  resolver d s = Some k → resolver d' s = Some k' → d ≠ d' → k ≠ k'.
Proof.
  intros Hs Hk Hk' Hd ->.
  destruct (shape_slots _ _ _ _ _ Hs d k' Hk) as (w & Hw & Hty & _).
  destruct (shape_slots _ _ _ _ _ Hs d' k' Hk') as (w' & Hw' & Hty' & _).
  congruence.
Qed.

Lemma fetched_unfold (r : request) (body : html) (s : state) :
  fetched r body s =
    match resolver (request_type r) s with
    | Some k =>
        match head (filter (λ w, waiter_id w = k) (suspended s)) with
        | Some w =>
            match getGridForPage (stored r body s) (page (waiter_page w)) with
            | Some els =>
                splice_page (waiter_type w) (waiter_page w) els
                  (awake k (stored r body s))
            | None => awake k (stored r body s)
            end
        | None => stored r body s
        end
    | None => stored r body s
    end.
Proof.
  unfold Paginated.fetched, stored.
  assert (Hres : resolver (request_type r)
            (set_pages (<[request_page r:=body]> (pages s)) s) =
          resolver (request_type r) s) by (by destruct (request_type r)).
  rewrite Hres. destruct (resolver (request_type r) s) as [k|]; [|done].
  unfold Paginated.resolve.
  assert (Hsu : suspended (set_resolver (request_type r) None
            (set_pages (<[request_page r:=body]> (pages s)) s)) = suspended s)
    by (by destruct (request_type r)).
  rewrite Hsu.
  destruct (filter (λ w, waiter_id w = k) (suspended s)) as [|w l]; [done|].
  simpl head. unfold Paginated.resume, awake. rewrite Hsu.
  by destruct (request_type r).
Qed.

Lemma fetched_invariant (m : markup) (n : Z) (id : nat) (r : request)
    (body : html) (s : state) :
  invariant m n s →
  find_request id s = Some r →
  page_of (request_page r) body →
  invariant m n (fetched r body (drop_request id s)).
Proof.
  intros (lo & hi & Hs & Htok) Hfind Hbody.
  destruct (find_request_elem id s r Hfind) as [Hin _].
  set (d := request_type r).
  assert (Hpage : request_page r = target lo hi d).
  { pose proof (shape_requests _ _ _ _ _ Hs) as Hreq.
    rewrite Forall_forall in Hreq. by apply Hreq. }
  pose proof (drop_request_found id r s Hfind) as Hless. fold d in Hless.
  pose proof (Htok d) as Htd. unfold tokens in Htd.
  assert (Hnone : getGridForPage s (target lo hi d) = None).
  { unfold ready in Htd. destruct (getGridForPage s (target lo hi d)); [lia|done]. }
  set (s1 := drop_request id s) in *.
  assert (Hs1 : shape m n lo hi s1) by (by apply drop_request_shape).
  assert (Htok1 : ∀ d', (tokens lo hi d' s1 ≤ 1)%nat).
  { intros d'. pose proof (Htok d') as Ht. unfold tokens in *.
    pose proof (drop_request_pending id d' s). fold s1 in H.
    change (queued d' s1) with (queued d' s).
    rewrite (ready_pages s s1) by done. lia. }
  assert (Hp1 : pending d s1 = 0%nat) by lia.
  assert (Hq1 : queued d s1 = 0%nat).
  { change (queued d s1) with (queued d s). lia. }
  assert (Hnone1 : getGridForPage s1 (target lo hi d) = None) by done.
  pose proof (stored_shape m n lo hi r body s1 Hs1 Hpage Hnone1 Hbody) as Hs2.
  pose proof (stored_tokens m n lo hi r body s1 Hs1 Hpage Htok1 Hp1 Hq1) as Htok2.
  rewrite fetched_unfold. fold d.
  destruct (resolver d s1) as [k|] eqn:Hk; [|by exists lo, hi].
  destruct (shape_slots _ _ _ _ _ Hs1 d k Hk) as (w & Hw & Hty & Hwp & _).
  rewrite Hw.
  destruct (stored_fields r body s1) as (_ & _ & _ & _ & _ & _ & _ & _ & _ & _ & _ & Hres).
  assert (Hs3 : shape m n lo hi (awake k (stored r body s1))).
  { apply awake_shape; [done|]. intros d' k'. rewrite Hres. fold d.
    destruct (decide (d = d')) as [|Hd]; [done|]. intros Hk'.
    by apply (slots_differ m n lo hi s1 d' d). }
  assert (Htok3 : ∀ d', (tokens lo hi d' (awake k (stored r body s1)) ≤ 1)%nat).
  { intros d'. by rewrite (tokens_frame lo hi d' (stored r body s1)). }
  rewrite Hwp, Hty.
  destruct (getGridForPage (stored r body s1) (target lo hi d)) as [els|] eqn:Hg.
  - exists (lo_after d lo), (hi_after d hi). split.
    + by apply splice_shape.
    + by apply (splice_tokens m n).
  - by exists lo, hi.
Qed.

(** *** The element once connected *)

Lemma served_head_last (m : markup) (n L : Z) :
  served m n L →
  card_page <$> head (served_cards m) = Some (Int n) ∧
  card_page <$> last (served_cards m) = Some (Int n).
Proof.
  intros [_ _ _ Hne Htag]. rewrite Forall_forall in Htag. split.
  - destruct (head (served_cards m)) as [c|] eqn:Hc.
    + simpl. by rewrite (Htag c (head_Some_elem_of _ _ Hc)).
    + by apply head_None in Hc.
  - destruct (last (served_cards m)) as [c|] eqn:Hc.
    + simpl. by rewrite (Htag c (last_Some_elem_of _ _ Hc)).
    + by apply last_None in Hc.
Qed.

Lemma mount_shape (m : markup) (n L : Z) :
  served m n L → shape m n n n (mount m).
Proof.
  intros Hm. destruct (served_head_last m n L Hm) as [Hh Hl].
  destruct Hm as [_ _ _ Hne Htag].
  constructor; simpl; try done.
  - eapply Forall_impl; [exact Htag|]. simpl. intros c ->. exists n. split; [done|lia].
  - by apply (StronglySorted_same_page n).
  - by intros [] k.
  - by rewrite app_nil_r.
  - exists []. by repeat split; constructor.
Qed.

Lemma mount_tokens (m : markup) (lo hi : Z) (d : direction) :
  tokens lo hi d (mount m) = 0%nat.
Proof. by destruct d. Qed.

Lemma connected_shape (m : markup) (n L : Z) :
  served m n L →
  shape m n n n (connectedCallback (mount m)) ∧
  ∀ d, (tokens n n d (connectedCallback (mount m)) ≤ 1)%nat.
Proof.
  intros Hm. unfold connectedCallback.
  set (s0 := storeImageRatioSettings (mount m)).
  assert (Hs0 : shape m n n n s0).
  { apply (shape_frame m n n n (mount m)); [by apply (mount_shape m n L)|..];
      unfold s0, storeImageRatioSettings; by destruct (cardGallery_ratio _). }
  assert (Ht0 : ∀ d, tokens n n d s0 = 0%nat).
  { intros d. rewrite (tokens_frame n n d (mount m)).
    - apply mount_tokens.
    - unfold s0, storeImageRatioSettings; by destruct (cardGallery_ratio _).
    - unfold s0, storeImageRatioSettings; by destruct (cardGallery_ratio _).
    - unfold s0, storeImageRatioSettings; by destruct (cardGallery_ratio _). }
  set (s1 := fetchPage next s0).
  set (s2 := fetchPage previous s1).
  assert (Hs2 : shape m n n n s2) by (by do 2 apply fetchPage_shape).
  assert (Ht2 : ∀ d, (tokens n n d s2 ≤ 1)%nat).
  { intros d. pose proof (fetchPage_tokens n n previous d s1).
    pose proof (fetchPage_tokens n n next d s0). fold s1 in H, H0. fold s2 in H.
    rewrite Ht0 in H0. destruct d; simpl in *; lia. }
  split.
  - apply (shape_frame m n n n s2); [done|..];
      unfold observeViewMore; by destruct (_ || _).
  - intros d. rewrite (tokens_frame n n d s2); [done|..];
      unfold observeViewMore; by destruct (_ || _).
Qed.

Lemma connected_invariant (m : markup) (n L : Z) :
  served m n L → invariant m n (connectedCallback (mount m)).
Proof. intros Hm. exists n, n. by apply (connected_shape m n L). Qed.

(** *** Every event keeps the invariant *)

Lemma step_invariant (m : markup) (n : Z) (s : state) (e : event) :
  invariant m n s → answers s e → invariant m n (step s e).
Proof.
  intros Hinv He. destruct e as [target b|id body|id|i|]; simpl.
  - destruct (_ && _); [by apply renderPage_invariant|done].
  - simpl in He. destruct (find_request id s) as [r|] eqn:Hr; [|done].
    by apply fetched_invariant.
  - destruct (find_request id s) as [r|] eqn:Hr; [|done].
    destruct Hinv as (lo & hi & Hs & Htok). exists lo, hi. split.
    + apply (shape_frame m n lo hi (drop_request id s)); [|done..].
      by apply drop_request_shape.
    + intros d. pose proof (Htok d) as Ht.
      pose proof (drop_request_pending id d s) as Hp.
      unfold tokens in *.
      change (pending d (set_rejections _ (drop_request id s)))
        with (pending d (drop_request id s)).
      change (queued d (set_rejections _ (drop_request id s)))
        with (queued d s).
      rewrite (ready_pages s) by done. lia.
  - destruct (idle_callbacks s !! i) as [d|] eqn:Hi; [|done].
    destruct Hinv as (lo & hi & Hs & Htok). exists lo, hi.
    set (s1 := set_idle_callbacks (delete i (idle_callbacks s)) s).
    assert (Hs1 : shape m n lo hi s1) by (by apply (shape_frame m n lo hi s)).
    split; [by apply fetchPage_shape|].
    intros d'. pose proof (fetchPage_tokens lo hi d d' s1) as Hf.
    pose proof (Htok d') as Ht. unfold tokens in Ht, Hf.
    pose proof (filter_delete_length (λ x, x = d') (idle_callbacks s) i d Hi)
      as Hq.
    fold (queued d' s) in Hq.
    change (length (filter (λ x, x = d') (delete i (idle_callbacks s))))
      with (queued d' s1) in Hq.
    change (pending d' s1) with (pending d' s) in Hf.
    rewrite (ready_pages s s1) in Hf by done.
    unfold tokens. destruct (decide (d = d')); lia.
  - destruct Hinv as (lo & hi & Hs & Htok). exists lo, hi. split.
    + by apply (shape_frame m n lo hi s).
    + intros d. by rewrite (tokens_frame lo hi d s).
Qed.

Lemma run_invariant (m : markup) (n : Z) (es : list event) (s : state) :
  invariant m n s → faithful s es → invariant m n (run s es).
Proof.
  revert s. induction es as [|e es IH]; intros s Hinv Hf; [done|].
  destruct Hf as [He Hf]. simpl. apply IH; [|done].
  by apply step_invariant.
Qed.

Lemma lifetime_invariant (m : markup) (n L : Z) (es : list event) :
  served m n L →
  faithful (connectedCallback (mount m)) es →
  invariant m n (lifetime m es).
Proof.
  intros Hm Hf. apply run_invariant; [|done]. by apply (connected_invariant m n L).
Qed.

(** While the element is not connected again, what becomes of it is a
    life: the events of the browser after the one [connectedCallback]. *)
Lemma occur_once (s : state) (os : list occurrence) :
  connected_once os →
  foldl (occur document_top scroll_after_layout) s os = run s (events_of os).
Proof.
  revert s. induction os as [|[e|] os IH]; intros s Hos; [done|..].
  - apply Forall_cons in Hos as [_ Hos]. simpl. by rewrite IH.
  - by apply Forall_cons in Hos as [? _].
Qed.

Lemma existence_once (m : markup) (os : list occurrence) :
  connected_once os →
  existence document_top scroll_after_layout m os = lifetime m (events_of os).
Proof. apply occur_once. Qed.

(** C3, as the code has it: on a page served to the contract (section id,
    grid, both sentinels, cards tagged with the page number), with page
    numbers in the range where adding one is exact, every completed fetch
    answering its request, and the element connected once and not again,
    each direction has at most one fetch in flight at any time: after any
    events, the requests of a direction that have not settled are at most
    one, so none is issued while another of its direction is unresolved. *)
Theorem one_fetch_in_flight (m : markup) (n L : Z) (os : list occurrence)
    (d : direction) :
  served m n L → safe n → safe L →
  connected_once os →
  faithful (connectedCallback (mount m)) (events_of os) →
  (length (requests_of d
     (in_flight (existence document_top scroll_after_layout m os))) ≤ 1)%nat.
Proof.
  intros Hm _ _ Hos Hf. rewrite (existence_once m os Hos).
  destruct (lifetime_invariant m n L _ Hm Hf) as (lo & hi & _ & Htok).
  specialize (Htok d). unfold tokens, pending in Htok. lia.
Qed.

(** *** Forward-only lives *)

Lemma fetchPage_fields (d : direction) (s : state) :
  element (fetchPage d s) = element s ∧
  cards (fetchPage d s) = cards s ∧
  pages (fetchPage d s) = pages s ∧
  suspended (fetchPage d s) = suspended s ∧
  resolveNextPagePromise (fetchPage d s) = resolveNextPagePromise s ∧
  resolvePreviousPagePromise (fetchPage d s) = resolvePreviousPagePromise s ∧
  spliced (fetchPage d s) = spliced s ∧
  idle_callbacks (fetchPage d s) = idle_callbacks s ∧
  infinityScrollObserver (fetchPage d s) = infinityScrollObserver s.
Proof.
  by destruct (fetchPage_cases d s)
    as [->|[(msg & ->)|(p & id & _ & _ & _ & ->)]].
Qed.

Lemma renderPage_forms (d : direction) (s : state) :
  renderPage d s = s ∨
  (∃ p els, renderPage d s = splice_page d p els s) ∨
  (∃ p, renderPage d s = suspend d p s).
Proof.
  unfold Paginated.renderPage.
  destruct (grid_last_page (element s)); [|by left].
  destruct (getPage s d) as [p|]; [|by left].
  destruct (negb _); [by left|].
  destruct (getGridForPage s (page p)) as [els|]; [right; left|right; right];
    eauto.
Qed.

Lemma splice_next_forward (p : pageinfo) (els : list card) (s : state) :
  forward s → forward (splice_page next p els s).
Proof.
  intros (Hr & Hw & Hp).
  destruct (splice_fields next p els s)
    as (_ & _ & _ & _ & Hsu & _ & _ & Hrp & Hj & _).
  unfold forward, prepended in *. rewrite Hrp, Hsu, Hj, splices_of_snoc.
  simpl. by rewrite app_nil_r.
Qed.

Lemma step_forward (s : state) (e : event) :
  forward s → (∀ b, e ≠ Intersect previous b) → forward (step s e).
Proof.
  intros Hf He. destruct e as [target b|id body|id|i|]; simpl.
  - destruct target; [|by destruct (He b)].
    destruct (_ && _); [|done].
    destruct (renderPage_forms next s) as [->|[(p & els & ->)|(p & ->)]].
    + done.
    + by apply splice_next_forward.
    + destruct Hf as (Hr & Hw & Hp). split_and!; [done| |done].
      simpl. apply Forall_app. split; [done|]. by repeat constructor.
  - destruct (find_request id s) as [r|]; [|done].
    assert (Hf1 : forward (drop_request id s)) by done.
    set (s1 := drop_request id s) in *.
    destruct (stored_fields r body s1)
      as (_ & _ & _ & _ & Hsu & _ & Hj & _ & _ & _ & _ & Hres).
    assert (Hf2 : forward (stored r body s1)).
    { destruct Hf1 as (Hr & Hw & Hp). unfold forward, prepended.
      rewrite Hsu, Hj. split_and!; [|done..].
      pose proof (Hres previous) as Hrp. simpl in Hrp. rewrite Hrp.
      by destruct (decide _). }
    assert (Hf3 : ∀ k, forward (awake k (stored r body s1))).
    { intros k. destruct Hf2 as (Hr & Hw & Hp). split_and!; [done| |done].
      simpl. rewrite Forall_forall in Hw |- *.
      intros w [_ Hin]%list_elem_of_filter. auto. }
    rewrite fetched_unfold.
    destruct (resolver (request_type r) s1) as [k|]; [|done].
    destruct (head _) as [w|] eqn:Hw; [|done].
    assert (Hty : waiter_type w = next).
    { destruct Hf1 as (_ & Hall & _). rewrite Forall_forall in Hall.
      apply Hall. apply head_Some_elem_of in Hw.
      by apply list_elem_of_filter in Hw as [_ ?]. }
    rewrite Hty. destruct (getGridForPage _ _); [|done].
    by apply splice_next_forward.
  - by destruct (find_request id s).
  - destruct (idle_callbacks s !! i) as [d|]; [|done].
    destruct (fetchPage_fields d
                (set_idle_callbacks (delete i (idle_callbacks s)) s))
      as (_ & _ & _ & Hsu & _ & Hrp & Hj & _).
    unfold forward, prepended in *. by rewrite Hrp, Hsu, Hj.
  - done.
Qed.

Lemma run_forward (s : state) (es : list event) :
  forward s → forward_only es → forward (run s es).
Proof.
  revert s. induction es as [|e es IH]; intros s Hf Hes; [done|].
  apply Forall_cons in Hes as [He Hes]. simpl. apply IH; [|done].
  by apply step_forward.
Qed.

Lemma connected_forward (m : markup) : forward (connectedCallback (mount m)).
Proof.
  unfold connectedCallback.
  set (s0 := storeImageRatioSettings (mount m)).
  assert (H0 : forward s0).
  { unfold s0, storeImageRatioSettings. by destruct (cardGallery_ratio _). }
  destruct (fetchPage_fields next s0) as (_ & _ & _ & Hsu & _ & Hrp & Hj & _).
  destruct (fetchPage_fields previous (fetchPage next s0))
    as (_ & _ & _ & Hsu' & _ & Hrp' & Hj' & _).
  assert (H2 : forward (fetchPage previous (fetchPage next s0))).
  { unfold forward, prepended in *. by rewrite Hrp', Hsu', Hj', Hrp, Hsu, Hj. }
  unfold observeViewMore. by destruct (_ || _).
Qed.

Lemma all_appended (l : list (direction * jsnum * list card)) :
  splices_of previous l = [] →
  l = (λ e, (next, e.1, e.2)) <$> splices_of next l.
Proof.
  induction l as [|[[d p] els] l IH]; [done|].
  unfold splices_of in *. simpl. destruct d; simpl; [|done].
  intros Hp. f_equal. by apply IH.
Qed.

Lemma journal_appended (s : state) :
  Forall (λ e, pages s !! e.1.2 = Some (GridOf e.2)) (spliced s) →
  Forall (λ e, pages s !! e.1 = Some (GridOf e.2)) (appended s).
Proof.
  unfold appended, splices_of. intros Hj.
  pose proof (proj1 (Forall_forall _ _) Hj) as Hall.
  apply Forall_forall. intros e He.
  apply list_elem_of_omap in He as ([[d p] els] & Hin & Heq).
  simpl in Heq. destruct (decide (d = next)); [|done].
  injection Heq as <-. apply (Hall _ Hin).
Qed.

Lemma StronglySorted_lt_NoDup (zs : list Z) :
  StronglySorted Z.lt zs → NoDup zs.
Proof.
  induction 1 as [|z zs _ IH Hz]; constructor; [|done].
  rewrite Forall_forall in Hz. intros Hin. specialize (Hz z Hin). lia.
Qed.

(** C1, as the code has it: in a life of the element on a page served to
    the contract, with page numbers in the range where adding one is exact,
    every completed fetch answering its request (a grid with cards, tagged
    with the page asked for) and only the sentinel after the list met, every splice is an append; the live grid is the served
    cards followed by the cards of the appended pages, each page's cards
    being the list held in the cache for that page, in its order; the page
    numbers of the appends increase strictly, so no page is spliced twice;
    and the cards of the grid are in non-decreasing page order. *)
Theorem forward_appends_in_page_order (m : markup) (n L : Z)
    (es : list event) :
  served m n L → safe n → safe L →
  faithful (connectedCallback (mount m)) es →
  forward_only es →
  ∃ zs : list Z,
    fst <$> appended (lifetime m es) = Int <$> zs ∧
    StronglySorted Z.lt zs ∧ NoDup zs ∧
    spliced (lifetime m es) =
      (λ e, (next, e.1, e.2)) <$> appended (lifetime m es) ∧
    cards (lifetime m es) =
      served_cards m ++ concat (snd <$> appended (lifetime m es)) ∧
    Forall (λ e, pages (lifetime m es) !! e.1 = Some (GridOf e.2))
      (appended (lifetime m es)) ∧
    StronglySorted page_le (cards (lifetime m es)).
Proof.
  intros Hm _ _ Hf Hfwd.
  destruct (lifetime_invariant m n L es Hm Hf) as (lo & hi & Hs & _).
  pose proof (run_forward _ es (connected_forward m) Hfwd) as (_ & _ & Hpre).
  fold (lifetime m es) in Hpre.
  destruct Hs as [_ _ _ _ _ Hsort _ _ _ _ Hcards Hjour (zs & Hzs & Hinc & _)].
  exists zs. split_and!; try done.
  - by apply StronglySorted_lt_NoDup.
  - by apply all_appended.
  - by rewrite Hcards, Hpre.
  - by apply journal_appended.
Qed.

(** *** Two renders waiting for one fetch *)







Lemma served_sectionId (m : markup) (n L : Z) (s : state) :
  served m n L → element s = m → ∃ id, sectionId s = Normal id.
Proof.
  intros [(id & Hid & Hne) _ _ _ _] He. exists id.
  unfold sectionId. rewrite He, Hid.
  by rewrite (proj2 (String.eqb_neq id "") Hne).
Qed.




End WithViewport.

Import Sample.

Lemma page2of3_served : served page2of3 2 3.
Proof.
  constructor.
  - eexists. split; [reflexivity|discriminate].
  - eexists. split; reflexivity.
  - split; reflexivity.
  - discriminate.
  - repeat constructor.
Defined.

Lemma one_fetch_in_flight_witness :
  (length (requests_of next
     (in_flight (existence column unanchored page2of3
        [Browser (Intersect next true);
         Browser (FetchDone 0 (GridOf cards_of_page3));
         Browser (FetchDone 1 (GridOf cards_of_page1)); Browser (Idle 0);
         Browser (Intersect previous true)]))) ≤ 1)%nat.
Proof.
  apply (one_fetch_in_flight column unanchored page2of3 2 3).
  - exact page2of3_served.
  - unfold safe. lia.
  - unfold safe. lia.
  - refine (bool_decide_unpack _ _). vm_compute. exact I.
  - refine (bool_decide_unpack _ _). vm_compute. exact I.
Defined.

(** C3 as stated fails for an element that is connected again:
    [connectedCallback] fetches both directions whatever is in flight, so an
    element taken out of the document and put back while its two first
    fetches are unresolved has two requests for the next page and two for
    the previous one in flight. *)
Lemma C3_reconnection_fetches_again :
  let s := existence column unanchored page2of3
             [Browser Disconnect; Connect] in
  served page2of3 2 3 ∧
  (λ r, (request_id r, request_page r)) <$> requests_of next (in_flight s) =
    [(0%nat, Int 3); (2%nat, Int 3)] ∧
  (λ r, (request_id r, request_page r)) <$> requests_of previous (in_flight s) =
    [(1%nat, Int 1); (3%nat, Int 1)] ∧
  (length (issued s) = 4)%nat ∧ spliced s = [].
Proof.
  split; [exact page2of3_served|]. split_and!; vm_compute; reflexivity.
Qed.

Lemma forward_appends_witness :
  ∃ zs : list Z,
    fst <$> appended (lifetime column unanchored page2of3
                        [Intersect next true; FetchDone 0 (GridOf cards_of_page3);
                         Idle 0; Intersect next true]) = Int <$> zs ∧
    StronglySorted Z.lt zs ∧ NoDup zs ∧
    spliced (lifetime column unanchored page2of3
               [Intersect next true; FetchDone 0 (GridOf cards_of_page3);
                Idle 0; Intersect next true]) =
      (λ e, (next, e.1, e.2)) <$>
        appended (lifetime column unanchored page2of3
                    [Intersect next true; FetchDone 0 (GridOf cards_of_page3);
                     Idle 0; Intersect next true]) ∧
    cards (lifetime column unanchored page2of3
             [Intersect next true; FetchDone 0 (GridOf cards_of_page3);
              Idle 0; Intersect next true]) =
      served_cards page2of3 ++
      concat (snd <$> appended (lifetime column unanchored page2of3
                [Intersect next true; FetchDone 0 (GridOf cards_of_page3);
                 Idle 0; Intersect next true])) ∧
    Forall (λ e, pages (lifetime column unanchored page2of3
                          [Intersect next true;
                           FetchDone 0 (GridOf cards_of_page3);
                           Idle 0; Intersect next true]) !! e.1 =
                 Some (GridOf e.2))
      (appended (lifetime column unanchored page2of3
                   [Intersect next true; FetchDone 0 (GridOf cards_of_page3);
                    Idle 0; Intersect next true])) ∧
    StronglySorted page_le
      (cards (lifetime column unanchored page2of3
                [Intersect next true; FetchDone 0 (GridOf cards_of_page3);
                 Idle 0; Intersect next true])).
Proof.
  apply (forward_appends_in_page_order column unanchored page2of3 2 3).
  - exact page2of3_served.
  - unfold safe. lia.
  - unfold safe. lia.
  - refine (bool_decide_unpack _ _). vm_compute. exact I.
  - repeat constructor; discriminate.
Defined.

(** The sample life: the cards of page 3 come after those of page 2. *)
Example forward_sample_cards :
  cards (lifetime column unanchored page2of3
           [Intersect next true; FetchDone 0 (GridOf cards_of_page3);
            Idle 0; Intersect next true]) =
    [on_page "2" "c"; on_page "2" "d"; on_page "3" "e"; on_page "3" "f"].
Proof. reflexivity. Qed.



(** C1 as stated fails when the section renderer does not answer with the
    cards of the page asked for.  When the cards appended for page 3 say
    page 2, the page after the last card is 3 again, it is in the cache, and
    the next intersection appends the same cards a second time.  And when
    the grid of page 3 comes without cards, the last card stays on page 2:
    page 3 is spliced, asked for again by the idle callback, and spliced
    again. *)
Lemma C1_page_is_appended_twice :
  let es := [FetchDone 0 (GridOf [on_page "2" "x"]);
             Intersect next true; Intersect next true] in
  let s := lifetime column unanchored page2of3 es in
  let es' := [FetchDone 0 (GridOf []); Intersect next true; Idle 0;
              FetchDone 2 (GridOf []); Intersect next true] in
  let s' := lifetime column unanchored page2of3 es' in
  served page2of3 2 3 ∧
  forward_only es ∧
  spliced s = [(next, Int 3, [on_page "2" "x"]);
               (next, Int 3, [on_page "2" "x"])] ∧
  card_content <$> cards s = ["c"; "d"; "x"; "x"]%string ∧
  forward_only es' ∧
  spliced s' = [(next, Int 3, []); (next, Int 3, [])] ∧
  request_page <$> requests_of next (issued s') = [Int 3; Int 3].
Proof.
  cbv zeta. split; [exact page2of3_served|].
  split_and!; try (repeat constructor; discriminate); vm_compute; reflexivity.
Qed.

End Lifetime.

(* ===================================================================== *)
(** ** Whatever the markup, the browser and the server *)
(* ===================================================================== *)

Module Trace.

Import Paginated Contract Invariant Journal Reconnection JSFacts Guards Lifetime.

(** *** The URL of a page *)

Lemma searchParams_get_set_other (name k value : string)
    (ps : list (string * string)) :
  k ≠ name →
  searchParams_get k (searchParams_set name value ps) = searchParams_get k ps.
Proof.
  intros Hk. unfold searchParams_get.
  induction ps as [|[k' v'] ps IH]; simpl.
  - by rewrite filter_cons_False by (simpl; congruence).
  - destruct (decide (k' = name)) as [->|Hk'].
    + rewrite !filter_cons_False by (simpl; congruence).
      rewrite list_filter_filter.
      rewrite (list_filter_iff _ (λ kv : string * string, kv.1 = k)); [done|].
      intros [a b]; simpl. split; [tauto|]. intros ->. done.
    + destruct (decide (k' = k)) as [->|Hkk].
      * by rewrite !filter_cons_True by done.
      * by rewrite !filter_cons_False by (simpl; congruence).
Qed.

Lemma getPage_addressed (s : state) (d : direction) (p : pageinfo) :
  getPage s d = Some p → addressed (location s) (page p) (url p).
Proof.
  unfold getPage. destruct (cards s); [done|].
  destruct (targetCard s d); [|done]. intros [= <-]. simpl.
  split_and!; try done.
  - apply searchParams_get_set.
  - intros k Hk. by apply searchParams_get_set_other.
Qed.

Lemma addressed_from (here mid : URL) (p : jsnum) (u : URL) :
  url_base mid = url_base here →
  (∀ k, k ≠ "page"%string →
        searchParams_get k (url_search mid) = searchParams_get k (url_search here)) →
  addressed mid p u → addressed here p u.
Proof.
  intros Hb Hk (? & ? & ? & Hu). split_and!; try congruence.
  intros k Hne. by rewrite Hu, Hk.
Qed.

Lemma shouldUsePage_in_bounds (s : state) (p : pageinfo) :
  shouldUsePage s (Some p) = in_bounds (element s) (page p).
Proof. done. Qed.

(** In whole numbers. *)
Lemma in_bounds_Int (m : markup) (z L : Z) :
  getLastPage (mount m) = Int L →
  in_bounds m (Int z) = true ↔ 1 ≤ z ≤ L.
Proof.
  intros HL. unfold in_bounds.
  rewrite (shouldUsePage_spec (mount m) _ L HL). simpl. split.
  - intros [|(n & [= <-] & ?)]; done.
  - intros ?. right. by exists z.
Qed.

(** *** The record is kept by every operation *)

Lemma filter_subseteq {A} (P : A → Prop) `{∀ x, Decision (P x)} (l : list A) :
  filter P l ⊆ l.
Proof. by intros x [_ ?]%list_elem_of_filter. Qed.

Lemma journal_weaken (m : markup) (c c' : nat) (s : state) :
  (c' ≤ c)%nat → journal m c s → journal m c' s.
Proof. intros Hc []. constructor; try done. lia. Qed.

Lemma journal_based (m : markup) (c : nat) (s : state) :
  journal m c s →
  url_base (location s) = url_base (href m) ∧
  ∀ k, k ≠ "page"%string →
       searchParams_get k (url_search (location s)) =
       searchParams_get k (url_search (href m)).
Proof.
  intros []. rewrite journal_location0.
  destruct (last (history s)) as [u|] eqn:Hu; simpl; [|done].
  apply last_Some in Hu as (h & Hh). rewrite Hh in journal_history0.
  apply Forall2_app_inv_l in journal_history0 as (? & l2 & _ & Hl2 & _).
  apply Forall2_cons_inv_l in Hl2 as (e & ? & ((? & ? & ? & ?) & _) & _ & _).
  done.
Qed.

Lemma journal_frame (m : markup) (c : nat) (s s' : state) :
  journal m c s →
  element s' = element s → location s' = location s →
  history s' = history s → issued s' = issued s →
  in_flight s' ⊆ in_flight s → suspended s' ⊆ suspended s →
  spliced s' = spliced s → frame_callbacks s' = frame_callbacks s →
  (length (idle_callbacks s') ≤ length (idle_callbacks s))%nat →
  pages s' = pages s →
  journal m c s'.
Proof.
  intros [] He Hl Hh Hi Hf Hsu Hj Hfr Hid Hp.
  constructor; rewrite ?He, ?Hl, ?Hh, ?Hi, ?Hj, ?Hfr, ?Hp; try done.
  - intros r Hr. auto.
  - rewrite Forall_forall in journal_suspended0 |- *. auto.
  - lia.
Qed.


Lemma journal_page (m : markup) (c : nat) (s : state) (d : direction)
    (p : pageinfo) :
  journal m c s → getPage s d = Some p → shouldUsePage s (Some p) = true →
  in_bounds m (page p) = true ∧ addressed (href m) (page p) (url p).
Proof.
  intros Hj Hp Hg. destruct (journal_based m c s Hj) as [Hb Hk].
  rewrite shouldUsePage_in_bounds, (journal_element _ _ _ Hj) in Hg.
  split; [done|].
  apply (addressed_from (href m) (location s)); [done..|].
  by apply (getPage_addressed s d).
Qed.

Lemma fetchPage_journal (m : markup) (c : nat) (d : direction) (s : state) :
  journal m (S c) s → journal m c (fetchPage d s).
Proof.
  intros Hj.
  destruct (fetchPage_cases d s)
    as [->|[(msg & ->)|(p & id & Hp & Hg & Hid & ->)]].
  - apply (journal_weaken m (S c)); [lia|done].
  - apply (journal_weaken m (S c)); [lia|].
    by apply (journal_frame m (S c) s).
  - destruct (journal_page m _ s d p Hj Hp Hg) as [Hb Had].
    unfold sectionId in Hid.
    destruct Hj as [He Hl Hi Hf Hsu Hh Hfr Hfe Hc Hsp].
    rewrite He in Hid.
    assert (Hsec : section_id m = Some id ∧ id ≠ ""%string).
    { destruct (section_id m) as [i|]; [|done].
      destruct (String.eqb i "") eqn:Hi0; [done|]. injection Hid as ->.
      split; [done|]. by apply String.eqb_neq. }
    destruct Hsec as [Hsec Hne].
    constructor; simpl; try done.
    + apply Forall_app. split; [done|]. by apply Forall_singleton.
    + intros r. rewrite !elem_of_app. intros [Hr|Hr]; [left; by apply Hf|by right].
    + rewrite length_app. simpl. lia.
    + intros q Hq. rewrite fmap_app. apply elem_of_app. left. by apply Hc.
Qed.

Lemma suspend_journal (m : markup) (c : nat) (d : direction) (p : pageinfo)
    (s : state) :
  journal m c s → getPage s d = Some p → shouldUsePage s (Some p) = true →
  journal m c (suspend d p s).
Proof.
  intros Hj Hp Hg. destruct (journal_page m _ s d p Hj Hp Hg) as [Hb Had].
  destruct Hj as [He Hl Hi Hf Hsu Hh Hfr Hfe Hc Hsp].
  destruct d; constructor; simpl; try done;
    apply Forall_app; (split; [done|]); by apply Forall_singleton.
Qed.

Lemma stored_journal (m : markup) (c : nat) (r : request) (body : html)
    (s : state) :
  journal m c s → r ∈ issued s → journal m c (stored r body s).
Proof.
  intros [He Hl Hi Hf Hsu Hh Hfr Hfe Hc Hsp] Hr.
  unfold stored. destruct (request_type r); constructor; simpl; try done.
  all: try (intros q [<-|[_ Hq]]%lookup_insert_is_Some;
            [by apply list_elem_of_fmap_2|by apply Hc]).
  all: eapply Forall_impl; [exact Hsp|]; simpl; intros e He';
    apply lookup_insert_is_Some';  by right.
Qed.

Section WithViewport.

Variable document_top : list card → card → Z.
Variable scroll_after_layout : list card → Z → Z.

Local Abbreviation splice_page := (splice_page document_top scroll_after_layout).
Local Abbreviation renderPage := (renderPage document_top scroll_after_layout).
Local Abbreviation fetched := (fetched document_top scroll_after_layout).
Local Abbreviation step := (step document_top scroll_after_layout).
Local Abbreviation run := (run document_top scroll_after_layout).
Local Abbreviation lifetime := (lifetime document_top scroll_after_layout).
Local Abbreviation faithful := (faithful document_top scroll_after_layout).
Local Abbreviation fetched_unfold :=
  (fetched_unfold document_top scroll_after_layout).
Local Abbreviation splice_fields :=
  (splice_fields document_top scroll_after_layout).

Lemma splice_told (d : direction) (p : pageinfo) (els : list card)
    (s : state) :
  location (splice_page d p els s) = url p ∧
  history (splice_page d p els s) = history s ++ [url p] ∧
  frame_callbacks (splice_page d p els s) = S (frame_callbacks s).
Proof.
  destruct s; destruct d; [by repeat split|].
  unfold Paginated.splice_page, prepend_page; simpl.
  match goal with |- context [head ?l] => destruct l end; by repeat split.
Qed.

Lemma splice_journal (m : markup) (c : nat) (d : direction) (p : pageinfo)
    (els : list card) (s : state) :
  journal m c s →
  in_bounds m (page p) = true → addressed (href m) (page p) (url p) →
  is_Some (pages s !! page p) →
  journal m c (splice_page d p els s).
Proof.
  intros [He Hl Hi Hf Hsu Hh Hfr Hfe Hc Hsp] Hb Had Hpg.
  destruct (splice_fields d p els s)
    as (He' & _ & Hp' & Hi' & Hsu' & _ & _ & _ & Hj' & Hid' & Hiss' & _).
  destruct (splice_told d p els s) as (Hl' & Hh' & Hfr').
  constructor;
    rewrite ?He', ?Hp', ?Hi', ?Hsu', ?Hj', ?Hid', ?Hiss', ?Hl', ?Hh', ?Hfr';
    try done.
  - by rewrite last_snoc.
  - apply Forall2_app; [done|]. by apply Forall2_cons.
  - rewrite length_app. simpl. lia.
  - rewrite !length_app. simpl. lia.
  - apply Forall_app. split; [done|]. by apply Forall_singleton.
Qed.

Lemma renderPage_journal (m : markup) (c : nat) (d : direction) (s : state) :
  journal m c s → journal m c (renderPage d s).
Proof.
  intros Hj. unfold Paginated.renderPage.
  destruct (grid_last_page (element s)); [|done].
  destruct (getPage s d) as [p|] eqn:Hp; [|done].
  destruct (shouldUsePage s (Some p)) eqn:Hg; [|done]. simpl.
  destruct (journal_page m _ s d p Hj Hp Hg) as [Hb Had].
  destruct (getGridForPage s (page p)) as [els|] eqn:Hgrid.
  - apply splice_journal; try done.
    apply getGridForPage_Some in Hgrid. by rewrite Hgrid.
  - by apply suspend_journal.
Qed.

Lemma fetched_journal (m : markup) (c : nat) (r : request) (body : html)
    (s : state) :
  journal m c s → r ∈ issued s → journal m c (fetched r body s).
Proof.
  intros Hj Hr. pose proof (stored_journal m c r body s Hj Hr) as Hj1.
  rewrite fetched_unfold.
  destruct (resolver (request_type r) s) as [k|]; [|done].
  destruct (head _) as [w|] eqn:Hw; [|done].
  destruct (stored_fields r body s)
    as (_ & _ & _ & _ & Hsu & _).
  assert (Hj2 : journal m c (awake k (stored r body s))).
  { apply (journal_frame m c (stored r body s)); try done.
    apply filter_subseteq. }
  destruct (getGridForPage _ _) as [els|] eqn:Hgrid; [|done].
  apply head_Some_elem_of in Hw. apply list_elem_of_filter in Hw as [_ Hw].
  pose proof (journal_suspended _ _ _ Hj) as Hall.
  rewrite Forall_forall in Hall. destruct (Hall w Hw) as [Hb Had].
  apply splice_journal; try done.
  apply getGridForPage_Some in Hgrid. change (pages (awake k (stored r body s)))
    with (pages (stored r body s)). by rewrite Hgrid.
Qed.

Lemma step_journal (m : markup) (s : state) (e : event) :
  journal m 0 s → journal m 0 (step s e).
Proof.
  intros Hj. destruct e as [target b|id body|id|i|]; simpl.
  - destruct (_ && _); [|done]. by apply renderPage_journal.
  - destruct (find_request id s) as [r|] eqn:Hr; [|done].
    apply find_request_elem in Hr as [Hr _].
    apply fetched_journal.
    + apply (journal_frame m 0 s); try done. apply filter_subseteq.
    + by apply (journal_in_flight _ _ _ Hj).
  - destruct (find_request id s) as [r|]; [|done].
    apply (journal_frame m 0 s); try done. apply filter_subseteq.
  - destruct (idle_callbacks s !! i) as [d|] eqn:Hi; [|done].
    apply fetchPage_journal.
    destruct Hj as [He Hl His Hf Hsu Hh Hfr Hfe Hc Hsp].
    constructor; simpl; try done.
    rewrite length_delete by eauto.
    apply lookup_lt_Some in Hi. lia.
  - by apply (journal_frame m 0 s).
Qed.

Lemma run_journal (m : markup) (s : state) (es : list event) :
  journal m 0 s → journal m 0 (run s es).
Proof.
  revert s. induction es as [|e es IH]; intros s Hj; [done|].
  simpl. apply IH. by apply step_journal.
Qed.

Lemma connected_journal (m : markup) : journal m 0 (connectedCallback (mount m)).
Proof.
  unfold connectedCallback.
  assert (H0 : journal m 2 (mount m)).
  { constructor; simpl; try done.
    - intros p [x Hx]. by rewrite lookup_empty in Hx. }
  assert (H1 : journal m 2 (storeImageRatioSettings (mount m))).
  { unfold storeImageRatioSettings. destruct (cardGallery_ratio _); [|done].
    by apply (journal_frame m 2 (mount m)). }
  apply (fetchPage_journal m 1 next) in H1.
  apply (fetchPage_journal m 0 previous) in H1.
  unfold observeViewMore. destruct (_ || _); [done|].
  by eapply journal_frame.
Qed.

Lemma lifetime_journal (m : markup) (es : list event) :
  journal m 0 (lifetime m es).
Proof. apply run_journal, connected_journal. Qed.

(** *** Nothing is taken back *)

Lemma extends_refl (s : state) : extends s s.
Proof. constructor; try done. by exists [], []; rewrite app_nil_r. Qed.

Lemma extends_trans (s1 s2 s3 : state) :
  extends s1 s2 → extends s2 s3 → extends s1 s3.
Proof.
  intros [He1 (b1 & a1 & Hc1) Hp1 Hh1 Hj1 Hi1 Hf1]
         [He2 (b2 & a2 & Hc2) Hp2 Hh2 Hj2 Hi2 Hf2].
  constructor.
  - congruence.
  - exists (b2 ++ b1), (a1 ++ a2). rewrite Hc2, Hc1. by rewrite <- !app_assoc.
  - auto.
  - by etrans.
  - by etrans.
  - by etrans.
  - lia.
Qed.

Lemma extends_frame (s s' : state) :
  element s' = element s → cards s' = cards s → pages s' = pages s →
  history s' = history s → spliced s' = spliced s → issued s' = issued s →
  (fresh s ≤ fresh s')%nat →
  extends s s'.
Proof.
  intros He Hc Hp Hh Hj Hi Hf.
  constructor; rewrite ?He, ?Hc, ?Hp, ?Hh, ?Hj, ?Hi; try done.
  by exists [], []; rewrite app_nil_r.
Qed.

Lemma fetchPage_extends (d : direction) (s : state) : extends s (fetchPage d s).
Proof.
  destruct (fetchPage_cases d s)
    as [->|[(msg & ->)|(p & id & _ & _ & _ & ->)]].
  - apply extends_refl.
  - by apply extends_frame.
  - constructor; simpl; try done.
    + by exists [], []; rewrite app_nil_r.
    + by apply prefix_app_r.
    + lia.
Qed.

Lemma suspend_extends (d : direction) (p : pageinfo) (s : state) :
  extends s (suspend d p s).
Proof. destruct d; apply extends_frame; simpl; try done; lia. Qed.

Lemma stored_extends (r : request) (body : html) (s : state) :
  extends s (stored r body s).
Proof.
  unfold stored. destruct (request_type r); constructor; simpl; try done.
  all: try (by exists [], []; rewrite app_nil_r).
  all: intros p Hp; apply lookup_insert_is_Some'; by right.
Qed.

Lemma splice_extends (d : direction) (p : pageinfo) (els : list card)
    (s : state) :
  extends s (splice_page d p els s).
Proof.
  destruct (splice_fields d p els s)
    as (He' & Hc' & Hp' & _ & _ & Hf' & _ & _ & Hj' & _ & Hiss' & _).
  destruct (splice_told d p els s) as (_ & Hh' & _).
  constructor; rewrite ?He', ?Hp', ?Hj', ?Hiss', ?Hh', ?Hf'; try done.
  - rewrite Hc'. destruct d.
    + by exists [], els.
    + exists els, []. by rewrite app_nil_r.
  - by apply prefix_app_r.
  - by apply prefix_app_r.
Qed.

Lemma fetched_extends (r : request) (body : html) (s : state) :
  extends s (fetched r body s).
Proof.
  pose proof (stored_extends r body s) as H1.
  rewrite fetched_unfold.
  destruct (resolver (request_type r) s) as [k|]; [|done].
  destruct (head _) as [w|]; [|done].
  assert (H2 : extends s (awake k (stored r body s))).
  { apply (extends_trans _ _ _ H1). by apply extends_frame. }
  destruct (getGridForPage _ _) as [els|]; [|done].
  apply (extends_trans _ _ _ H2), splice_extends.
Qed.

Lemma step_extends (s : state) (e : event) : extends s (step s e).
Proof.
  destruct e as [target b|id body|id|i|]; simpl.
  - destruct (_ && _); [|apply extends_refl].
    destruct (renderPage_forms document_top scroll_after_layout target s)
      as [->|[(p & els & ->)|(p & ->)]].
    + apply extends_refl.
    + apply splice_extends.
    + apply suspend_extends.
  - destruct (find_request id s) as [r|]; [|apply extends_refl].
    apply (extends_trans _ (drop_request id s)); [by apply extends_frame|].
    apply fetched_extends.
  - destruct (find_request id s) as [r|]; [|apply extends_refl].
    by apply extends_frame.
  - destruct (idle_callbacks s !! i) as [d|]; [|apply extends_refl].
    eapply extends_trans; [|apply fetchPage_extends]. by apply extends_frame.
  - by apply extends_frame.
Qed.

Lemma run_extends (s : state) (es : list event) : extends s (run s es).
Proof.
  revert s. induction es as [|e es IH]; intros s; [apply extends_refl|].
  simpl. eapply extends_trans; [apply step_extends|apply IH].
Qed.

(** *** Without an observer *)

Lemma fetchPage_unobserved (m : markup) (d : direction) (s : state) :
  infinityScrollObserver s = false ∧ suspended s = [] ∧
  resolveNextPagePromise s = None ∧ resolvePreviousPagePromise s = None ∧
  idle_callbacks s = [] ∧ cards s = served_cards m ∧ spliced s = [] ∧
  history s = [] →
  infinityScrollObserver (fetchPage d s) = false ∧
  suspended (fetchPage d s) = [] ∧
  resolveNextPagePromise (fetchPage d s) = None ∧
  resolvePreviousPagePromise (fetchPage d s) = None ∧
  idle_callbacks (fetchPage d s) = [] ∧
  cards (fetchPage d s) = served_cards m ∧ spliced (fetchPage d s) = [] ∧
  history (fetchPage d s) = [] ∧
  (length (issued (fetchPage d s)) ≤ S (length (issued s)))%nat.
Proof.
  intros H.
  destruct (fetchPage_cases d s)
    as [->|[(msg & ->)|(p & id & _ & _ & _ & ->)]]; simpl;
    rewrite ?length_app; simpl; split_and!; try apply H; lia.
Qed.

Lemma step_unobserved (m : markup) (s : state) (e : event) :
  unobserved m s → unobserved m (step s e).
Proof.
  intros [Ho Hsu Hn Hp Hid Hc Hj Hh Hi].
  destruct e as [target b|id body|id|i|]; simpl.
  - by rewrite Ho.
  - destruct (find_request id s) as [r|]; [|done].
    rewrite fetched_unfold.
    assert (Hres : resolver (request_type r) (drop_request id s) = None)
      by (by destruct (request_type r)).
    rewrite Hres. unfold stored.
    by destruct (request_type r).
  - by destruct (find_request id s).
  - by rewrite Hid, lookup_nil.
  - done.
Qed.

Lemma run_unobserved (m : markup) (s : state) (es : list event) :
  unobserved m s → unobserved m (run s es).
Proof.
  revert s. induction es as [|e es IH]; intros s H; [done|].
  simpl. apply IH. by apply step_unobserved.
Qed.

Lemma connected_unobserved (m : markup) :
  viewMorePrevious m = false ∨ viewMoreNext m = false →
  unobserved m (connectedCallback (mount m)).
Proof.
  intros Hv. unfold connectedCallback.
  set (s0 := storeImageRatioSettings (mount m)).
  assert (H0 : infinityScrollObserver s0 = false ∧ suspended s0 = [] ∧
    resolveNextPagePromise s0 = None ∧ resolvePreviousPagePromise s0 = None ∧
    idle_callbacks s0 = [] ∧ cards s0 = served_cards m ∧ spliced s0 = [] ∧
    history s0 = [] ∧ issued s0 = [] ∧ element s0 = m).
  { unfold s0, storeImageRatioSettings. by destruct (cardGallery_ratio _). }
  destruct H0 as (Ho & Hsu & Hn & Hp & Hid & Hc & Hj & Hh & Hi & He).
  destruct (fetchPage_unobserved m next s0) as (? & ? & ? & ? & ? & ? & ? & ? & Hl1);
    [done|].
  rewrite Hi in Hl1. simpl in Hl1.
  destruct (fetchPage_unobserved m previous (fetchPage next s0))
    as (? & ? & ? & ? & ? & ? & ? & ? & Hl2); [done|].
  assert (He2 : element (fetchPage previous (fetchPage next s0)) = m).
  { destruct (fetchPage_fields previous (fetchPage next s0)) as (-> & _).
    destruct (fetchPage_fields next s0) as (-> & _). done. }
  unfold observeViewMore. rewrite He2.
  assert (Hor : negb (viewMorePrevious m) || negb (viewMoreNext m) = true)
    by (destruct Hv as [-> | ->]; [done|by rewrite orb_true_r]).
  rewrite Hor. constructor; try done. lia.
Qed.

Lemma step_unobserved_issued (m : markup) (s : state) (e : event) :
  unobserved m s → issued (step s e) = issued s.
Proof.
  intros [Ho Hsu Hn Hp Hid Hc Hj Hh Hi].
  destruct e as [target b|id body|id|i|]; simpl.
  - by rewrite Ho.
  - destruct (find_request id s) as [r|]; [|done].
    rewrite fetched_unfold.
    assert (Hres : resolver (request_type r) (drop_request id s) = None)
      by (by destruct (request_type r)).
    rewrite Hres. unfold stored.
    by destruct (request_type r).
  - by destruct (find_request id s).
  - by rewrite Hid, lookup_nil.
  - done.
Qed.

Lemma run_unobserved_issued (m : markup) (s : state) (es : list event) :
  unobserved m s → issued (run s es) = issued s.
Proof.
  revert s. induction es as [|e es IH]; intros s H; [done|].
  simpl. rewrite IH by (by apply step_unobserved).
  by apply (step_unobserved_issued m).
Qed.

Lemma fetches_eq (m : markup) (es : list event) :
  viewMorePrevious m = false ∨ viewMoreNext m = false →
  issued (lifetime m es) = issued (lifetime m []).
Proof.
  intros Hv. apply (run_unobserved_issued m), connected_unobserved, Hv.
Qed.

(** *** What the record gives *)

(** X4: in any life of the element, whatever the markup, the events and the
    bodies the server sends, every request made and every page spliced into
    the grid carries a page number the test of [#shouldUsePage] accepts; when
    the last page is the whole number [L], a page number that is a whole
    number lies between 1 and [L]. *)
Theorem requests_and_splices_in_bounds (m : markup) (es : list event) :
  Forall (λ r, in_bounds m (request_page r) = true) (issued (lifetime m es)) ∧
  Forall (λ e, in_bounds m e.1.2 = true) (spliced (lifetime m es)) ∧
  ∀ L, getLastPage (mount m) = Int L →
    Forall (λ r, ∀ z, request_page r = Int z → 1 ≤ z ≤ L)
      (issued (lifetime m es)) ∧
    Forall (λ e, ∀ z, e.1.2 = Int z → 1 ≤ z ≤ L) (spliced (lifetime m es)).
Proof.
  destruct (lifetime_journal m es) as [_ _ Hi _ _ Hh _ _ _ _].
  assert (H1 : Forall (λ r, in_bounds m (request_page r) = true)
                 (issued (lifetime m es))).
  { eapply Forall_impl; [exact Hi|]. by intros r (? & _). }
  assert (H2 : Forall (λ e, in_bounds m e.1.2 = true) (spliced (lifetime m es))).
  { apply Forall2_Forall_r with (Q := λ e, in_bounds m e.1.2 = true) in Hh;
      [done|].
    apply Forall_forall. by intros u _ e [_ ?]. }
  split_and!; [done|done|]. intros L HL. split.
  - eapply Forall_impl; [exact H1|]. simpl. intros r Hb z Hz.
    rewrite Hz in Hb. by apply (in_bounds_Int m z L HL).
  - eapply Forall_impl; [exact H2|]. simpl. intros e Hb z Hz.
    rewrite Hz in Hb. by apply (in_bounds_Int m z L HL).
Qed.

(** X5: every request of a life of the element names the section id of the
    element, which is not empty, and asks for the address of the document
    as it was on arrival with the page parameter set to the page number, the
    other parameters as they were and no fragment. *)
Theorem requests_name_section_and_page (m : markup) (es : list event) :
  Forall (λ r, section_id m = Some (request_sectionId r) ∧
               request_sectionId r ≠ ""%string ∧
               addressed (href m) (request_page r) (request_url r))
    (issued (lifetime m es)).
Proof.
  destruct (lifetime_journal m es) as [_ _ Hi _ _ _ _ _ _ _].
  eapply Forall_impl; [exact Hi|]. by intros r (_ & ? & ? & ?).
Qed.

(** X6: the history entries pushed in a life of the element are, one for
    one and in order, the addresses of the pages spliced into the grid; the
    address bar shows that of the last splice (or the address on arrival);
    and one animation frame was asked for per splice. *)
Theorem history_follows_splices (m : markup) (es : list event) :
  Forall2 (λ u e, addressed (href m) e.1.2 u)
    (history (lifetime m es)) (spliced (lifetime m es)) ∧
  location (lifetime m es) = default (href m) (last (history (lifetime m es))) ∧
  frame_callbacks (lifetime m es) = length (spliced (lifetime m es)).
Proof.
  destruct (lifetime_journal m es) as [_ Hl _ _ _ Hh Hf _ _ _].
  split_and!; [|done..].
  eapply Forall2_impl; [exact Hh|]. by intros u e [? _].
Qed.

(** *** The requests of an element connected more than once *)

Lemma fetchPage_budget (d : direction) (s : state) :
  (length (issued (fetchPage d s)) ≤ S (length (issued s)))%nat ∧
  idle_callbacks (fetchPage d s) = idle_callbacks s ∧
  spliced (fetchPage d s) = spliced s.
Proof.
  destruct (fetchPage_fields d s) as (_ & _ & _ & _ & _ & _ & Hsp & Hid & _).
  split; [|done].
  destruct (fetchPage_cases d s)
    as [->|[(msg & ->)|(p & id & _ & _ & _ & ->)]]; simpl; [lia..|].
  rewrite length_app. simpl. lia.
Qed.

Lemma splice_budget (d : direction) (p : pageinfo) (els : list card)
    (s : state) :
  issued (splice_page d p els s) = issued s ∧
  length (idle_callbacks (splice_page d p els s)) =
    S (length (idle_callbacks s)) ∧
  length (spliced (splice_page d p els s)) = S (length (spliced s)).
Proof.
  destruct (splice_fields d p els s)
    as (_ & _ & _ & _ & _ & _ & _ & _ & -> & -> & -> & _).
  rewrite !length_app. simpl. split_and!; [done|lia..].
Qed.

(** A step makes a request only for an idle callback it takes, and leaves
    an idle callback only for a page it splices. *)
Lemma step_budget (s : state) (e : event) :
  (length (issued (step s e)) + length (idle_callbacks (step s e)) +
   length (spliced s)
   ≤ length (issued s) + length (idle_callbacks s) +
     length (spliced (step s e)))%nat.
Proof.
  destruct e as [target b|id body|id|i|]; simpl.
  - destruct (_ && _); [|lia].
    destruct (renderPage_forms document_top scroll_after_layout target s)
      as [->|[(p & els & ->)|(p & ->)]]; [lia|..].
    + destruct (splice_budget target p els s) as (-> & -> & ->). lia.
    + destruct (suspend_fields target p s)
        as (_ & _ & _ & _ & _ & _ & -> & -> & -> & _). lia.
  - destruct (find_request id s) as [r|]; [|lia].
    rewrite fetched_unfold.
    assert (Hst : ∀ k,
      issued (awake k (stored r body (drop_request id s))) = issued s ∧
      idle_callbacks (awake k (stored r body (drop_request id s))) =
        idle_callbacks s ∧
      spliced (awake k (stored r body (drop_request id s))) = spliced s ∧
      issued (stored r body (drop_request id s)) = issued s ∧
      idle_callbacks (stored r body (drop_request id s)) = idle_callbacks s ∧
      spliced (stored r body (drop_request id s)) = spliced s).
    { intros k. destruct s, r as [? [] ? ? ?]; by split_and!. }
    destruct (resolver _ _) as [k|];
      [|destruct (Hst 0%nat) as (_ & _ & _ & -> & -> & ->); lia].
    destruct (head _) as [w|];
      [|destruct (Hst 0%nat) as (_ & _ & _ & -> & -> & ->); lia].
    destruct (Hst k) as (Hi & Hd & Hsp & _).
    destruct (getGridForPage _ _) as [els|]; [|rewrite Hi, Hd, Hsp; lia].
    destruct (splice_budget (waiter_type w) (waiter_page w) els
                (awake k (stored r body (drop_request id s))))
      as (-> & -> & ->).
    rewrite Hi, Hd, Hsp. lia.
  - destruct (find_request id s); simpl; lia.
  - destruct (idle_callbacks s !! i) as [d|] eqn:Hi; [|lia].
    destruct (fetchPage_budget d
                (set_idle_callbacks (delete i (idle_callbacks s)) s))
      as (Hiss & -> & ->). simpl in *.
    rewrite length_delete by eauto. apply lookup_lt_Some in Hi. lia.
  - lia.
Qed.

Lemma connected_budget (s : state) :
  (length (issued (connectedCallback s)) ≤ 2 + length (issued s))%nat ∧
  idle_callbacks (connectedCallback s) = idle_callbacks s ∧
  spliced (connectedCallback s) = spliced s.
Proof.
  unfold connectedCallback.
  set (s0 := storeImageRatioSettings s).
  assert (H0 : issued s0 = issued s ∧ idle_callbacks s0 = idle_callbacks s ∧
               spliced s0 = spliced s).
  { unfold s0, storeImageRatioSettings.
    by destruct (cardGallery_ratio (element s)). }
  destruct H0 as (Hi0 & Hd0 & Hs0).
  destruct (fetchPage_budget next s0) as (Hi1 & Hd1 & Hs1).
  destruct (fetchPage_budget previous (fetchPage next s0)) as (Hi2 & Hd2 & Hs2).
  set (s2 := fetchPage previous (fetchPage next s0)) in *.
  assert (H3 : issued (observeViewMore s2) = issued s2 ∧
               idle_callbacks (observeViewMore s2) = idle_callbacks s2 ∧
               spliced (observeViewMore s2) = spliced s2).
  { unfold observeViewMore. by destruct (_ || _). }
  destruct H3 as (-> & -> & ->).
  rewrite Hi0 in Hi1. rewrite Hd2, Hd1, Hd0, Hs2, Hs1, Hs0. split; [lia|done].
Qed.

Lemma occur_budget (os : list occurrence) (s : state) (c : nat) :
  (length (issued s) + length (idle_callbacks s) ≤ c + length (spliced s))%nat →
  let s' := foldl (occur document_top scroll_after_layout) s os in
  (length (issued s') + length (idle_callbacks s')
   ≤ c + 2 * connections os + length (spliced s'))%nat.
Proof.
  revert s c. induction os as [|[e|] os IH]; intros s c Hs; cbn [foldl occur].
  - change (connections []) with 0%nat. cbv zeta. simpl foldl. lia.
  - pose proof (step_budget s e) as He.
    change (connections (Browser e :: os)) with (connections os).
    apply IH. lia.
  - destruct (connected_budget s) as (Hi & Hd & Hsp).
    change (connections (Connect :: os)) with (S (connections os)).
    specialize (IH (connectedCallback s) (2 + c)%nat).
    cbv zeta in *. etrans; [apply IH; rewrite Hd, Hsp; lia|]. lia.
Qed.

(** X7: however often the element is connected, it makes at most two
    requests per connection more than it splices pages: the two of each
    [connectedCallback], and one per idle callback, which only a splice asks
    for. *)
Theorem fetches_bounded_by_splices (m : markup) (os : list occurrence) :
  let s := existence document_top scroll_after_layout m os in
  (length (issued s) + length (idle_callbacks s)
   ≤ 2 * S (connections os) + length (spliced s))%nat.
Proof.
  destruct (connected_budget (mount m)) as (Hi & Hd & Hsp).
  pose proof (occur_budget os (connectedCallback (mount m)) 2) as Hb.
  cbv zeta in *. unfold existence. rewrite Hd, Hsp in Hb.
  change (issued (mount m)) with (@nil request) in Hi.
  change (idle_callbacks (mount m)) with (@nil direction) in Hb.
  change (spliced (mount m)) with (@nil (direction * jsnum * list card)) in Hb.
  simpl length in *. etrans; [apply Hb; lia|]. lia.
Qed.

(** X8: in a life of the element a page is cached only when a request for it
    was made, a request in flight is one that was made, and a page spliced
    into the grid is a cached one. *)
Theorem cached_pages_were_requested (m : markup) (es : list event) :
  (∀ p, is_Some (pages (lifetime m es) !! p) →
        p ∈ request_page <$> issued (lifetime m es)) ∧
  in_flight (lifetime m es) ⊆ issued (lifetime m es) ∧
  Forall (λ e, is_Some (pages (lifetime m es) !! e.1.2) ∧
               e.1.2 ∈ request_page <$> issued (lifetime m es))
    (spliced (lifetime m es)).
Proof.
  destruct (lifetime_journal m es) as [_ _ _ Hf _ _ _ _ Hc Hs].
  split_and!; [done..|].
  eapply Forall_impl; [exact Hs|]. simpl. intros e He. split; [done|]. auto.
Qed.

(** X9: nothing is taken back in a life of the element: as it goes on, the
    cards in the grid stay where they are among the new ones, a cached page
    stays cached, and the history entries, the splices and the requests
    made so far stay as the beginning of the later ones. *)
Theorem life_only_grows (m : markup) (es es' : list event) :
  extends (lifetime m es) (lifetime m (es ++ es')).
Proof.
  unfold Paginated.lifetime, Paginated.run. rewrite foldl_app.
  apply run_extends.
Qed.

(** X10: when one of the two sentinels is missing from the markup, no
    observer is created, and in the whole life of the element no page is
    spliced, no history entry is pushed and no render waits, whatever the
    browser and the server do; the requests of [connectedCallback] (two at
    most) are the only ones made. *)
Theorem missing_sentinel_never_renders (m : markup) (es : list event) :
  viewMorePrevious m = false ∨ viewMoreNext m = false →
  infinityScrollObserver (lifetime m es) = false ∧
  cards (lifetime m es) = served_cards m ∧
  spliced (lifetime m es) = [] ∧
  history (lifetime m es) = [] ∧
  suspended (lifetime m es) = [] ∧
  issued (lifetime m es) = issued (lifetime m []) ∧
  (length (issued (lifetime m es)) ≤ 2)%nat.
Proof.
  intros Hv.
  pose proof (run_unobserved m _ es (connected_unobserved m Hv)) as Hu.
  destruct Hu as [Ho Hsu Hn Hp Hid Hc Hj Hh Hi].
  split_and!; try done.
  pose proof (fetches_eq m es Hv) as Heq. exact Heq.
Qed.

(** *** The ratio setting *)

Lemma splice_setting (d : direction) (p : pageinfo) (els : list card)
    (s : state) :
  imageRatioSetting (splice_page d p els s) = imageRatioSetting s.
Proof.
  destruct s; destruct d; [done|].
  unfold Paginated.splice_page, prepend_page; simpl.
  by match goal with |- context [head ?l] => destruct l end.
Qed.

Lemma step_setting (s : state) (e : event) :
  imageRatioSetting (step s e) = imageRatioSetting s.
Proof.
  destruct e as [target b|id body|id|i|]; simpl.
  - destruct (_ && _); [|done].
    destruct (renderPage_forms document_top scroll_after_layout target s)
      as [->|[(p & els & ->)|(p & ->)]]; [done|apply splice_setting|].
    by destruct target.
  - destruct (find_request id s) as [r|]; [|done].
    rewrite fetched_unfold.
    assert (Hst : imageRatioSetting (stored r body (drop_request id s)) =
                  imageRatioSetting s)
      by (unfold stored; by destruct (request_type r)).
    destruct (resolver _ _) as [k|]; [|done].
    destruct (head _) as [w|]; [|done].
    destruct (getGridForPage _ _) as [els|]; [|done].
    by rewrite splice_setting.
  - by destruct (find_request id s).
  - destruct (idle_callbacks s !! i) as [d|]; [|done].
    by destruct (fetchPage_cases d
                   (set_idle_callbacks (delete i (idle_callbacks s)) s))
      as [->|[(msg & ->)|(p & id & _ & _ & _ & ->)]].
  - done.
Qed.

(** X20: the ratio setting is read once, from the first gallery of the
    markup on arrival; no card spliced in later changes it, so every
    [#processNewElements] of a life of the element runs the same pass. *)
Theorem ratio_setting_is_read_once (m : markup) (es : list event)
    (dom : list Normalizer.gallery) :
  imageRatioSetting (lifetime m es) =
    match cardGallery_ratio m with Some a => a | None => None end ∧
  Normalizer.processNewElements (imageRatioSetting (lifetime m es)) dom =
    Normalizer.processNewElements (imageRatioSetting (lifetime m [])) dom.
Proof.
  assert (Hrun : ∀ s, imageRatioSetting (run s es) = imageRatioSetting s).
  { induction es as [|e es' IH]; intros s; [done|].
    simpl. by rewrite IH, step_setting. }
  assert (H0 : imageRatioSetting (connectedCallback (mount m)) =
               match cardGallery_ratio m with Some a => a | None => None end).
  { unfold connectedCallback, observeViewMore.
    set (s0 := storeImageRatioSettings (mount m)).
    assert (Hs0 : imageRatioSetting s0 =
                  match cardGallery_ratio m with Some a => a | None => None end).
    { unfold s0, storeImageRatioSettings. simpl.
      by destruct (cardGallery_ratio m). }
    assert (Hf : ∀ d s, imageRatioSetting (fetchPage d s) = imageRatioSetting s).
    { intros d s. by destruct (fetchPage_cases d s)
        as [->|[(msg & ->)|(p & id & _ & _ & _ & ->)]]. }
    destruct (_ || _); simpl; by rewrite !Hf. }
  unfold Paginated.lifetime. rewrite Hrun. simpl Paginated.run.
  by rewrite H0.
Qed.

(** *** Nothing to load *)

(** X21: a grid that arrives without cards stays as it is: [refs.cards] is
    no array, [#getPage] gives nothing, and in the whole life of the
    element no request is made, nothing is spliced and no render waits. *)
Theorem empty_grid_is_inert (m : markup) (es : list event) :
  served_cards m = [] →
  cards (lifetime m es) = [] ∧ issued (lifetime m es) = [] ∧
  spliced (lifetime m es) = [] ∧ suspended (lifetime m es) = [] ∧
  history (lifetime m es) = [] ∧ rejections (lifetime m es) = [].
Proof.
  intros Hm.
  set (inert := λ s : state,
         cards s = [] ∧ issued s = [] ∧ in_flight s = [] ∧
         idle_callbacks s = [] ∧ spliced s = [] ∧ suspended s = [] ∧
         history s = [] ∧ rejections s = []).
  assert (Hget : ∀ s d, cards s = [] → getPage s d = None).
  { intros s d Hc. unfold getPage. by rewrite Hc. }
  assert (Hstep : ∀ s e, inert s → inert (step s e)).
  { intros s e (Hc & Hi & Hf & Hid & Hj & Hsu & Hh & Hr).
    destruct e as [target b|id body|id|i|]; simpl.
    - destruct (_ && _); [|done]. unfold Paginated.renderPage.
      rewrite (Hget s target Hc). by destruct (grid_last_page _).
    - unfold find_request. by rewrite Hf.
    - unfold find_request. by rewrite Hf.
    - by rewrite Hid, lookup_nil.
    - done. }
  assert (Hrun : ∀ s, inert s → inert (run s es)).
  { induction es as [|e es' IH]; intros s Hs; [done|].
    simpl. by apply IH, Hstep. }
  assert (H0 : inert (connectedCallback (mount m))).
  { unfold connectedCallback, observeViewMore.
    set (s0 := storeImageRatioSettings (mount m)).
    assert (Hs0 : inert s0).
    { unfold s0, storeImageRatioSettings, inert.
      by destruct (cardGallery_ratio _); simpl; rewrite Hm. }
    assert (Hf : ∀ d s, inert s → fetchPage d s = s).
    { intros d s (Hc & _). unfold fetchPage. by rewrite (Hget s d Hc). }
    rewrite !Hf by (by rewrite ?Hf). by destruct (_ || _). }
  destruct (Hrun _ H0) as (Hc & Hi & _ & _ & Hj & Hsu & Hh & Hr).
  done.
Qed.

(** X22: without a section id nothing is ever loaded: each fetch
    [connectedCallback] would make is rejected by the getter before the
    request, so no request exists in the whole life of the element, no page
    is cached, nothing is spliced or pushed to the history, the cards stay
    those served, and no idle callback is asked for. *)
Theorem missing_section_id_loads_nothing (m : markup) (es : list event) :
  section_id m = None ∨ section_id m = Some ""%string →
  issued (lifetime m es) = [] ∧ pages (lifetime m es) = ∅ ∧
  spliced (lifetime m es) = [] ∧ history (lifetime m es) = [] ∧
  cards (lifetime m es) = served_cards m ∧
  idle_callbacks (lifetime m es) = [] ∧
  (length (rejections (lifetime m es)) ≤ 2)%nat.
Proof.
  intros Hm.
  set (idle := λ s : state,
         element s = m ∧ cards s = served_cards m ∧ issued s = [] ∧
         in_flight s = [] ∧ pages s = ∅ ∧ idle_callbacks s = [] ∧
         spliced s = [] ∧ history s = [] ∧ (length (rejections s) ≤ 2)%nat).
  assert (Hstep : ∀ s e, idle s → idle (step s e)).
  { intros s e (He & Hc & Hi & Hf & Hp & Hid & Hj & Hh & Hr).
    destruct e as [target b|id body|id|i|]; simpl.
    - destruct (_ && _); [|done]. unfold Paginated.renderPage.
      destruct (grid_last_page _); [|done].
      destruct (getPage s target) as [p|]; [|done].
      destruct (negb _); [done|].
      unfold getGridForPage. rewrite Hp, lookup_empty.
      by destruct target.
    - unfold find_request. by rewrite Hf.
    - unfold find_request. by rewrite Hf.
    - by rewrite Hid, lookup_nil.
    - done. }
  assert (Hrun : ∀ s, idle s → idle (run s es)).
  { induction es as [|e es' IH]; intros s Hs; [done|].
    simpl. by apply IH, Hstep. }
  assert (Hthrow : ∀ s, element s = m → ∃ msg, sectionId s = Throw msg).
  { intros s He. unfold sectionId. rewrite He.
    destruct Hm as [-> | ->]; by eexists. }
  assert (Hf : ∀ d s k, element s = m ∧ cards s = served_cards m ∧
              issued s = [] ∧ in_flight s = [] ∧ pages s = ∅ ∧
              idle_callbacks s = [] ∧ spliced s = [] ∧ history s = [] ∧
              (length (rejections s) ≤ k)%nat →
            element (fetchPage d s) = m ∧
            cards (fetchPage d s) = served_cards m ∧
            issued (fetchPage d s) = [] ∧ in_flight (fetchPage d s) = [] ∧
            pages (fetchPage d s) = ∅ ∧ idle_callbacks (fetchPage d s) = [] ∧
            spliced (fetchPage d s) = [] ∧ history (fetchPage d s) = [] ∧
            (length (rejections (fetchPage d s)) ≤ S k)%nat).
  { intros d s k (He & Hc & Hi & Hfl & Hp & Hid & Hj & Hh & Hr).
    unfold fetchPage. destruct (getPage s d) as [p|]; [|split_and!; try done; lia].
    destruct (negb _); [split_and!; try done; lia|].
    destruct (Hthrow s He) as (msg & ->). simpl.
    rewrite length_app. simpl. split_and!; try done. lia. }
  assert (H0 : idle (connectedCallback (mount m))).
  { unfold connectedCallback, observeViewMore.
    set (s0 := storeImageRatioSettings (mount m)).
    assert (Hs0 : element s0 = m ∧ cards s0 = served_cards m ∧
              issued s0 = [] ∧ in_flight s0 = [] ∧ pages s0 = ∅ ∧
              idle_callbacks s0 = [] ∧ spliced s0 = [] ∧ history s0 = [] ∧
              (length (rejections s0) ≤ 0)%nat).
    { unfold s0, storeImageRatioSettings. by destruct (cardGallery_ratio _). }
    pose proof (Hf previous _ 1%nat (Hf next s0 0%nat Hs0)) as H2.
    by destruct (_ || _). }
  destruct (Hrun _ H0) as (He & Hc & Hi & _ & Hp & Hid & Hj & Hh & Hr).
  done.
Qed.

End WithViewport.

Import Sample.

Lemma missing_sentinel_witness :
  viewMoreNext without_next_sentinel = false ∧
  infinityScrollObserver
    (lifetime column unanchored without_next_sentinel
       [Intersect next true; FetchDone 0 (GridOf cards_of_page3); Idle 0])
    = false ∧
  cards (lifetime column unanchored without_next_sentinel
           [Intersect next true; FetchDone 0 (GridOf cards_of_page3); Idle 0])
    = served_cards without_next_sentinel ∧
  spliced (lifetime column unanchored without_next_sentinel
             [Intersect next true; FetchDone 0 (GridOf cards_of_page3); Idle 0])
    = [] ∧
  history (lifetime column unanchored without_next_sentinel
             [Intersect next true; FetchDone 0 (GridOf cards_of_page3); Idle 0])
    = [] ∧
  suspended (lifetime column unanchored without_next_sentinel
               [Intersect next true; FetchDone 0 (GridOf cards_of_page3); Idle 0])
    = [] ∧
  issued (lifetime column unanchored without_next_sentinel
            [Intersect next true; FetchDone 0 (GridOf cards_of_page3); Idle 0])
    = issued (lifetime column unanchored without_next_sentinel []) ∧
  (length (issued (lifetime column unanchored without_next_sentinel
                     [Intersect next true; FetchDone 0 (GridOf cards_of_page3);
                      Idle 0])) ≤ 2)%nat.
Proof.
  split; [reflexivity|].
  apply (missing_sentinel_never_renders column unanchored without_next_sentinel).
  right. reflexivity.
Defined.

(** The two requests of arrival are made all the same. *)
Example missing_sentinel_still_fetches :
  length (issued (lifetime column unanchored without_next_sentinel [])) = 2%nat.
Proof. reflexivity. Qed.

Lemma empty_grid_witness :
  cards (lifetime column unanchored without_cards
           [Intersect next true; Intersect previous true; Idle 0]) = [] ∧
  issued (lifetime column unanchored without_cards
            [Intersect next true; Intersect previous true; Idle 0]) = [] ∧
  spliced (lifetime column unanchored without_cards
             [Intersect next true; Intersect previous true; Idle 0]) = [] ∧
  suspended (lifetime column unanchored without_cards
               [Intersect next true; Intersect previous true; Idle 0]) = [] ∧
  history (lifetime column unanchored without_cards
             [Intersect next true; Intersect previous true; Idle 0]) = [] ∧
  rejections (lifetime column unanchored without_cards
                [Intersect next true; Intersect previous true; Idle 0]) = [].
Proof.
  apply (empty_grid_is_inert column unanchored without_cards). reflexivity.
Defined.

Lemma missing_section_id_witness :
  issued (lifetime column unanchored without_section_id
            [Intersect next true; Intersect next true]) = [] ∧
  pages (lifetime column unanchored without_section_id
           [Intersect next true; Intersect next true]) = ∅ ∧
  spliced (lifetime column unanchored without_section_id
             [Intersect next true; Intersect next true]) = [] ∧
  history (lifetime column unanchored without_section_id
             [Intersect next true; Intersect next true]) = [] ∧
  cards (lifetime column unanchored without_section_id
           [Intersect next true; Intersect next true]) =
    served_cards without_section_id ∧
  idle_callbacks (lifetime column unanchored without_section_id
                    [Intersect next true; Intersect next true]) = [] ∧
  (length (rejections (lifetime column unanchored without_section_id
                         [Intersect next true; Intersect next true])) ≤ 2)%nat.
Proof.
  apply (missing_section_id_loads_nothing column unanchored without_section_id).
  left. reflexivity.
Defined.

(** Without a section id the renders wait for ever: two intersections
    leave two suspended renders and both fetches of arrival rejected. *)
Example missing_section_id_strands_renders :
  length (suspended (lifetime column unanchored without_section_id
                       [Intersect next true; Intersect next true])) = 2%nat ∧
  length (rejections (lifetime column unanchored without_section_id
                        [Intersect next true; Intersect next true])) = 2%nat.
Proof. by split. Qed.

End Trace.

(* ===================================================================== *)
(** ** On arrival *)
(* ===================================================================== *)

Module Arrival.

Import Paginated Contract Invariant Journal JSFacts Guards Lifetime Trace.

Lemma served_last_page (m : markup) (n L : Z) :
  served m n L → getLastPage (mount m) = Int L.
Proof.
  intros [_ (a & Ha & HL) _ _ _]. unfold getLastPage. simpl. by rewrite Ha.
Qed.

Lemma in_bounds_decide (m : markup) (z L : Z) :
  getLastPage (mount m) = Int L →
  in_bounds m (Int z) = bool_decide (1 ≤ z ≤ L).
Proof.
  intros HL. pose proof (in_bounds_Int m z L HL) as Hiff.
  destruct (in_bounds m (Int z)); symmetry.
  - apply bool_decide_eq_true_2. by apply Hiff.
  - apply bool_decide_eq_false_2. intros H. by apply Hiff in H.
Qed.

Lemma fetchPage_served (m : markup) (n L lo hi : Z) (d : direction)
    (s : state) :
  served m n L → shape m n lo hi s →
  ∃ u id,
    fetchPage d s =
      if in_bounds m (target lo hi d)
      then set_fresh (S (fresh s))
             (set_in_flight
                (in_flight s ++ [mkRequest (fresh s) d (target lo hi d) id u])
                (set_issued
                   (issued s ++ [mkRequest (fresh s) d (target lo hi d) id u])
                   s))
      else s.
Proof.
  intros Hm Hs. pose proof (shape_element _ _ _ _ _ Hs) as He.
  destruct (getPage_target m n lo hi s d Hs) as (u & Hu).
  destruct (served_sectionId m n L s Hm He) as (id & Hid).
  exists u, id. unfold fetchPage. rewrite Hu, Hid.
  rewrite shouldUsePage_in_bounds, He. simpl.
  by destruct (in_bounds m (target lo hi d)).
Qed.

Section WithViewport.

Variable document_top : list card → card → Z.
Variable scroll_after_layout : list card → Z → Z.

Local Abbreviation lifetime := (lifetime document_top scroll_after_layout).

(** X13: on arrival on page [n] of [L], both in the range where adding one
    is exact, [connectedCallback] asks for page [n + 1] when there is one, then for page [n - 1] when there is one, and
    for nothing else; both requests are in flight and the observer watches
    the sentinels.  On the last page there is no request for a next page, on
    the first none for a previous one. *)
Theorem connected_prefetches (m : markup) (n L : Z) :
  served m n L → safe n → safe L →
  (λ r, (request_type r, request_page r)) <$> issued (lifetime m []) =
    (if bool_decide (1 ≤ n + 1 ≤ L) then [(next, Int (n + 1))] else []) ++
    (if bool_decide (1 ≤ n - 1 ≤ L) then [(previous, Int (n - 1))] else []) ∧
  in_flight (lifetime m []) = issued (lifetime m []) ∧
  infinityScrollObserver (lifetime m []) = true ∧
  cards (lifetime m []) = served_cards m ∧
  history (lifetime m []) = [].
Proof.
  intros Hm _ _. unfold Paginated.lifetime. simpl Paginated.run.
  unfold connectedCallback.
  pose proof (served_last_page m n L Hm) as HL.
  set (s0 := storeImageRatioSettings (mount m)).
  assert (H0 : issued s0 = [] ∧ in_flight s0 = [] ∧ cards s0 = served_cards m ∧
               history s0 = []).
  { unfold s0, storeImageRatioSettings. by destruct (cardGallery_ratio _). }
  destruct H0 as (Hi0 & Hf0 & Hc0 & Hh0).
  assert (Hs0 : shape m n n n s0).
  { apply (shape_frame m n n n (mount m)); [by apply (mount_shape m n L)|..];
      unfold s0, storeImageRatioSettings; by destruct (cardGallery_ratio _). }
  destruct (fetchPage_served m n L n n next s0 Hm Hs0) as (u1 & id1 & H1).
  pose proof (fetchPage_shape m n n n next s0 Hs0) as Hs1.
  set (s1 := fetchPage next s0) in *.
  destruct (fetchPage_served m n L n n previous s1 Hm Hs1) as (u2 & id2 & H2).
  pose proof (fetchPage_shape m n n n previous s1 Hs1) as Hs2.
  set (s2 := fetchPage previous s1) in *.
  destruct Hm as [_ _ [Hv1 Hv2] _ _].
  unfold observeViewMore. rewrite (shape_element _ _ _ _ _ Hs2), Hv1, Hv2.
  simpl negb. simpl orb. cbv iota.
  simpl target in H1, H2.
  rewrite (in_bounds_decide m _ L HL) in H1.
  rewrite (in_bounds_decide m _ L HL) in H2.
  assert (Hf1 : issued s1 =
            (if bool_decide (1 ≤ n + 1 ≤ L)
             then [mkRequest (fresh s0) next (Int (n + 1)) id1 u1] else []) ∧
          in_flight s1 = issued s1 ∧ cards s1 = served_cards m ∧
          history s1 = []).
  { rewrite H1. destruct (bool_decide (1 ≤ n + 1 ≤ L)); simpl;
      by rewrite ?Hi0, ?Hf0. }
  destruct Hf1 as (Hi1 & Hif1 & Hc1 & Hh1).
  assert (Hf2 : issued s2 =
            issued s1 ++
            (if bool_decide (1 ≤ n - 1 ≤ L)
             then [mkRequest (fresh s1) previous (Int (n - 1)) id2 u2] else []) ∧
          in_flight s2 = issued s2 ∧ cards s2 = served_cards m ∧
          history s2 = []).
  { rewrite H2. destruct (bool_decide (1 ≤ n - 1 ≤ L)); simpl;
      rewrite ?Hif1, ?app_nil_r; by rewrite ?Hc1, ?Hh1. }
  destruct Hf2 as (Hi2 & Hif2 & Hc2 & Hh2).
  simpl. rewrite Hif2, Hi2, Hi1, Hc2, Hh2. split_and!; try done.
  rewrite fmap_app.
  by destruct (bool_decide (1 ≤ n + 1 ≤ L)), (bool_decide (1 ≤ n - 1 ≤ L)).
Qed.

End WithViewport.

Import Sample.

Lemma page3of3_served : served page3of3 3 3.
Proof.
  constructor.
  - eexists. split; [reflexivity|discriminate].
  - eexists. split; reflexivity.
  - split; reflexivity.
  - discriminate.
  - repeat constructor.
Defined.

Lemma connected_prefetches_witness :
  (λ r, (request_type r, request_page r)) <$>
    issued (lifetime column unanchored page3of3 []) =
    (if bool_decide (1 ≤ 3 + 1 ≤ 3) then [(next, Int (3 + 1))] else []) ++
    (if bool_decide (1 ≤ 3 - 1 ≤ 3) then [(previous, Int (3 - 1))] else []) ∧
  in_flight (lifetime column unanchored page3of3 []) =
    issued (lifetime column unanchored page3of3 []) ∧
  infinityScrollObserver (lifetime column unanchored page3of3 []) = true ∧
  cards (lifetime column unanchored page3of3 []) = served_cards page3of3 ∧
  history (lifetime column unanchored page3of3 []) = [].
Proof.
  apply (connected_prefetches column unanchored page3of3 3 3).
  - exact page3of3_served.
  - unfold safe. lia.
  - unfold safe. lia.
Defined.

(** On the last page only the page before is asked for. *)
Example last_page_prefetch :
  (λ r, (request_type r, request_page r)) <$>
    issued (lifetime column unanchored page3of3 []) = [(previous, Int 2)].
Proof. reflexivity. Qed.

End Arrival.

(* ===================================================================== *)
(** ** A fetch that brings no cards *)
(* ===================================================================== *)

Module Failure.

Import Paginated Contract Invariant Journal Reconnection JSFacts Guards Lifetime.

Lemma faithful_app (dt : list card → card → Z) (sl : list card → Z → Z)
    (s : state) (es es' : list event) :
  faithful dt sl s (es ++ es') ↔
  faithful dt sl s es ∧ faithful dt sl (run dt sl s es) es'.
Proof.
  revert s. induction es as [|e es IH]; intros s; simpl; [tauto|].
  rewrite IH. tauto.
Qed.

Lemma requests_of_snoc (d : direction) (r : request) (l : list request) :
  requests_of d (l ++ [r]) =
    requests_of d l ++ (if decide (request_type r = d) then [r] else []).
Proof.
  unfold requests_of. rewrite filter_app.
  destruct (decide (request_type r = d)).
  - by rewrite filter_cons_True by done.
  - by rewrite filter_cons_False by done.
Qed.

Lemma tokens_zero (lo hi : Z) (d : direction) (s : state) :
  tokens lo hi d s = 0%nat ↔
  pending d s = 0%nat ∧ queued d s = 0%nat ∧ ready (target lo hi d) s = 0%nat.
Proof. unfold tokens. lia. Qed.

Lemma stored_spent (lo hi : Z) (d : direction) (r : request)
    (body : html) (s : state) :
  lo ≤ hi →
  request_page r = target lo hi (request_type r) →
  request_type r ≠ d →
  tokens lo hi d s = 0%nat →
  tokens lo hi d (stored r body s) = 0%nat.
Proof.
  intros Hle Hpage Hne Hz.
  destruct (stored_fields r body s)
    as (_ & _ & _ & Hif & _ & _ & _ & Hid & _).
  apply tokens_zero in Hz as (Hp & Hq & Hr). apply tokens_zero.
  unfold pending, queued. rewrite Hif, Hid. split_and!; [done..|].
  unfold ready in *. rewrite getGridForPage_stored.
  rewrite decide_False; [done|].
  rewrite Hpage. by apply target_differ.
Qed.

Section WithViewport.

Variable document_top : list card → card → Z.
Variable scroll_after_layout : list card → Z → Z.

Local Abbreviation splice_page := (splice_page document_top scroll_after_layout).
Local Abbreviation renderPage := (renderPage document_top scroll_after_layout).
Local Abbreviation fetched := (fetched document_top scroll_after_layout).
Local Abbreviation step := (step document_top scroll_after_layout).
Local Abbreviation run := (run document_top scroll_after_layout).
Local Abbreviation lifetime := (lifetime document_top scroll_after_layout).
Local Abbreviation existence := (existence document_top scroll_after_layout).
Local Abbreviation faithful := (faithful document_top scroll_after_layout).
Local Abbreviation fetched_unfold :=
  (fetched_unfold document_top scroll_after_layout).
Local Abbreviation splice_fields :=
  (splice_fields document_top scroll_after_layout).
Local Abbreviation splice_shape :=
  (splice_shape document_top scroll_after_layout).
Local Abbreviation splice_tokens :=
  (splice_tokens document_top scroll_after_layout).
Local Abbreviation renderPage_cases :=
  (renderPage_cases document_top scroll_after_layout).
Local Abbreviation lifetime_invariant :=
  (lifetime_invariant document_top scroll_after_layout).

Lemma splice_spent (m : markup) (n lo hi : Z) (t d : direction) (p : pageinfo)
    (els : list card) (s : state) :
  shape m n lo hi s → (∀ d', tokens lo hi d' s ≤ 1)%nat →
  tokens lo hi d s = 0%nat →
  page p = target lo hi t → getGridForPage s (target lo hi t) = Some els →
  spent m n d (splice_page t p els s) ∧
  splices_of d (spliced (splice_page t p els s)) = splices_of d (spliced s) ∧
  issued (splice_page t p els s) = issued s.
Proof.
  intros Hs Htok Hz Hp Hg.
  assert (Htd : t ≠ d).
  { intros ->. unfold tokens, ready in Hz. rewrite Hg in Hz. lia. }
  destruct (splice_fields t p els s)
    as (_ & _ & Hpg & Hif & _ & _ & _ & _ & Hj & Hid & Hiss & _).
  split_and!; [|by rewrite Hj, splices_of_snoc, decide_False, app_nil_r|done].
  exists (lo_after t lo), (hi_after t hi). split_and!.
  - by apply splice_shape.
  - by apply (splice_tokens m n).
  - apply tokens_zero in Hz as (Hzp & Hzq & Hzr). apply tokens_zero.
    rewrite (target_after t d) by done.
    unfold pending. rewrite Hif.
    rewrite (queued_snoc t d s) by done. rewrite decide_False by done.
    rewrite (ready_pages s) by done. split_and!; [done|lia|done].
Qed.

Lemma renderPage_spent (m : markup) (n : Z) (t d : direction) (s : state) :
  spent m n d s →
  spent m n d (renderPage t s) ∧
  splices_of d (spliced (renderPage t s)) = splices_of d (spliced s) ∧
  issued (renderPage t s) = issued s.
Proof.
  intros (lo & hi & Hs & Htok & Hz).
  destruct (renderPage_cases m n lo hi t s Hs)
    as [->|[(p & els & Hp & Hg & ->)|(p & Hp & Hg & ->)]].
  - split; [by exists lo, hi|done].
  - by apply (splice_spent m n lo hi).
  - destruct (suspend_fields t p s)
      as (_ & _ & _ & _ & _ & _ & Hj & _ & Hiss & _).
    rewrite Hj, Hiss. split; [|done].
    exists lo, hi. split_and!.
    + by apply suspend_shape.
    + intros d'. by rewrite suspend_tokens.
    + by rewrite suspend_tokens.
Qed.

Lemma fetched_spent (m : markup) (n : Z) (d : direction) (id : nat)
    (r : request) (body : html) (s : state) :
  spent m n d s →
  find_request id s = Some r →
  page_of (request_page r) body →
  spent m n d (fetched r body (drop_request id s)) ∧
  splices_of d (spliced (fetched r body (drop_request id s))) =
    splices_of d (spliced s) ∧
  issued (fetched r body (drop_request id s)) = issued s.
Proof.
  intros (lo & hi & Hs & Htok & Hz) Hfind Hbody.
  destruct (find_request_elem id s r Hfind) as [Hin _].
  set (t := request_type r).
  assert (Hpage : request_page r = target lo hi t).
  { pose proof (shape_requests _ _ _ _ _ Hs) as Hreq.
    rewrite Forall_forall in Hreq. by apply Hreq. }
  pose proof (drop_request_found id r s Hfind) as Hless. fold t in Hless.
  pose proof (Htok t) as Htd. unfold tokens in Htd.
  assert (Hne : t ≠ d).
  { intros Heq. apply tokens_zero in Hz as (Hzp & _). rewrite Heq in Hless. lia. }
  assert (Hnone : getGridForPage s (target lo hi t) = None).
  { unfold ready in Htd. destruct (getGridForPage s (target lo hi t)); [lia|done]. }
  destruct (drop_request_fields id s)
    as (_ & _ & Hdpg & _ & _ & Hdj & Hdiss & _).
  set (s1 := drop_request id s) in *.
  assert (Hs1 : shape m n lo hi s1) by (by apply drop_request_shape).
  assert (Hq1 : ∀ d', queued d' s1 = queued d' s) by done.
  assert (Htok1 : ∀ d', (tokens lo hi d' s1 ≤ tokens lo hi d' s)%nat).
  { intros d'. unfold tokens.
    pose proof (drop_request_pending id d' s) as H. fold s1 in H.
    rewrite Hq1, (ready_pages s s1) by done. lia. }
  assert (Htok1' : ∀ d', (tokens lo hi d' s1 ≤ 1)%nat).
  { intros d'. specialize (Htok1 d'). specialize (Htok d'). lia. }
  assert (Hz1 : tokens lo hi d s1 = 0%nat).
  { specialize (Htok1 d). lia. }
  assert (Hp1 : pending t s1 = 0%nat) by lia.
  assert (Hqt : queued t s1 = 0%nat) by (rewrite Hq1; lia).
  assert (Hnone1 : getGridForPage s1 (target lo hi t) = None) by done.
  pose proof (shape_order _ _ _ _ _ Hs) as Hord.
  pose proof (stored_shape m n lo hi r body s1 Hs1 Hpage Hnone1 Hbody) as Hs2.
  pose proof (stored_tokens m n lo hi r body s1 Hs1 Hpage Htok1' Hp1 Hqt) as Htok2.
  assert (Hz2 : tokens lo hi d (stored r body s1) = 0%nat).
  { apply stored_spent; [lia|done..]. }
  destruct (stored_fields r body s1)
    as (_ & _ & _ & _ & _ & _ & Hsj & _ & Hsiss & _ & _ & Hres).
  rewrite fetched_unfold. fold t.
  destruct (resolver t s1) as [k|] eqn:Hk.
  2:{ rewrite Hsj, Hsiss, Hdj, Hdiss. split; [|done]. by exists lo, hi. }
  destruct (shape_slots _ _ _ _ _ Hs1 t k Hk) as (w & Hw & Hty & Hwp & _).
  rewrite Hw.
  assert (Hs3 : shape m n lo hi (awake k (stored r body s1))).
  { apply awake_shape; [done|]. intros d' k'. rewrite Hres. fold t.
    destruct (decide (t = d')) as [|Hd]; [done|]. intros Hk'.
    by apply (slots_differ m n lo hi s1 d' t). }
  assert (Htok3 : ∀ d', tokens lo hi d' (awake k (stored r body s1)) =
                        tokens lo hi d' (stored r body s1)).
  { intros d'. by apply tokens_frame. }
  assert (Hj3 : spliced (awake k (stored r body s1)) = spliced s)
    by (by rewrite <- Hdj, <- Hsj).
  assert (Hi3 : issued (awake k (stored r body s1)) = issued s)
    by (by rewrite <- Hdiss, <- Hsiss).
  rewrite Hwp, Hty.
  destruct (getGridForPage (stored r body s1) (target lo hi t)) as [els|] eqn:Hg.
  - assert (Hok3 : ∀ d', (tokens lo hi d' (awake k (stored r body s1)) ≤ 1)%nat).
    { intros d'. rewrite Htok3. apply Htok2. }
    assert (Hz3 : tokens lo hi d (awake k (stored r body s1)) = 0%nat)
      by (by rewrite Htok3).
    destruct (splice_spent m n lo hi t d (waiter_page w) els
                (awake k (stored r body s1)) Hs3 Hok3 Hz3 Hwp Hg)
      as (Hsp & Hj & Hi).
    by rewrite Hj, Hi, Hj3, Hi3.
  - rewrite Hj3, Hi3. split; [|done]. exists lo, hi. split_and!; [done| |].
    + intros d'. rewrite Htok3. apply Htok2.
    + by rewrite Htok3.
Qed.

Lemma step_spent (m : markup) (n : Z) (d : direction) (s : state) (e : event) :
  spent m n d s → answers s e →
  spent m n d (step s e) ∧
  splices_of d (spliced (step s e)) = splices_of d (spliced s) ∧
  requests_of d (issued (step s e)) = requests_of d (issued s).
Proof.
  intros Hsp He. destruct e as [t b|id body|id|i|]; simpl.
  - destruct (_ && _); [|done].
    destruct (renderPage_spent m n t d s Hsp) as (? & ? & ->). done.
  - simpl in He. destruct (find_request id s) as [r|] eqn:Hr; [|done].
    destruct (fetched_spent m n d id r body s Hsp Hr He) as (? & ? & ->). done.
  - destruct (find_request id s) as [r|] eqn:Hr; [|done].
    split; [|done].
    destruct Hsp as (lo & hi & Hs & Htok & Hz).
    assert (Hle : ∀ d', (tokens lo hi d'
               (set_rejections (rejections s ++ ["getSectionHTML"%string])
                  (drop_request id s)) ≤ tokens lo hi d' s)%nat).
    { intros d'. pose proof (drop_request_pending id d' s) as Hp.
      unfold tokens.
      change (pending d' (set_rejections _ (drop_request id s)))
        with (pending d' (drop_request id s)).
      change (queued d' (set_rejections _ (drop_request id s)))
        with (queued d' s).
      rewrite (ready_pages s) by done. lia. }
    exists lo, hi. split_and!.
    + apply (shape_frame m n lo hi (drop_request id s)); [|done..].
      by apply drop_request_shape.
    + intros d'. specialize (Hle d'). specialize (Htok d'). lia.
    + specialize (Hle d). lia.
  - destruct (idle_callbacks s !! i) as [t|] eqn:Hi; [|done].
    destruct Hsp as (lo & hi & Hs & Htok & Hz).
    set (s1 := set_idle_callbacks (delete i (idle_callbacks s)) s).
    assert (Hs1 : shape m n lo hi s1) by (by apply (shape_frame m n lo hi s)).
    assert (Hq : ∀ d', queued d' s =
              (queued d' s1 + (if decide (t = d') then 1 else 0))%nat).
    { intros d'.
      pose proof (filter_delete_length (λ x, x = d') (idle_callbacks s) i t Hi)
        as Hq. done. }
    assert (Htd : t ≠ d).
    { intros ->. apply tokens_zero in Hz as (_ & Hzq & _).
      specialize (Hq d). rewrite decide_True in Hq by done. lia. }
    assert (Hle : ∀ d', (tokens lo hi d' (fetchPage t s1) ≤ tokens lo hi d' s)%nat).
    { intros d'. pose proof (fetchPage_tokens lo hi t d' s1) as Hf.
      unfold tokens in Hf |- *. specialize (Hq d').
      change (pending d' s1) with (pending d' s) in Hf.
      rewrite (ready_pages s s1) in Hf by done.
      destruct (decide (t = d')); lia. }
    split_and!.
    + exists lo, hi. split_and!.
      * by apply fetchPage_shape.
      * intros d'. specialize (Hle d'). specialize (Htok d'). lia.
      * specialize (Hle d). lia.
    + by destruct (fetchPage_fields t s1) as (_ & _ & _ & _ & _ & _ & -> & _).
    + destruct (fetchPage_cases t s1)
        as [->|[(msg & ->)|(p & id & _ & _ & _ & ->)]]; try done.
      simpl. rewrite requests_of_snoc. simpl.
      rewrite decide_False by done. by rewrite app_nil_r.
  - split; [|done].
    destruct Hsp as (lo & hi & Hs & Htok & Hz). exists lo, hi. split_and!.
    + by apply (shape_frame m n lo hi s).
    + intros d'. by rewrite (tokens_frame lo hi d' s).
    + by rewrite (tokens_frame lo hi d s).
Qed.

Lemma run_spent (m : markup) (n : Z) (d : direction) (es : list event)
    (s : state) :
  spent m n d s → faithful s es →
  spent m n d (run s es) ∧
  splices_of d (spliced (run s es)) = splices_of d (spliced s) ∧
  requests_of d (issued (run s es)) = requests_of d (issued s).
Proof.
  revert s. induction es as [|e es IH]; intros s Hsp Hf; [done|].
  destruct Hf as [He Hf]. simpl.
  destruct (step_spent m n d s e Hsp He) as (Hsp1 & Hj1 & Hi1).
  destruct (IH _ Hsp1 Hf) as (Hsp2 & Hj2 & Hi2).
  split; [done|]. split; congruence.
Qed.

Lemma fruitless_spent (m : markup) (n : Z) (id : nat) (r : request)
    (e : event) (s : state) :
  invariant m n s → find_request id s = Some r → fruitless id e →
  spent m n (request_type r) (step s e) ∧
  spliced (step s e) = spliced s ∧ issued (step s e) = issued s.
Proof.
  intros (lo & hi & Hs & Htok) Hfind Hfr.
  destruct (find_request_elem id s r Hfind) as [Hin _].
  set (t := request_type r).
  assert (Hpage : request_page r = target lo hi t).
  { pose proof (shape_requests _ _ _ _ _ Hs) as Hreq.
    rewrite Forall_forall in Hreq. by apply Hreq. }
  pose proof (drop_request_found id r s Hfind) as Hless. fold t in Hless.
  pose proof (Htok t) as Htd. unfold tokens in Htd.
  assert (Hnone : getGridForPage s (target lo hi t) = None).
  { unfold ready in Htd. destruct (getGridForPage s (target lo hi t)); [lia|done]. }
  assert (Hr0 : ready (target lo hi t) s = 0%nat) by (unfold ready; by rewrite Hnone).
  destruct (drop_request_fields id s)
    as (_ & _ & Hdpg & _ & _ & Hdj & Hdiss & _).
  set (s1 := drop_request id s) in *.
  assert (Hs1 : shape m n lo hi s1) by (by apply drop_request_shape).
  assert (Hq1 : ∀ d', queued d' s1 = queued d' s) by done.
  assert (Htok1 : ∀ d', (tokens lo hi d' s1 ≤ tokens lo hi d' s)%nat).
  { intros d'. unfold tokens.
    pose proof (drop_request_pending id d' s) as H. fold s1 in H.
    rewrite Hq1, (ready_pages s s1) by done. lia. }
  assert (Htok1' : ∀ d', (tokens lo hi d' s1 ≤ 1)%nat).
  { intros d'. specialize (Htok1 d'). specialize (Htok d'). lia. }
  assert (Hz1 : tokens lo hi t s1 = 0%nat).
  { apply tokens_zero. rewrite Hq1, (ready_pages s s1) by done.
    split_and!; [lia|lia|done]. }
  assert (Hfail : spent m n t (set_rejections (rejections s ++ ["getSectionHTML"%string]) s1)).
  { exists lo, hi. split_and!.
    - by apply (shape_frame m n lo hi s1).
    - intros d'. by rewrite (tokens_frame lo hi d' s1).
    - by rewrite (tokens_frame lo hi t s1). }
  assert (Hdone : ∀ body, (∀ els, body ≠ GridOf els) →
            spent m n t (fetched r body s1) ∧
            spliced (fetched r body s1) = spliced s ∧
            issued (fetched r body s1) = issued s).
  { intros body Hbody.
    assert (Hpo : page_of (request_page r) body).
    { destruct body as [| |items]; [done|done|by destruct (Hbody items)]. }
    assert (Hp1 : pending t s1 = 0%nat) by lia.
    assert (Hqt : queued t s1 = 0%nat) by (rewrite Hq1; lia).
    assert (Hnone1 : getGridForPage s1 (target lo hi t) = None) by done.
    pose proof (stored_shape m n lo hi r body s1 Hs1 Hpage Hnone1 Hpo) as Hs2.
    pose proof (stored_tokens m n lo hi r body s1 Hs1 Hpage Htok1' Hp1 Hqt)
      as Htok2.
    destruct (stored_fields r body s1)
      as (_ & _ & _ & Hsif & _ & _ & Hsj & Hsid & Hsiss & _ & _ & Hres).
    assert (Hg2 : getGridForPage (stored r body s1) (target lo hi t) = None).
    { rewrite getGridForPage_stored, decide_True by done.
      destruct body; [done|done|]. by destruct (Hbody items). }
    assert (Hz2 : tokens lo hi t (stored r body s1) = 0%nat).
    { apply tokens_zero. unfold pending, queued, ready.
      rewrite Hsif, Hsid, Hg2. split_and!; [done..]. }
    rewrite fetched_unfold. fold t.
    destruct (resolver t s1) as [k|] eqn:Hk.
    2:{ rewrite Hsj, Hsiss. split; [|done]. by exists lo, hi. }
    destruct (shape_slots _ _ _ _ _ Hs1 t k Hk) as (w & Hw & Hty & Hwp & _).
    rewrite Hw, Hwp, Hg2.
    split; [|by rewrite <- Hdj, <- Hsj, <- Hdiss, <- Hsiss].
    exists lo, hi. split_and!.
    - apply awake_shape; [done|]. intros d' k'. rewrite Hres. fold t.
      destruct (decide (t = d')) as [|Hd]; [done|]. intros Hk'.
      by apply (slots_differ m n lo hi s1 d' t).
    - intros d'. rewrite (tokens_frame lo hi d' (stored r body s1)) by done.
      apply Htok2.
    - by rewrite (tokens_frame lo hi t (stored r body s1)). }
  destruct Hfr as [->|[->| ->]]; simpl; rewrite Hfind.
  - done.
  - by apply Hdone.
  - by apply Hdone.
Qed.

(** In one life of the element: once a fetch of a direction ends without
    cards, the direction makes no splice and no request any more. *)
Lemma fruitless_in_a_life (m : markup) (n L : Z)
    (es es' : list event) (id : nat) (r : request) (e : event) :
  served m n L →
  faithful (connectedCallback (mount m)) (es ++ e :: es') →
  find_request id (lifetime m es) = Some r →
  fruitless id e →
  splices_of (request_type r) (spliced (lifetime m (es ++ e :: es'))) =
    splices_of (request_type r) (spliced (lifetime m es)) ∧
  requests_of (request_type r) (issued (lifetime m (es ++ e :: es'))) =
    requests_of (request_type r) (issued (lifetime m es)) ∧
  requests_of (request_type r) (in_flight (lifetime m (es ++ e :: es'))) = [].
Proof.
  intros Hm Hf Hfind Hfr.
  apply faithful_app in Hf as (Hf1 & _ & Hf2).
  pose proof (lifetime_invariant m n L es Hm Hf1) as Hinv.
  destruct (fruitless_spent m n id r e _ Hinv Hfind Hfr) as (Hsp & Hj & Hi).
  destruct (run_spent m n (request_type r) es' _ Hsp Hf2)
    as ((lo & hi & _ & _ & Hz) & Hj2 & Hi2).
  assert (Hrun : lifetime m (es ++ e :: es') =
            run (step (lifetime m es) e) es').
  { unfold Paginated.lifetime, Paginated.run. by rewrite foldl_app. }
  rewrite Hrun, Hj2, Hi2, Hj, Hi. split_and!; [done..|].
  apply tokens_zero in Hz as (Hp & _). unfold pending in Hp.
  by apply nil_length_inv.
Qed.

(** X11: on a page served to the contract, with page numbers in the range
    where adding one is exact and the element connected once and not again:
    when a fetch of a direction is rejected, or brings a body that is empty
    or has no grid, that direction is over: whatever comes after, no page
    is spliced in that direction, no request is made for it and none is in
    flight.  (The server answers each request with cards of the page asked
    for, or without a grid.) *)
Theorem fruitless_fetch_ends_direction (m : markup) (n L : Z)
    (os os' : list occurrence) (id : nat) (r : request) (e : event) :
  served m n L → safe n → safe L →
  connected_once (os ++ Browser e :: os') →
  faithful (connectedCallback (mount m)) (events_of (os ++ Browser e :: os')) →
  find_request id (existence m os) = Some r →
  fruitless id e →
  splices_of (request_type r)
    (spliced (existence m (os ++ Browser e :: os'))) =
    splices_of (request_type r) (spliced (existence m os)) ∧
  requests_of (request_type r)
    (issued (existence m (os ++ Browser e :: os'))) =
    requests_of (request_type r) (issued (existence m os)) ∧
  requests_of (request_type r)
    (in_flight (existence m (os ++ Browser e :: os'))) = [].
Proof.
  intros Hm _ _ Hos Hf Hfind Hfr.
  pose proof Hos as Hos1. apply Forall_app in Hos1 as [Hos1 _].
  assert (Hev : events_of (os ++ Browser e :: os') =
                events_of os ++ e :: events_of os').
  { unfold events_of. by rewrite omap_app. }
  rewrite Hev in Hf.
  rewrite (existence_once _ _ m _ Hos), Hev.
  rewrite (existence_once _ _ m _ Hos1) in Hfind |- *.
  by apply (fruitless_in_a_life m n L _ _ id).
Qed.

End WithViewport.

Import Sample.

Lemma fruitless_fetch_witness :
  splices_of (request_type request_of_page3)
    (spliced (existence column unanchored page2of3
                ([] ++ Browser (FetchFail 0) ::
                 [Browser (Intersect next true); Browser (Idle 0);
                  Browser (FetchDone 1 (GridOf cards_of_page1))]))) =
    splices_of (request_type request_of_page3)
      (spliced (existence column unanchored page2of3 [])) ∧
  requests_of (request_type request_of_page3)
    (issued (existence column unanchored page2of3
               ([] ++ Browser (FetchFail 0) ::
                [Browser (Intersect next true); Browser (Idle 0);
                 Browser (FetchDone 1 (GridOf cards_of_page1))]))) =
    requests_of (request_type request_of_page3)
      (issued (existence column unanchored page2of3 [])) ∧
  requests_of (request_type request_of_page3)
    (in_flight (existence column unanchored page2of3
                  ([] ++ Browser (FetchFail 0) ::
                   [Browser (Intersect next true); Browser (Idle 0);
                    Browser (FetchDone 1 (GridOf cards_of_page1))]))) = [].
Proof.
  apply (fruitless_fetch_ends_direction column unanchored page2of3 2 3
           [] [Browser (Intersect next true); Browser (Idle 0);
               Browser (FetchDone 1 (GridOf cards_of_page1))]
           0%nat request_of_page3 (FetchFail 0)).
  - exact page2of3_served.
  - unfold safe. lia.
  - unfold safe. lia.
  - refine (bool_decide_unpack _ _). vm_compute. exact I.
  - refine (bool_decide_unpack _ _). vm_compute. exact I.
  - reflexivity.
  - left. reflexivity.
Defined.

(** Connected again, the element asks once more for the page whose fetch
    failed. *)
Example reconnection_retries :
  (λ r, (request_type r, request_page r)) <$>
    in_flight (existence column unanchored page2of3
                 [Browser (FetchFail 0); Browser (FetchDone 1 Blank); Connect]) =
    [(next, Int 3); (previous, Int 1)].
Proof. reflexivity. Qed.

(** The render of the direction that failed waits, the other direction
    goes on. *)
Example failed_next_waits :
  waiter_type <$> suspended
    (lifetime column unanchored page2of3
       [FetchFail 0; Intersect next true; Intersect previous true;
        FetchDone 1 (GridOf cards_of_page1)]) = [next] ∧
  cards (lifetime column unanchored page2of3
           [FetchFail 0; Intersect next true; Intersect previous true;
            FetchDone 1 (GridOf cards_of_page1)]) =
    cards_of_page1 ++ served_cards page2of3.
Proof. by split. Qed.

End Failure.

(* ===================================================================== *)
(** ** What the passes leave *)
(* ===================================================================== *)

Module PassFacts.

Import Ratio Normalizer Outcome NormalizerFacts RatioFacts.

#[local] Arguments truthy : simpl never.
#[local] Arguments cache_has : simpl never.
#[local] Arguments getSafeImageAspectRatio : simpl never.

Lemma filter_none {A} (P : A → Prop) `{∀ x, Decision (P x)} (l : list A) :
  Forall (λ x, ¬ P x) l → filter P l = [].
Proof.
  induction 1 as [|x l Hx _ IH]; [done|]. by rewrite filter_cons_False.
Qed.

(** *** One gallery *)

Lemma set_container_twice (r : string) (c : container) :
  set_container r (set_container r c) = set_container r c.
Proof. unfold set_container. by destruct c as [[] ?]. Qed.

Lemma applyAspectRatioToGallery_twice (g : gallery) (r : string) :
  applyAspectRatioToGallery (applyAspectRatioToGallery g r) r =
  applyAspectRatioToGallery g r.
Proof.
  unfold applyAspectRatioToGallery, markAsProcessed.
  destruct (gallery_is_html g) eqn:Hh; simpl; rewrite ?Hh; simpl; [|done].
  f_equal. rewrite <- list_fmap_compose. apply list_fmap_ext.
  intros _ c _. apply set_container_twice.
Qed.

Lemma applyAspectRatioToGallery_node (g : gallery) (r : string) :
  node (applyAspectRatioToGallery g r) = node g.
Proof.
  unfold applyAspectRatioToGallery, markAsProcessed.
  by destruct (gallery_is_html g) eqn:Hh; simpl; rewrite ?Hh.
Qed.

Lemma applyAspectRatioToGallery_marks (g : gallery) (r : string) :
  unprocessed (applyAspectRatioToGallery g r) =
    unprocessed g && negb (gallery_is_html g).
Proof.
  unfold applyAspectRatioToGallery, markAsProcessed, unprocessed.
  destruct (gallery_is_html g) eqn:Hh; simpl; rewrite ?Hh; simpl.
  - by rewrite andb_false_r.
  - by rewrite andb_true_r.
Qed.

(** *** The fixed pass *)

(** X14: the frame callback of the fixed pass run twice over the same
    galleries, as when two renders follow each other before a frame, leaves
    what one run leaves. *)
Theorem fixed_frame_idempotent (r : string) (ids : list nat)
    (dom : list gallery) :
  applyFixed_frame r ids (applyFixed_frame r ids dom) =
  applyFixed_frame r ids dom.
Proof.
  unfold applyFixed_frame. rewrite <- list_fmap_compose.
  apply list_fmap_ext. intros _ g _. unfold compose. cbv beta.
  destruct (bool_decide_reflect (node g ∈ ids)) as [Hin|Hin].
  - rewrite applyAspectRatioToGallery_node.
    rewrite bool_decide_eq_true_2 by done.
    apply applyAspectRatioToGallery_twice.
  - by rewrite bool_decide_eq_false_2.
Qed.

Lemma fixed_frame_left (r : string) (ids : list nat) (dom : list gallery) :
  (∀ g, g ∈ dom → unprocessed g = true → node g ∈ ids) →
  getUnprocessedGalleries (applyFixed_frame r ids dom) =
  filter (λ g, gallery_is_html g = false) (getUnprocessedGalleries dom).
Proof.
  unfold getUnprocessedGalleries, applyFixed_frame.
  induction dom as [|g dom IH]; intros Hids; [done|].
  rewrite fmap_cons.
  assert (IH' := IH (λ g' Hg', Hids g' (proj2 (elem_of_cons _ _ _) (or_intror Hg')))).
  pose proof (Hids g (proj2 (elem_of_cons _ _ _) (or_introl eq_refl))) as Hg.
  case_bool_decide as Hin.
  - destruct (unprocessed g) eqn:Hu.
    + rewrite (filter_cons_True _ g) by done.
      destruct (gallery_is_html g) eqn:Hh.
      * rewrite filter_cons_False
          by (rewrite applyAspectRatioToGallery_marks, Hu, Hh; done).
        rewrite filter_cons_False by (by rewrite Hh). exact IH'.
      * assert (Heq : applyAspectRatioToGallery g r = g)
          by (unfold applyAspectRatioToGallery; by rewrite Hh).
        rewrite Heq. rewrite !filter_cons_True by done. by rewrite IH'.
    + rewrite filter_cons_False
        by (rewrite applyAspectRatioToGallery_marks, Hu; done).
      rewrite (filter_cons_False _ g) by (by rewrite Hu). exact IH'.
  - destruct (unprocessed g) eqn:Hu; [by destruct Hin; apply Hg|].
    rewrite !(filter_cons_False _ g) by (by rewrite Hu). exact IH'.
Qed.

(** X15: after the fixed pass and its frame callback over the document the
    pass saw, the galleries still without the marker are those the pass
    began with that are no HTML elements; when every gallery is one, none is
    left and the next pass returns at once. *)
Theorem fixed_pass_leaves_no_html_gallery (setting r : string)
    (ids : list nat) (dom : list gallery) :
  applyFixedAspectRatio (Some setting) dom = Some (r, ids) →
  getUnprocessedGalleries (applyFixed_frame r ids dom) =
    filter (λ g, gallery_is_html g = false) (getUnprocessedGalleries dom) ∧
  (Forall (λ g, gallery_is_html g = true) dom →
   applyFixedAspectRatio (Some setting) (applyFixed_frame r ids dom) = None).
Proof.
  intros Hp.
  assert (Hids : ids = node <$> getUnprocessedGalleries dom).
  { unfold applyFixedAspectRatio in Hp.
    destruct (negb (truthy (Some setting))); [done|].
    destruct (getAspectRatioValue setting) as [r'|]; [|done].
    destruct (getUnprocessedGalleries dom) as [|g0 gs]; [done|].
    by injection Hp as _ <-. }
  assert (Hleft : getUnprocessedGalleries (applyFixed_frame r ids dom) =
                  filter (λ g, gallery_is_html g = false)
                    (getUnprocessedGalleries dom)).
  { apply fixed_frame_left. intros g Hg Hgu. rewrite Hids.
    apply list_elem_of_fmap_2. by apply list_elem_of_filter. }
  split; [done|]. intros Hall.
  assert (Hnil : filter (λ g, gallery_is_html g = false)
                   (getUnprocessedGalleries dom) = []).
  { apply filter_none, Forall_forall. intros g [_ Hg]%list_elem_of_filter.
    rewrite Forall_forall in Hall. rewrite (Hall g Hg). done. }
  unfold applyFixedAspectRatio.
  destruct (negb (truthy (Some setting))); [done|].
  destruct (getAspectRatioValue setting) as [r'|]; [|done].
  by rewrite Hleft, Hnil.
Qed.


(** *** The adaptive pass *)

Lemma waits_more (p p' : pass) (g : gallery) :
  listeners p ⊆ listeners p' → waits p g → waits p' g.
Proof.
  intros Hl [Hh|(i & Hi & [[Hc Hn]|Hb])]; [by left|right; exists i..].
  - split; [done|]. left. split; [done|]. by apply Hl.
  - split; [done|]. by right.
Qed.

Lemma loadAndSetRatio_listeners (g : gallery) (i : image) (p : pass) :
  listeners (loadAndSetRatio g i p).2 = listeners p.
Proof. unfold loadAndSetRatio. by destruct (_ || _). Qed.

Lemma adaptive_body_left (g : gallery) (p : pass) :
  listeners p ⊆ listeners (adaptive_body g p).2 ∧
  node (adaptive_body g p).1 = node g ∧
  (unprocessed (adaptive_body g p).1 = true →
   (adaptive_body g p).1 = g ∧ waits (adaptive_body g p).2 g).
Proof.
  unfold adaptive_body.
  destruct (gallery_is_html g) eqn:Hh; simpl;
    [|split_and!; [done|done|intros _; split; [done|by left]]].
  destruct (cache_has (data_product_id g) p) as [r|]; simpl.
  { split_and!; [done|apply applyAspectRatioToGallery_node|].
    rewrite applyAspectRatioToGallery_marks, Hh, andb_false_r. done. }
  destruct (img g) as [i|] eqn:Hi; simpl.
  2:{ split_and!; [done|apply applyAspectRatioToGallery_node|].
      rewrite applyAspectRatioToGallery_marks, Hh, andb_false_r. done. }
  destruct (complete i) eqn:Hc; simpl.
  - unfold loadAndSetRatio.
    destruct ((naturalWidth i =? 0)%N || (naturalHeight i =? 0)%N) eqn:Hz; simpl.
    + split_and!; [done..|]. intros _. split; [done|]. right. exists i.
      split; [done|]. right. split; [done|].
      apply orb_true_iff in Hz as [Hz|Hz]; apply N.eqb_eq in Hz; by eauto.
    + split_and!; [done|apply applyAspectRatioToGallery_node|].
      rewrite applyAspectRatioToGallery_marks, Hh, andb_false_r. done.
  - split_and!; [by intros x ?; apply elem_of_app; left|done|].
    intros _. split; [done|]. right. exists i. split; [done|]. left.
    split; [done|]. apply elem_of_app. right. by apply list_elem_of_singleton.
Qed.

Lemma adaptive_forEach_left (dom : list gallery) (p : pass) :
  listeners p ⊆ listeners (adaptive_forEach dom p).2 ∧
  Forall2 (λ g g', node g' = node g ∧
                   (unprocessed g' = true →
                    g' = g ∧ unprocessed g = true ∧
                    waits (adaptive_forEach dom p).2 g))
    dom (adaptive_forEach dom p).1.
Proof.
  revert p. induction dom as [|g dom IH]; intros p; simpl.
  - split; [done|constructor].
  - destruct (unprocessed g) eqn:Hu.
    + destruct (adaptive_body_left g p) as (Hl1 & Hn1 & Hw1).
      destruct (adaptive_body g p) as [g' p']. simpl in *.
      destruct (IH p') as (Hl2 & Hall).
      destruct (adaptive_forEach dom p') as [rest p'']. simpl in *.
      split; [by etrans|]. constructor; [|done].
      split; [done|]. intros Hu'. destruct (Hw1 Hu') as [-> Hw].
      split_and!; [done..|]. by apply (waits_more p').
    + destruct (IH p) as (Hl2 & Hall).
      destruct (adaptive_forEach dom p) as [rest p'']. simpl in *.
      split; [done|]. constructor; [|done].
      split; [done|]. intros Hu'. congruence.
Qed.

(** X16: the adaptive pass keeps the galleries and their order, and a
    gallery it leaves without the marker is one it did not touch: it had no
    marker before, and it is no HTML element, or its image is still loading
    and a listener of the pass waits for its load, or its image is complete
    with a natural width or height of zero.  So a gallery whose image is
    broken gets no ratio, and every later pass goes through it again. *)
Theorem adaptive_pass_leftovers (dom : list gallery) :
  Forall2 (λ g g', node g' = node g ∧
                   (unprocessed g' = true →
                    g' = g ∧ unprocessed g = true ∧
                    waits (fixAdaptiveAspectRatios dom).2 g))
    dom (fixAdaptiveAspectRatios dom).1.
Proof. apply adaptive_forEach_left. Qed.

Lemma ratio_in_range (width height : N) :
  (0 < width < 4294967296)%N → (0 < height < 4294967296)%N →
  in_range (getSafeImageAspectRatio width height).
Proof.
  intros Hw Hh. destruct (ratio_thousandths width height Hw Hh) as (n & ? & ? & _).
  by exists n.
Qed.

Local Abbreviation cache_in_range p :=
  (map_Forall (λ (_ : string) r, in_range r) (productRatioCache p)).

Local Abbreviation written g g' :=
  (g' = g ∨ ∃ r, g' = applyAspectRatioToGallery g r ∧
                 (r = "1"%string ∨ in_range r)).

Lemma adaptive_body_written (g : gallery) (p : pass) :
  unsigned_long g → cache_in_range p →
  written g (adaptive_body g p).1 ∧ cache_in_range (adaptive_body g p).2.
Proof.
  intros Hul Hc. unfold adaptive_body.
  destruct (gallery_is_html g) eqn:Hh; simpl; [|by split; [left|]].
  destruct (cache_has (data_product_id g) p) as [r|] eqn:Hcache; simpl.
  { split; [|done]. right. exists r. split; [done|]. right.
    unfold cache_has in Hcache. destruct (data_product_id g) as [k|]; [|done].
    destruct (truthy (Some k)); [|done]. by apply (Hc k). }
  destruct (img g) as [i|] eqn:Hi; simpl.
  2:{ split; [|done]. right. exists "1"%string. by split; [|left]. }
  destruct (complete i) eqn:Hcm; simpl; [|by split; [left|]].
  unfold loadAndSetRatio.
  destruct ((naturalWidth i =? 0)%N || (naturalHeight i =? 0)%N) eqn:Hz; simpl;
    [by split; [left|]|].
  apply orb_false_iff in Hz as [Hz1 Hz2].
  apply N.eqb_neq in Hz1, Hz2. destruct (Hul i Hi) as [Hw Hhg].
  assert (Hr : in_range (getSafeImageAspectRatio (naturalWidth i) (naturalHeight i)))
    by (apply ratio_in_range; lia).
  split.
  - right. eexists. split; [done|by right].
  - destruct (data_product_id g) as [k|]; [|done].
    destruct (truthy (Some k)); [|done]. by apply map_Forall_insert_2.
Qed.

Lemma adaptive_forEach_written (dom : list gallery) (p : pass) :
  Forall unsigned_long dom → cache_in_range p →
  Forall2 (λ g g', written g g') dom (adaptive_forEach dom p).1 ∧
  cache_in_range (adaptive_forEach dom p).2.
Proof.
  intros Hul. revert p. induction Hul as [|g dom Hg _ IH]; intros p Hc; simpl.
  - split; [constructor|done].
  - destruct (unprocessed g).
    + destruct (adaptive_body_written g p Hg Hc) as [Hw Hc'].
      destruct (adaptive_body g p) as [g' p']. simpl in *.
      destruct (IH p' Hc') as [Hall Hc''].
      destruct (adaptive_forEach dom p') as [rest p'']. simpl in *.
      split; [|done]. by constructor.
    + destruct (IH p Hc) as [Hall Hc''].
      destruct (adaptive_forEach dom p) as [rest p'']. simpl in *.
      split; [|done]. constructor; [by left|done].
Qed.

(** X17: the adaptive pass writes no ratio that is not a number: when the
    natural sizes of the images are [unsigned long]s, a gallery the pass
    changes gets ["1"] (it has no image) or thousandths from 0.100 to 10.000;
    the ratios in the cache of the pass are of the second kind.  The test of
    the natural sizes before the division keeps ["NaN"] out. *)
Theorem adaptive_pass_writes_ratios (dom : list gallery) :
  Forall unsigned_long dom →
  Forall2 (λ g g',
             g' = g ∨
             ∃ r, g' = applyAspectRatioToGallery g r ∧
                  (r = "1"%string ∨ in_range r))
    dom (fixAdaptiveAspectRatios dom).1 ∧
  map_Forall (λ (_ : string) r, in_range r)
    (productRatioCache (fixAdaptiveAspectRatios dom).2).
Proof.
  intros Hul. apply adaptive_forEach_written; [done|].
  apply map_Forall_empty.
Qed.

(** *** The load of an image *)

Lemma fire_load_listeners (n : nat) (dom : list gallery) (p : pass) :
  listeners (fire_load n dom p).2 = listeners p.
Proof.
  revert p. induction dom as [|g dom IH]; intros p; simpl; [done|].
  case_bool_decide.
  - destruct (img g) as [i|]; [|done].
    pose proof (loadAndSetRatio_listeners
      (mkGallery (node g) (gallery_is_html g) (data_aspect_ratio_applied g)
         (data_product_id g)
         (Some (mkImage true (naturalWidth i) (naturalHeight i)))
         (gallery_aspect_ratio g) (mediaContainers g))
      (mkImage true (naturalWidth i) (naturalHeight i)) p) as Hl.
    by destruct (loadAndSetRatio _ _ p).
  - specialize (IH p). by destruct (fire_load n dom p).
Qed.

(** X18: the load listener of an image runs once: a second [load] event of
    the same image changes neither the galleries nor the pass. *)
Theorem load_listener_runs_once (n : nat) (dom : list gallery) (p : pass) :
  on_load n (on_load n dom p).1 (on_load n dom p).2 = on_load n dom p.
Proof.
  unfold on_load at 2 3 4.
  case_bool_decide as Hin.
  - pose proof (fire_load_listeners n dom
        (mkPass (productRatioCache p) (computed p)
           (filter (λ k, k ≠ n) (listeners p)))) as Hl.
    destruct (fire_load n dom _) as [dom' p']. simpl in *.
    unfold on_load. rewrite bool_decide_eq_false_2; [done|].
    rewrite Hl. by intros [? _]%list_elem_of_filter.
  - simpl. unfold on_load. by rewrite bool_decide_eq_false_2.
Qed.

Import Sample.

Lemma fixed_pass_witness :
  getUnprocessedGalleries
    (applyFixed_frame "0.8" [1; 2]%nat [loading 1 100 200; loading 2 300 200]) =
    filter (λ g, gallery_is_html g = false)
      (getUnprocessedGalleries [loading 1 100 200; loading 2 300 200]) ∧
  (Forall (λ g, gallery_is_html g = true)
     [loading 1 100 200; loading 2 300 200] →
   applyFixedAspectRatio (Some "portrait"%string)
     (applyFixed_frame "0.8" [1; 2]%nat
        [loading 1 100 200; loading 2 300 200]) = None).
Proof.
  apply (fixed_pass_leaves_no_html_gallery "portrait" "0.8" [1; 2]%nat
           [loading 1 100 200; loading 2 300 200]).
  reflexivity.
Defined.

Lemma adaptive_pass_witness :
  Forall2 (λ g g',
             g' = g ∨
             ∃ r, g' = applyAspectRatioToGallery g r ∧
                  (r = "1"%string ∨ in_range r))
    [loaded 1 1600 900; loading 2 100 2000]
    (fixAdaptiveAspectRatios [loaded 1 1600 900; loading 2 100 2000]).1 ∧
  map_Forall (λ (_ : string) r, in_range r)
    (productRatioCache
       (fixAdaptiveAspectRatios [loaded 1 1600 900; loading 2 100 2000]).2).
Proof.
  apply (adaptive_pass_writes_ratios [loaded 1 1600 900; loading 2 100 2000]).
  constructor; [|constructor; [|constructor]]; intros i [= <-]; simpl; lia.
Defined.

(** A gallery with a broken image is left as it is, pass after pass. *)
Example broken_image_is_left :
  (fixAdaptiveAspectRatios [loaded 1 0 0]).1 = [loaded 1 0 0] ∧
  listeners (fixAdaptiveAspectRatios [loaded 1 0 0]).2 = [].
Proof. by split. Qed.

End PassFacts.

(* ===================================================================== *)
(** ** The ends of the clamp *)
(* ===================================================================== *)

Module ClampFacts.

Import Ratio Normalizer Outcome RatioFacts PassFacts.

Local Open Scope Q_scope.

Lemma quotient_pos (w h : positive) : quotient (N.pos w) (N.pos h) = Z.pos w # h.
Proof. unfold quotient. by rewrite succ_pos_pred. Qed.

Lemma thousandths_at (n k : Z) (c : Q) :
  Qabs (inject_Z n / 1000 - c) <= 1 # 2000 →
  inject_Z k / 1000 <= c → c <= inject_Z k / 1000 →
  n = k.
Proof.
  intros Hn Hlo Hhi. apply Qabs_Qle_condition in Hn as [Hn1 Hn2].
  change (inject_Z n / 1000) with (inject_Z n * (1 # 1000)) in Hn1, Hn2.
  change (inject_Z k / 1000) with (inject_Z k * (1 # 1000)) in Hlo, Hhi.
  assert (H1 : inject_Z k + - inject_Z 1 < inject_Z n).
  { change (inject_Z 1) with 1. lra. }
  assert (H2 : inject_Z n < inject_Z k + inject_Z 1).
  { change (inject_Z 1) with 1. lra. }
  rewrite <- inject_Z_opp, <- inject_Z_plus in H1.
  rewrite <- inject_Z_plus in H2.
  rewrite <- Zlt_Qlt in H1, H2. lia.
Qed.

(** X19: at the ends of the clamp and in the middle the string is exact: an
    image at least ten times as wide as high gets ["10.000"], one at least
    ten times as high as wide gets ["0.100"], and a square one ["1.000"]
    (not the ["1"] of the fixed mode). *)
Theorem ratio_at_the_ends (width height : N) :
  (0 < width < 4294967296)%N → (0 < height < 4294967296)%N →
  ((10 * height ≤ width)%N →
   getSafeImageAspectRatio width height = "10.000"%string) ∧
  ((10 * width ≤ height)%N →
   getSafeImageAspectRatio width height = "0.100"%string) ∧
  (width = height →
   getSafeImageAspectRatio width height = "1.000"%string).
Proof.
  intros Hw Hh.
  destruct (ratio_thousandths width height Hw Hh) as (n & -> & Hn & Hnear).
  unfold exact_clamped in Hnear.
  destruct width as [|w]; [lia|]. destruct height as [|h]; [lia|].
  rewrite quotient_pos in Hnear.
  split_and!.
  - intros Hle.
    assert (Hq : 10 <= Z.pos w # h) by (unfold Qle; simpl; lia).
    assert (Hn' : n = 10000%Z); [|by rewrite Hn'].
    apply (thousandths_at n 10000 _ Hnear).
    + apply Qle_trans with 10; [done|].
      eapply Qle_trans; [|apply Q.le_max_r]. apply Q.min_glb; [done|]. exact Hq.
    + apply Qle_trans with 10; [|done].
      apply Q.max_lub; [done|]. apply Q.le_min_l.
  - intros Hle.
    assert (Hq : Z.pos w # h <= 1 # 10) by (unfold Qle; simpl; lia).
    assert (Hn' : n = 100%Z); [|by rewrite Hn'].
    apply (thousandths_at n 100 _ Hnear).
    + apply Qle_trans with (1 # 10); [done|]. apply Q.le_max_l.
    + apply Qle_trans with (1 # 10); [|done].
      apply Q.max_lub; [done|]. eapply Qle_trans; [apply Q.le_min_r|]. exact Hq.
  - intros [= ->].
    assert (Hq1 : 1 <= Z.pos h # h) by (unfold Qle; simpl; lia).
    assert (Hq2 : Z.pos h # h <= 1) by (unfold Qle; simpl; lia).
    assert (Hn' : n = 1000%Z); [|by rewrite Hn'].
    apply (thousandths_at n 1000 _ Hnear).
    + apply Qle_trans with 1; [done|].
      eapply Qle_trans; [|apply Q.le_max_r]. apply Q.min_glb; [done|]. exact Hq1.
    + apply Qle_trans with 1; [|done].
      apply Q.max_lub; [done|]. eapply Qle_trans; [apply Q.le_min_r|]. exact Hq2.
Qed.

Lemma ratio_at_the_ends_witness :
  ((10 * 100 ≤ 1600)%N →
   getSafeImageAspectRatio 1600 100 = "10.000"%string) ∧
  ((10 * 1600 ≤ 100)%N →
   getSafeImageAspectRatio 1600 100 = "0.100"%string) ∧
  (1600%N = 100%N →
   getSafeImageAspectRatio 1600 100 = "1.000"%string).
Proof. apply (ratio_at_the_ends 1600 100); lia. Defined.

End ClampFacts.

(* ===================================================================== *)
(** ** A page without cards *)
(* ===================================================================== *)

Module EmptyPage.

Import Paginated Contract Invariant Journal JSFacts Guards Lifetime Trace Arrival.

Lemma getPage_next_served (m : markup) (n L : Z) (s : state) :
  served m n L → cards s = served_cards m →
  ∃ u, getPage s next = Some (mkPage (Int (n + 1)) u).
Proof.
  intros Hm Hc. destruct (served_head_last m n L Hm) as [_ Hl].
  destruct (last (served_cards m)) as [c|] eqn:Hlast; [|done].
  injection Hl as Hl.
  rewrite (getPage_Some s next c) by (unfold targetCard; simpl; by rewrite Hc).
  simpl. rewrite Hl. simpl. eauto.
Qed.

Section WithViewport.

Variable document_top : list card → card → Z.
Variable scroll_after_layout : list card → Z → Z.

Local Abbreviation step := (step document_top scroll_after_layout).
Local Abbreviation run := (run document_top scroll_after_layout).
Local Abbreviation lifetime := (lifetime document_top scroll_after_layout).

Lemma filter_id_fresh (k : nat) (l : list request) :
  Forall (λ r, (request_id r < k)%nat) l →
  filter (λ r, request_id r = k) l = [].
Proof.
  induction 1 as [|r l Hr _ IH]; [done|].
  rewrite filter_cons_False by lia. done.
Qed.

Lemma step_Idle (s : state) (i : nat) (d : direction) :
  idle_callbacks s !! i = Some d →
  step s (Idle i) =
    fetchPage d (set_idle_callbacks (delete i (idle_callbacks s)) s).
Proof. intros H. simpl. by rewrite H. Qed.

Lemma again_round (m : markup) (n L : Z) (k : nat) (s : state) :
  served m n L → 1 ≤ n + 1 ≤ L → again m n k s →
  ∃ id, again m n (S k)
          (run s [FetchDone id (GridOf []); Intersect next true; Idle 0]).
Proof.
  intros Hm Hn [He Hc Ho Hid Hsl Hids (r & Hfind & Hty & Hpg) Hiss Hsp Hh].
  exists (request_id r).
  pose proof (served_last_page m n L Hm) as HL.
  assert (Hb : in_bounds m (Int (n + 1)) = true)
    by (by apply (in_bounds_Int m _ L)).
  assert (Hgrid : ∃ a, grid_last_page m = Some a)
    by (destruct Hm as [_ (a & Ha & _) _ _ _]; eauto).
  destruct Hgrid as (a & Ha).
  (* the fetch completes with a grid without cards *)
  set (s1 := step s (FetchDone (request_id r) (GridOf []))).
  assert (H1 : element s1 = m ∧ cards s1 = served_cards m ∧
               infinityScrollObserver s1 = true ∧ idle_callbacks s1 = [] ∧
               in_flight s1 =
                 filter (λ r', request_id r' ≠ request_id r) (in_flight s) ∧
               fresh s1 = fresh s ∧ issued s1 = issued s ∧
               spliced s1 = spliced s ∧ history s1 = history s ∧
               pages s1 !! Int (n + 1) = Some (GridOf [])).
  { unfold s1. simpl. rewrite Hfind.
    rewrite (fetched_unfold document_top scroll_after_layout).
    assert (Hres : resolver (request_type r) (drop_request (request_id r) s)
                   = None) by (by rewrite Hty).
    rewrite Hres. unfold stored. rewrite Hty, Hpg. simpl.
    split_and!; try done. apply lookup_insert_eq. }
  destruct H1 as (He1 & Hc1 & Ho1 & Hid1 & Hif1 & Hf1 & Hiss1 & Hsp1 & Hh1 & Hpg1).
  (* the sentinel is met: the cached grid is spliced *)
  destruct (getPage_next_served m n L s1 Hm Hc1) as (u & Hu).
  set (p := mkPage (Int (n + 1)) u) in *.
  set (s2 := step s1 (Intersect next true)).
  assert (H2 : s2 = splice_page document_top scroll_after_layout next p [] s1).
  { unfold s2. simpl. rewrite Ho1. simpl.
    rewrite (renderPage_unfold document_top scroll_after_layout next p s1 Hu).
    rewrite He1, Ha, shouldUsePage_in_bounds, He1. simpl page. rewrite Hb.
    unfold getGridForPage. by rewrite Hpg1. }
  destruct (splice_fields document_top scroll_after_layout next p [] s1)
    as (He2 & Hc2 & _ & Hif2 & _ & Hf2 & _ & _ & Hsp2 & Hid2 & Hiss2 & _ & Ho2).
  destruct (splice_told document_top scroll_after_layout next p [] s1)
    as (_ & Hh2 & _).
  rewrite <- H2 in He2, Hc2, Hif2, Hf2, Hsp2, Hid2, Hiss2, Ho2, Hh2.
  rewrite app_nil_r in Hc2. rewrite Hid1 in Hid2. simpl in Hid2.
  (* the idle callback runs: the same page is asked for again *)
  set (s2' := set_idle_callbacks (delete 0%nat (idle_callbacks s2)) s2).
  assert (Hc2' : cards s2' = served_cards m) by (unfold s2'; simpl; congruence).
  assert (He2' : element s2' = m) by (unfold s2'; simpl; congruence).
  destruct (getPage_next_served m n L s2' Hm Hc2') as (u' & Hu').
  destruct (served_sectionId m n L s2' Hm He2') as (sid & Hsid).
  set (r' := mkRequest (fresh s2') next (Int (n + 1)) sid u').
  assert (H3 : run s [FetchDone (request_id r) (GridOf []);
                      Intersect next true; Idle 0] =
               set_fresh (S (fresh s2'))
                 (set_in_flight (in_flight s2' ++ [r'])
                    (set_issued (issued s2' ++ [r']) s2'))).
  { assert (Hrun : run s [FetchDone (request_id r) (GridOf []);
                          Intersect next true; Idle 0] = step s2 (Idle 0))
      by reflexivity.
    rewrite Hrun, (step_Idle s2 0 next) by (by rewrite Hid2).
    fold s2'. unfold fetchPage. rewrite Hu', Hsid.
    rewrite shouldUsePage_in_bounds, He2'. simpl page. by rewrite Hb. }
  rewrite H3.
  assert (Hfr : fresh s2' = fresh s) by (unfold s2'; simpl; congruence).
  assert (Hifl : in_flight s2' =
            filter (λ r', request_id r' ≠ request_id r) (in_flight s))
    by (unfold s2'; simpl; congruence).
  assert (Hids' : Forall (λ r0, (request_id r0 < fresh s)%nat) (in_flight s2')).
  { rewrite Hifl. rewrite Forall_forall in Hids |- *.
    intros x [_ Hx]%list_elem_of_filter. auto. }
  constructor; simpl.
  - done.
  - done.
  - unfold s2'. simpl. congruence.
  - unfold s2'. simpl. by rewrite Hid2.
  - unfold s2'. simpl.
    destruct (splice_fields document_top scroll_after_layout next p [] s1)
      as (_ & _ & _ & _ & _ & _ & Hrn & _).
    rewrite H2, Hrn. unfold s1. simpl. rewrite Hfind.
    rewrite (fetched_unfold document_top scroll_after_layout).
    assert (Hres : resolver (request_type r) (drop_request (request_id r) s)
                   = None) by (by rewrite Hty).
    rewrite Hres. unfold stored. by rewrite Hty.
  - apply Forall_app. split.
    + eapply Forall_impl; [exact Hids'|]. simpl. intros x Hx. lia.
    + apply Forall_singleton. simpl. lia.
  - exists r'. simpl. split; [|done].
    unfold find_request. simpl. rewrite filter_app.
    rewrite (filter_id_fresh (fresh s2')) by (by rewrite Hfr).
    by rewrite filter_cons_True by done.
  - unfold s2'. simpl. rewrite Hiss2, Hiss1.
    unfold requests_for in *. rewrite filter_app, length_app.
    rewrite filter_cons_True by done. simpl. lia.
  - unfold s2'. simpl. rewrite Hsp2, Hsp1, Hsp. by rewrite <- replicate_S_end.
  - unfold s2'. simpl. rewrite Hh2, Hh1, length_app. simpl. lia.
Qed.

Lemma again_arrival (m : markup) (n L : Z) :
  served m n L → 1 ≤ n + 1 ≤ L →
  again m n 0 (connectedCallback (mount m)).
Proof.
  intros Hm Hn. unfold connectedCallback.
  pose proof (served_last_page m n L Hm) as HL.
  set (s0 := storeImageRatioSettings (mount m)).
  assert (H0 : issued s0 = [] ∧ in_flight s0 = [] ∧ cards s0 = served_cards m ∧
               history s0 = [] ∧ idle_callbacks s0 = [] ∧ spliced s0 = [] ∧
               resolveNextPagePromise s0 = None ∧ fresh s0 = 0%nat).
  { unfold s0, storeImageRatioSettings. by destruct (cardGallery_ratio _). }
  destruct H0 as (Hi0 & Hf0 & Hc0 & Hh0 & Hid0 & Hsp0 & Hrn0 & Hfr0).
  assert (Hs0 : shape m n n n s0).
  { apply (shape_frame m n n n (mount m)); [by apply (mount_shape m n L)|..];
      unfold s0, storeImageRatioSettings; by destruct (cardGallery_ratio _). }
  destruct (fetchPage_served m n L n n next s0 Hm Hs0) as (u1 & id1 & H1).
  pose proof (fetchPage_shape m n n n next s0 Hs0) as Hs1.
  simpl target in H1. rewrite (in_bounds_decide m _ L HL) in H1.
  rewrite bool_decide_eq_true_2 in H1 by done.
  set (r1 := mkRequest (fresh s0) next (Int (n + 1)) id1 u1) in *.
  set (s1 := fetchPage next s0) in *.
  destruct (fetchPage_served m n L n n previous s1 Hm Hs1) as (u2 & id2 & H2).
  pose proof (fetchPage_shape m n n n previous s1 Hs1) as Hs2.
  set (s2 := fetchPage previous s1) in *.
  simpl target in H2.
  destruct Hm as [_ _ [Hv1 Hv2] _ _].
  unfold observeViewMore. rewrite (shape_element _ _ _ _ _ Hs2), Hv1, Hv2.
  simpl negb. simpl orb. cbv iota.
  assert (F1 : in_flight s1 = [r1] ∧ issued s1 = [r1] ∧ fresh s1 = 1%nat ∧
               cards s1 = served_cards m ∧ history s1 = [] ∧
               idle_callbacks s1 = [] ∧ spliced s1 = [] ∧
               resolveNextPagePromise s1 = None).
  { rewrite H1. simpl. by rewrite Hi0, Hf0, Hfr0. }
  destruct F1 as (Hf1 & Hi1 & Hfr1 & Hc1 & Hh1 & Hid1 & Hsp1 & Hrn1).
  assert (F2 : ∃ rest, in_flight s2 = r1 :: rest ∧ issued s2 = r1 :: rest ∧
               Forall (λ r, request_page r = Int (n - 1) ∧
                            (request_id r < fresh s2)%nat) rest ∧
               (1 ≤ fresh s2)%nat ∧
               cards s2 = served_cards m ∧ history s2 = [] ∧
               idle_callbacks s2 = [] ∧ spliced s2 = [] ∧
               resolveNextPagePromise s2 = None).
  { rewrite H2. destruct (in_bounds m (Int (n - 1))); simpl.
    - eexists. rewrite Hf1, Hi1, Hfr1. simpl. split_and!; try done.
      + apply Forall_singleton. simpl. split; [done|lia].
      + lia.
    - exists []. rewrite Hf1, Hi1, Hfr1. by split_and!. }
  destruct F2 as (rest & Hf2 & Hi2 & Hrest & Hfr2 & Hc2 & Hh2 & Hid2 & Hsp2 & Hrn2).
  constructor; simpl; try done.
  - by apply (shape_element _ _ _ _ _ Hs2).
  - rewrite Hf2. constructor.
    + unfold r1. simpl. rewrite Hfr0. lia.
    + eapply Forall_impl; [exact Hrest|]. by intros x [_ ?].
  - exists r1. split; [|done]. unfold find_request. simpl. rewrite Hf2.
    by rewrite filter_cons_True by done.
  - rewrite Hi2. unfold requests_for. rewrite filter_cons_True by done.
    simpl. f_equal.
    assert (Hnil : filter (λ r, request_page r = Int (n + 1)) rest = []).
    { clear -Hrest. induction Hrest as [|x l [Hx _] _ IH]; [done|].
      rewrite filter_cons_False; [done|]. rewrite Hx. intros [= ?]. lia. }
    by rewrite Hnil.
  - by rewrite Hh2.
Qed.

(** X23: a page that comes with a grid without cards is spliced all the
    same, and asked for again: on page [n] with a page after it, for every
    [k] there is a life of the element (each fetch of page [n + 1] answered
    by a grid without cards, the sentinel met, the idle callback run) in
    which page [n + 1] has been requested [k + 1] times and spliced [k]
    times, with [k] history entries pushed, while the grid holds the served
    cards and no more. *)
Theorem empty_page_is_requested_again (m : markup) (n L : Z) (k : nat) :
  served m n L → 1 ≤ n + 1 ≤ L →
  ∃ es,
    length (requests_for (Int (n + 1)) (issued (lifetime m es))) = S k ∧
    spliced (lifetime m es) = replicate k (next, Int (n + 1), []) ∧
    length (history (lifetime m es)) = k ∧
    cards (lifetime m es) = served_cards m.
Proof.
  intros Hm Hn.
  assert (H : ∃ es, again m n k (lifetime m es)).
  { induction k as [|k (es & IH)].
    - exists []. by apply (again_arrival m n L).
    - destruct (again_round m n L k _ Hm Hn IH) as (id & Hid).
      exists (es ++ [FetchDone id (GridOf []); Intersect next true; Idle 0]).
      unfold Paginated.lifetime, Paginated.run in *. by rewrite foldl_app. }
  destruct H as (es & [_ Hc _ _ _ _ _ Hi Hs Hh]). by exists es.
Qed.

End WithViewport.
Import Sample.

Lemma empty_page_witness :
  ∃ es,
    length (requests_for (Int (2 + 1))
              (issued (lifetime column unanchored page2of3 es))) = 3%nat ∧
    spliced (lifetime column unanchored page2of3 es) =
      replicate 2 (next, Int (2 + 1), []) ∧
    length (history (lifetime column unanchored page2of3 es)) = 2%nat ∧
    cards (lifetime column unanchored page2of3 es) = served_cards page2of3.
Proof.
  apply (empty_page_is_requested_again column unanchored page2of3 2 3 2).
  - exact page2of3_served.
  - lia.
Defined.

(** Such a life, computed: two rounds, the requests 0, 2 and 3 are for
    page 3. *)
Example empty_page_sample :
  request_page <$>
    issued (lifetime column unanchored page2of3
              [FetchDone 0 (GridOf []); Intersect next true; Idle 0;
               FetchDone 2 (GridOf []); Intersect next true; Idle 0]) =
    [Int 3; Int 1; Int 3; Int 3].
Proof. reflexivity. Qed.

End EmptyPage.

(* ===================================================================== *)
(** ** Cards without a page number *)
(* ===================================================================== *)

Module Untagged.

Import Paginated Contract Invariant Journal JSFacts Guards Lifetime Trace.

Lemma getPage_untagged (m : markup) (s : state) (d : direction) :
  untagged_page m → cards s = served_cards m →
  ∃ u, getPage s d = Some (mkPage NaN u) ∧
       searchParams_get "page" (url_search u) = Some "NaN"%string.
Proof.
  intros [_ _ _ Hne Hall] Hc. rewrite Forall_forall in Hall.
  assert (Ht : ∃ c, targetCard s d = Some c ∧ card_page c = NaN).
  { unfold targetCard. rewrite Hc. destruct d; simpl.
    - destruct (last (served_cards m)) as [c|] eqn:Hl.
      + exists c. split; [done|]. by apply Hall, last_Some_elem_of.
      + by apply last_None in Hl.
    - destruct (head (served_cards m)) as [c|] eqn:Hh.
      + exists c. split; [done|]. by apply Hall, head_Some_elem_of.
      + by apply head_None in Hh. }
  destruct Ht as (c & Ht & Hp).
  rewrite (getPage_Some s d c Ht), Hp.
  eexists. split.
  - by destruct d.
  - simpl. destruct d; apply searchParams_get_set.
Qed.

Lemma fetchPage_untagged (m : markup) (s : state) (d : direction) :
  untagged_page m → element s = m → cards s = served_cards m →
  ∃ u id,
    searchParams_get "page" (url_search u) = Some "NaN"%string ∧
    fetchPage d s =
      set_fresh (S (fresh s))
        (set_in_flight (in_flight s ++ [mkRequest (fresh s) d NaN id u])
           (set_issued (issued s ++ [mkRequest (fresh s) d NaN id u]) s)).
Proof.
  intros Hm He Hc. destruct (getPage_untagged m s d Hm Hc) as (u & Hu & Hq).
  destruct Hm as [(id & Hid & Hne) _ _ _ _].
  exists u, id. split; [done|].
  unfold fetchPage. rewrite Hu. simpl.
  unfold sectionId. rewrite He, Hid.
  by rewrite (proj2 (String.eqb_neq id "") Hne).
Qed.

Section WithViewport.

Variable document_top : list card → card → Z.
Variable scroll_after_layout : list card → Z → Z.

Local Abbreviation step := (step document_top scroll_after_layout).
Local Abbreviation run := (run document_top scroll_after_layout).
Local Abbreviation lifetime := (lifetime document_top scroll_after_layout).

(** X24: when the cards of the page carry no page number, both fetches of
    [connectedCallback] ask for page [NaN] (the URL says [page=NaN]) and
    share one entry of the cache: the body that answers the request for the
    next page is what a render of the previous page prepends. *)
Theorem untagged_cards_share_one_page (m : markup) (els : list card) :
  untagged_page m →
  (λ r, (request_id r, request_type r, request_page r,
         searchParams_get "page" (url_search (request_url r)))) <$>
    issued (lifetime m []) =
    [(0%nat, next, NaN, Some "NaN"%string);
     (1%nat, previous, NaN, Some "NaN"%string)] ∧
  cards (lifetime m [FetchDone 0 (GridOf els); Intersect previous true]) =
    els ++ served_cards m ∧
  spliced (lifetime m [FetchDone 0 (GridOf els); Intersect previous true]) =
    [(previous, NaN, els)].
Proof.
  intros Hm. unfold Paginated.lifetime, connectedCallback.
  set (s0 := storeImageRatioSettings (mount m)).
  assert (H0 : element s0 = m ∧ issued s0 = [] ∧ in_flight s0 = [] ∧
               cards s0 = served_cards m ∧ spliced s0 = [] ∧
               resolveNextPagePromise s0 = None ∧
               resolvePreviousPagePromise s0 = None ∧ fresh s0 = 0%nat ∧
               pages s0 = ∅ ∧ suspended s0 = []).
  { unfold s0, storeImageRatioSettings. by destruct (cardGallery_ratio _). }
  destruct H0 as (He0 & Hi0 & Hf0 & Hc0 & Hsp0 & Hrn0 & Hrp0 & Hfr0 & Hpg0 & Hsu0).
  destruct (fetchPage_untagged m s0 next Hm He0 Hc0) as (u1 & id1 & Hq1 & H1).
  set (s1 := fetchPage next s0) in *.
  assert (He1 : element s1 = m) by (by rewrite H1).
  assert (Hc1 : cards s1 = served_cards m) by (by rewrite H1).
  destruct (fetchPage_untagged m s1 previous Hm He1 Hc1) as (u2 & id2 & Hq2 & H2).
  set (s2 := fetchPage previous s1) in *.
  set (r1 := mkRequest 0 next NaN id1 u1).
  set (r2 := mkRequest 1 previous NaN id2 u2).
  assert (F2 : element s2 = m ∧ issued s2 = [r1; r2] ∧ in_flight s2 = [r1; r2] ∧
               cards s2 = served_cards m ∧ spliced s2 = [] ∧
               resolveNextPagePromise s2 = None ∧
               resolvePreviousPagePromise s2 = None ∧
               pages s2 = ∅ ∧ suspended s2 = []).
  { rewrite H2. simpl. rewrite H1. simpl. rewrite Hi0, Hf0, Hfr0.
    by split_and!. }
  destruct F2 as (He2 & Hi2 & Hf2 & Hc2 & Hsp2 & Hrn2 & Hrp2 & Hpg2 & Hsu2).
  pose proof (untagged_sentinels _ Hm) as [Hv1 Hv2].
  unfold observeViewMore. rewrite He2, Hv1, Hv2. simpl negb. simpl orb. cbv iota.
  set (s3 := set_observer true s2).
  split.
  { simpl Paginated.run. unfold s3. simpl issued. rewrite Hi2. simpl.
    by rewrite Hq1, Hq2. }
  assert (Hfind : find_request 0 s3 = Some r1).
  { unfold find_request, s3. simpl. rewrite Hf2.
    by rewrite filter_cons_True by done. }
  set (s4 := step s3 (FetchDone 0 (GridOf els))).
  assert (F4 : element s4 = m ∧ cards s4 = served_cards m ∧ spliced s4 = [] ∧
               infinityScrollObserver s4 = true ∧
               pages s4 !! NaN = Some (GridOf els)).
  { unfold s4. simpl. rewrite Hfind.
    rewrite (fetched_unfold document_top scroll_after_layout).
    assert (Hres : resolver (request_type r1) (drop_request 0 s3) = None) by done.
    rewrite Hres. unfold stored. simpl. split_and!; try done.
    apply lookup_insert_eq. }
  destruct F4 as (He4 & Hc4 & Hsp4 & Ho4 & Hpg4).
  destruct (getPage_untagged m s4 previous Hm Hc4) as (u & Hu & _).
  destruct (untagged_grid _ Hm) as (a & Ha).
  assert (H5 : run s3 [FetchDone 0 (GridOf els); Intersect previous true] =
               splice_page document_top scroll_after_layout previous
                 (mkPage NaN u) els s4).
  { assert (Hrun : run s3 [FetchDone 0 (GridOf els); Intersect previous true] =
                   step s4 (Intersect previous true)) by reflexivity.
    rewrite Hrun. simpl. rewrite Ho4. simpl.
    rewrite (renderPage_unfold document_top scroll_after_layout previous _ s4 Hu).
    rewrite He4, Ha. simpl. unfold getGridForPage. by rewrite Hpg4. }
  rewrite H5.
  destruct (splice_fields document_top scroll_after_layout previous
              (mkPage NaN u) els s4)
    as (_ & -> & _ & _ & _ & _ & _ & _ & -> & _).
  by rewrite Hc4, Hsp4.
Qed.

End WithViewport.

Import Sample.

Lemma untagged_is_untagged : untagged_page untagged.
Proof.
  constructor.
  - eexists. split; [reflexivity|discriminate].
  - eexists. reflexivity.
  - split; reflexivity.
  - discriminate.
  - repeat constructor.
Defined.

Lemma untagged_cards_witness :
  (λ r, (request_id r, request_type r, request_page r,
         searchParams_get "page" (url_search (request_url r)))) <$>
    issued (lifetime column unanchored untagged []) =
    [(0%nat, next, NaN, Some "NaN"%string);
     (1%nat, previous, NaN, Some "NaN"%string)] ∧
  cards (lifetime column unanchored untagged
           [FetchDone 0 (GridOf cards_of_page3); Intersect previous true]) =
    cards_of_page3 ++ served_cards untagged ∧
  spliced (lifetime column unanchored untagged
             [FetchDone 0 (GridOf cards_of_page3); Intersect previous true]) =
    [(previous, NaN, cards_of_page3)].
Proof.
  apply (untagged_cards_share_one_page column unanchored untagged cards_of_page3).
  exact untagged_is_untagged.
Defined.

End Untagged.

(* ===================================================================== *)
(** ** The pages of the grid *)
(* ===================================================================== *)

Module Order.

Import Paginated Contract Invariant Journal JSFacts Guards Lifetime Trace Failure.

Lemma contiguous_after (n lo hi : Z) (d : direction) (els : list card)
    (s s' : state) :
  lo ≤ n ≤ hi →
  spliced s' = spliced s ++ [(d, target lo hi d, els)] →
  contiguous n lo hi s →
  contiguous n (lo_after d lo) (hi_after d hi) s'.
Proof.
  intros Hord Hj [Ha Hp]. unfold contiguous, appended, prepended in *.
  rewrite Hj, !splices_of_snoc. destruct d; simpl.
  - rewrite app_nil_r. split; [|done].
    rewrite fmap_app, Ha. simpl.
    replace (hi + 1 - n) with ((hi - n) + 1) by lia.
    rewrite seqZ_app by lia. rewrite fmap_app. f_equal.
    replace (n + 1 + (hi - n)) with (hi + 1) by lia. done.
  - rewrite app_nil_r. split; [done|].
    rewrite fmap_app, Hp. simpl.
    replace (n - (lo - 1)) with ((n - lo) + 1) by lia.
    rewrite seqZ_app by lia. rewrite fmap_app. f_equal.
    simpl. do 2 f_equal. lia.
Qed.

Section WithViewport.

Variable document_top : list card → card → Z.
Variable scroll_after_layout : list card → Z → Z.

Local Abbreviation splice_page := (splice_page document_top scroll_after_layout).
Local Abbreviation renderPage := (renderPage document_top scroll_after_layout).
Local Abbreviation fetched := (fetched document_top scroll_after_layout).
Local Abbreviation step := (step document_top scroll_after_layout).
Local Abbreviation run := (run document_top scroll_after_layout).
Local Abbreviation lifetime := (lifetime document_top scroll_after_layout).
Local Abbreviation faithful := (faithful document_top scroll_after_layout).
Local Abbreviation fetched_unfold :=
  (fetched_unfold document_top scroll_after_layout).
Local Abbreviation splice_fields :=
  (splice_fields document_top scroll_after_layout).
Local Abbreviation splice_shape :=
  (splice_shape document_top scroll_after_layout).
Local Abbreviation splice_tokens :=
  (splice_tokens document_top scroll_after_layout).
Local Abbreviation renderPage_cases :=
  (renderPage_cases document_top scroll_after_layout).
Local Abbreviation lifetime_invariant :=
  (lifetime_invariant document_top scroll_after_layout).
Local Abbreviation step_invariant :=
  (step_invariant document_top scroll_after_layout).

(** A step splices nothing, or one page at an end of the grid. *)
Lemma step_cases (m : markup) (n lo hi : Z) (s : state) (e : event) :
  shape m n lo hi s → (∀ d, tokens lo hi d s ≤ 1)%nat → answers s e →
  (shape m n lo hi (step s e) ∧ (∀ d, tokens lo hi d (step s e) ≤ 1)%nat ∧
   spliced (step s e) = spliced s) ∨
  (∃ d els,
     shape m n (lo_after d lo) (hi_after d hi) (step s e) ∧
     (∀ d', tokens (lo_after d lo) (hi_after d hi) d' (step s e) ≤ 1)%nat ∧
     spliced (step s e) = spliced s ++ [(d, target lo hi d, els)]).
Proof.
  intros Hs Htok He. destruct e as [t b|id body|id|i|].
  - simpl. destruct (_ && _); [|by left].
    destruct (renderPage_cases m n lo hi t s Hs)
      as [->|[(p & els & Hp & Hg & ->)|(p & Hp & Hg & ->)]].
    + by left.
    + right. exists t, els.
      destruct (splice_fields t p els s)
        as (_ & _ & _ & _ & _ & _ & _ & _ & Hj & _).
      split_and!.
      * by apply splice_shape.
      * by apply (splice_tokens m n).
      * by rewrite Hj, Hp.
    + left. destruct (suspend_fields t p s)
        as (_ & _ & _ & _ & _ & _ & Hj & _).
      split_and!; [by apply suspend_shape| |done].
      intros d'. by rewrite suspend_tokens.
  - simpl in He |- *. destruct (find_request id s) as [r|] eqn:Hfind; [|by left].
    destruct (find_request_elem id s r Hfind) as [Hin _].
    set (t := request_type r).
    assert (Hpage : request_page r = target lo hi t).
    { pose proof (shape_requests _ _ _ _ _ Hs) as Hreq.
      rewrite Forall_forall in Hreq. by apply Hreq. }
    pose proof (drop_request_found id r s Hfind) as Hless. fold t in Hless.
    pose proof (Htok t) as Htd. unfold tokens in Htd.
    assert (Hnone : getGridForPage s (target lo hi t) = None).
    { unfold ready in Htd.
      destruct (getGridForPage s (target lo hi t)); [lia|done]. }
    destruct (drop_request_fields id s)
      as (_ & _ & Hdpg & _ & _ & Hdj & _).
    set (s1 := drop_request id s) in *.
    assert (Hs1 : shape m n lo hi s1) by (by apply drop_request_shape).
    assert (Hq1 : ∀ d', queued d' s1 = queued d' s) by done.
    assert (Htok1 : ∀ d', (tokens lo hi d' s1 ≤ 1)%nat).
    { intros d'. pose proof (Htok d') as Ht. unfold tokens in *.
      pose proof (drop_request_pending id d' s) as H. fold s1 in H.
      rewrite Hq1, (ready_pages s s1) by done. lia. }
    assert (Hp1 : pending t s1 = 0%nat) by lia.
    assert (Hqt : queued t s1 = 0%nat) by (rewrite Hq1; lia).
    assert (Hnone1 : getGridForPage s1 (target lo hi t) = None) by done.
    pose proof (stored_shape m n lo hi r body s1 Hs1 Hpage Hnone1 He) as Hs2.
    pose proof (stored_tokens m n lo hi r body s1 Hs1 Hpage Htok1 Hp1 Hqt)
      as Htok2.
    destruct (stored_fields r body s1)
      as (_ & _ & _ & _ & _ & _ & Hsj & _ & _ & _ & _ & Hres).
    rewrite fetched_unfold. fold t.
    destruct (resolver t s1) as [k|] eqn:Hk.
    2:{ left. split_and!; [done..|]. by rewrite Hsj. }
    destruct (shape_slots _ _ _ _ _ Hs1 t k Hk) as (w & Hw & Hty & Hwp & _).
    rewrite Hw.
    assert (Hs3 : shape m n lo hi (awake k (stored r body s1))).
    { apply awake_shape; [done|]. intros d' k'. rewrite Hres. fold t.
      destruct (decide (t = d')) as [|Hd]; [done|]. intros Hk'.
      by apply (slots_differ m n lo hi s1 d' t). }
    assert (Htok3 : ∀ d',
              (tokens lo hi d' (awake k (stored r body s1)) ≤ 1)%nat).
    { intros d'. by rewrite (tokens_frame lo hi d' (stored r body s1)). }
    assert (Hj3 : spliced (awake k (stored r body s1)) = spliced s)
      by (by rewrite <- Hdj, <- Hsj).
    rewrite Hwp, Hty.
    destruct (getGridForPage (stored r body s1) (target lo hi t))
      as [els|] eqn:Hg.
    + right. exists t, els.
      destruct (splice_fields t (waiter_page w) els (awake k (stored r body s1)))
        as (_ & _ & _ & _ & _ & _ & _ & _ & Hj & _).
      split_and!.
      * by apply splice_shape.
      * by apply (splice_tokens m n).
      * by rewrite Hj, Hj3, Hwp.
    + left. by split_and!.
  - left.
    assert (Hinv : invariant m n s) by (by exists lo, hi).
    simpl. destruct (find_request id s) as [r|] eqn:Hr; [|done].
    split_and!; [| |done].
    + apply (shape_frame m n lo hi (drop_request id s)); [|done..].
      by apply drop_request_shape.
    + intros d. pose proof (Htok d) as Ht.
      pose proof (drop_request_pending id d s) as Hp.
      unfold tokens in *.
      change (pending d (set_rejections _ (drop_request id s)))
        with (pending d (drop_request id s)).
      change (queued d (set_rejections _ (drop_request id s)))
        with (queued d s).
      rewrite (ready_pages s) by done. lia.
  - left. simpl. destruct (idle_callbacks s !! i) as [d|] eqn:Hi; [|done].
    set (s1 := set_idle_callbacks (delete i (idle_callbacks s)) s).
    assert (Hs1 : shape m n lo hi s1) by (by apply (shape_frame m n lo hi s)).
    split_and!; [by apply fetchPage_shape| |].
    + intros d'. pose proof (fetchPage_tokens lo hi d d' s1) as Hf.
      pose proof (Htok d') as Ht. unfold tokens in Ht, Hf.
      pose proof (filter_delete_length (λ x, x = d') (idle_callbacks s) i d Hi)
        as Hq.
      fold (queued d' s) in Hq.
      change (length (filter (λ x, x = d') (delete i (idle_callbacks s))))
        with (queued d' s1) in Hq.
      change (pending d' s1) with (pending d' s) in Hf.
      rewrite (ready_pages s s1) in Hf by done.
      unfold tokens. destruct (decide (d = d')); lia.
    + by destruct (fetchPage_fields d s1) as (_ & _ & _ & _ & _ & _ & -> & _).
  - left. simpl. split_and!; [|by intros d; rewrite (tokens_frame lo hi d s)|done].
    by apply (shape_frame m n lo hi s).
Qed.

Lemma run_contiguous (m : markup) (n : Z) (es : list event) (lo hi : Z)
    (s : state) :
  shape m n lo hi s → (∀ d, tokens lo hi d s ≤ 1)%nat →
  contiguous n lo hi s → faithful s es →
  ∃ lo' hi', shape m n lo' hi' (run s es) ∧ contiguous n lo' hi' (run s es).
Proof.
  revert lo hi s. induction es as [|e es IH]; intros lo hi s Hs Htok Hc Hf.
  - by exists lo, hi.
  - destruct Hf as [He Hf]. simpl.
    destruct (step_cases m n lo hi s e Hs Htok He)
      as [(Hs' & Htok' & Hj)|(d & els & Hs' & Htok' & Hj)].
    + apply (IH lo hi); try done.
      unfold contiguous, appended, prepended in *. by rewrite Hj.
    + apply (IH (lo_after d lo) (hi_after d hi)); try done.
      apply (contiguous_after n lo hi d els s); [|done..].
      by apply (shape_order _ _ _ _ _ Hs).
Qed.

(** X25: under the contract, after any events from both sentinels, the
    cards of the grid are in non-decreasing page order: the pages prepended
    (the latest first), the served cards, the pages appended; every card
    carries a whole page number between that of the first card and that of
    the last. *)
Theorem grid_stays_in_page_order (m : markup) (n L : Z) (es : list event) :
  served m n L →
  faithful (connectedCallback (mount m)) es →
  StronglySorted page_le (cards (lifetime m es)) ∧
  cards (lifetime m es) =
    concat (reverse (snd <$> prepended (lifetime m es))) ++
    served_cards m ++
    concat (snd <$> appended (lifetime m es)) ∧
  ∃ lo hi,
    lo ≤ n ≤ hi ∧
    card_page <$> head (cards (lifetime m es)) = Some (Int lo) ∧
    card_page <$> last (cards (lifetime m es)) = Some (Int hi) ∧
    Forall (λ c, ∃ z, card_page c = Int z ∧ lo ≤ z ≤ hi)
      (cards (lifetime m es)).
Proof.
  intros Hm Hf.
  destruct (lifetime_invariant m n L es Hm Hf) as (lo & hi & Hs & _).
  pose proof (shape_order _ _ _ _ _ Hs). destruct Hs.
  split_and!; [done..|]. exists lo, hi. split_and!; try done; lia.
Qed.

(** X26: under the contract, with page numbers in the range where adding
    one is exact, no page is left out: after any events, the pages appended
    are [n + 1], [n + 2], ... up to the page of the last
    card, in that order, and the pages prepended are [n - 1], [n - 2], ...
    down to the page of the first card. *)
Theorem pages_are_loaded_contiguously (m : markup) (n L : Z)
    (es : list event) :
  served m n L → safe n → safe L →
  faithful (connectedCallback (mount m)) es →
  ∃ lo hi,
    lo ≤ n ≤ hi ∧
    card_page <$> head (cards (lifetime m es)) = Some (Int lo) ∧
    card_page <$> last (cards (lifetime m es)) = Some (Int hi) ∧
    fst <$> appended (lifetime m es) = Int <$> seqZ (n + 1) (hi - n) ∧
    fst <$> prepended (lifetime m es) =
      (λ i, Int (n - 1 - i)) <$> seqZ 0 (n - lo).
Proof.
  intros Hm _ _ Hf.
  destruct (connected_shape m n L Hm) as [Hs0 Htok0].
  assert (Hc0 : contiguous n n n (connectedCallback (mount m))).
  { pose proof (shape_appended _ _ _ _ _ Hs0) as (zs & Hzs & _ & Hall).
    pose proof (shape_cards _ _ _ _ _ Hs0) as Hcards.
    unfold contiguous. rewrite !Z.sub_diag. simpl.
    assert (Hsp : spliced (connectedCallback (mount m)) = []).
    { unfold connectedCallback, observeViewMore.
      destruct (_ || _); simpl;
        destruct (fetchPage_fields previous
                    (fetchPage next (storeImageRatioSettings (mount m))))
          as (_ & _ & _ & _ & _ & _ & -> & _);
        destruct (fetchPage_fields next (storeImageRatioSettings (mount m)))
          as (_ & _ & _ & _ & _ & _ & -> & _);
        unfold storeImageRatioSettings; by destruct (cardGallery_ratio _). }
    unfold appended, prepended. by rewrite Hsp. }
  destruct (run_contiguous m n es n n _ Hs0 Htok0 Hc0 Hf)
    as (lo & hi & Hs & [Ha Hp]).
  unfold Paginated.lifetime. exists lo, hi.
  pose proof (shape_order _ _ _ _ _ Hs). pose proof (shape_head _ _ _ _ _ Hs).
  pose proof (shape_last _ _ _ _ _ Hs). split_and!; try done; lia.
Qed.

End WithViewport.

Import Sample.

Lemma grid_order_witness :
  StronglySorted page_le
    (cards (lifetime column unanchored page2of3
              [Intersect previous true; FetchDone 1 (GridOf cards_of_page1);
               FetchDone 0 (GridOf cards_of_page3); Intersect next true])) ∧
  cards (lifetime column unanchored page2of3
           [Intersect previous true; FetchDone 1 (GridOf cards_of_page1);
            FetchDone 0 (GridOf cards_of_page3); Intersect next true]) =
    concat (reverse (snd <$> prepended
      (lifetime column unanchored page2of3
         [Intersect previous true; FetchDone 1 (GridOf cards_of_page1);
          FetchDone 0 (GridOf cards_of_page3); Intersect next true]))) ++
    served_cards page2of3 ++
    concat (snd <$> appended
      (lifetime column unanchored page2of3
         [Intersect previous true; FetchDone 1 (GridOf cards_of_page1);
          FetchDone 0 (GridOf cards_of_page3); Intersect next true])) ∧
  ∃ lo hi,
    lo ≤ 2 ≤ hi ∧
    card_page <$> head (cards (lifetime column unanchored page2of3
      [Intersect previous true; FetchDone 1 (GridOf cards_of_page1);
       FetchDone 0 (GridOf cards_of_page3); Intersect next true]))
      = Some (Int lo) ∧
    card_page <$> last (cards (lifetime column unanchored page2of3
      [Intersect previous true; FetchDone 1 (GridOf cards_of_page1);
       FetchDone 0 (GridOf cards_of_page3); Intersect next true]))
      = Some (Int hi) ∧
    Forall (λ c, ∃ z, card_page c = Int z ∧ lo ≤ z ≤ hi)
      (cards (lifetime column unanchored page2of3
         [Intersect previous true; FetchDone 1 (GridOf cards_of_page1);
          FetchDone 0 (GridOf cards_of_page3); Intersect next true])).
Proof.
  apply (grid_stays_in_page_order column unanchored page2of3 2 3).
  - exact page2of3_served.
  - refine (bool_decide_unpack _ _). vm_compute. exact I.
Defined.

Lemma contiguous_pages_witness :
  ∃ lo hi,
    lo ≤ 2 ≤ hi ∧
    card_page <$> head (cards (lifetime column unanchored page2of3
      [Intersect previous true; FetchDone 1 (GridOf cards_of_page1);
       FetchDone 0 (GridOf cards_of_page3); Intersect next true]))
      = Some (Int lo) ∧
    card_page <$> last (cards (lifetime column unanchored page2of3
      [Intersect previous true; FetchDone 1 (GridOf cards_of_page1);
       FetchDone 0 (GridOf cards_of_page3); Intersect next true]))
      = Some (Int hi) ∧
    fst <$> appended (lifetime column unanchored page2of3
      [Intersect previous true; FetchDone 1 (GridOf cards_of_page1);
       FetchDone 0 (GridOf cards_of_page3); Intersect next true]) =
      Int <$> seqZ (2 + 1) (hi - 2) ∧
    fst <$> prepended (lifetime column unanchored page2of3
      [Intersect previous true; FetchDone 1 (GridOf cards_of_page1);
       FetchDone 0 (GridOf cards_of_page3); Intersect next true]) =
      (λ i, Int (2 - 1 - i)) <$> seqZ 0 (2 - lo).
Proof.
  apply (pages_are_loaded_contiguously column unanchored page2of3 2 3).
  - exact page2of3_served.
  - unfold safe. lia.
  - unfold safe. lia.
  - refine (bool_decide_unpack _ _). vm_compute. exact I.
Defined.

(** The grid of that life: page 1, page 2, page 3. *)
Example both_directions_sample :
  card_content <$>
    cards (lifetime column unanchored page2of3
             [Intersect previous true; FetchDone 1 (GridOf cards_of_page1);
              FetchDone 0 (GridOf cards_of_page3); Intersect next true]) =
    ["a"; "b"; "c"; "d"; "e"; "f"]%string.
Proof. reflexivity. Qed.

End Order.

(* ===================================================================== *)
(** ** The fetch and the render, in either order *)
(* ===================================================================== *)

Module Interleaving.

Import Paginated Contract Invariant Journal JSFacts Guards Lifetime Trace
  Arrival.

(** The URL of the page after page [n], from the address on arrival. *)
Local Abbreviation next_url m n :=
  (mkURL (url_base (href m))
     (searchParams_set "page" (toString (Int (n + 1))) (url_search (href m)))
     "").

Lemma getPage_next_arrival (m : markup) (n L : Z) (s : state) :
  served m n L → cards s = served_cards m → location s = href m →
  getPage s next = Some (mkPage (Int (n + 1)) (next_url m n)).
Proof.
  intros Hm Hc Hl. destruct (served_head_last m n L Hm) as [_ Hlast].
  destruct (last (served_cards m)) as [c|] eqn:Hlc; [|done].
  injection Hlast as Hlast.
  rewrite (getPage_Some s next c) by (unfold targetCard; simpl; by rewrite Hc).
  simpl. by rewrite Hlast, Hl.
Qed.

(** The element once connected, on a page with a page after it. *)
Lemma arrival_next (m : markup) (n L : Z) :
  served m n L → 1 ≤ n + 1 ≤ L →
  ∃ r, find_request 0 (connectedCallback (mount m)) = Some r ∧
       request_type r = next ∧ request_page r = Int (n + 1) ∧
       element (connectedCallback (mount m)) = m ∧
       cards (connectedCallback (mount m)) = served_cards m ∧
       location (connectedCallback (mount m)) = href m ∧
       infinityScrollObserver (connectedCallback (mount m)) = true ∧
       pages (connectedCallback (mount m)) = ∅ ∧
       suspended (connectedCallback (mount m)) = [] ∧
       spliced (connectedCallback (mount m)) = [] ∧
       history (connectedCallback (mount m)) = [] ∧
       idle_callbacks (connectedCallback (mount m)) = [] ∧
       resolveNextPagePromise (connectedCallback (mount m)) = None.
Proof.
  intros Hm Hn. unfold connectedCallback.
  pose proof (served_last_page m n L Hm) as HL.
  set (s0 := storeImageRatioSettings (mount m)).
  assert (H0 : issued s0 = [] ∧ in_flight s0 = [] ∧ cards s0 = served_cards m ∧
               history s0 = [] ∧ idle_callbacks s0 = [] ∧ spliced s0 = [] ∧
               resolveNextPagePromise s0 = None ∧ fresh s0 = 0%nat ∧
               location s0 = href m ∧ pages s0 = ∅ ∧ suspended s0 = []).
  { unfold s0, storeImageRatioSettings. by destruct (cardGallery_ratio _). }
  destruct H0 as (Hi0 & Hf0 & Hc0 & Hh0 & Hid0 & Hsp0 & Hrn0 & Hfr0 & Hl0 &
                  Hp0 & Hsu0).
  assert (Hs0 : shape m n n n s0).
  { apply (shape_frame m n n n (mount m)); [by apply (mount_shape m n L)|..];
      unfold s0, storeImageRatioSettings; by destruct (cardGallery_ratio _). }
  destruct (fetchPage_served m n L n n next s0 Hm Hs0) as (u1 & id1 & H1).
  pose proof (fetchPage_shape m n n n next s0 Hs0) as Hs1.
  simpl target in H1. rewrite (in_bounds_decide m _ L HL) in H1.
  rewrite bool_decide_eq_true_2 in H1 by done.
  set (r1 := mkRequest (fresh s0) next (Int (n + 1)) id1 u1) in *.
  set (s1 := fetchPage next s0) in *.
  destruct (fetchPage_served m n L n n previous s1 Hm Hs1) as (u2 & id2 & H2).
  pose proof (fetchPage_shape m n n n previous s1 Hs1) as Hs2.
  set (s2 := fetchPage previous s1) in *.
  simpl target in H2.
  destruct Hm as [_ _ [Hv1 Hv2] _ _].
  unfold observeViewMore. rewrite (shape_element _ _ _ _ _ Hs2), Hv1, Hv2.
  simpl negb. simpl orb. cbv iota.
  assert (F1 : in_flight s1 = [r1] ∧ cards s1 = served_cards m ∧
               history s1 = [] ∧ idle_callbacks s1 = [] ∧ spliced s1 = [] ∧
               resolveNextPagePromise s1 = None ∧ location s1 = href m ∧
               pages s1 = ∅ ∧ suspended s1 = []).
  { rewrite H1. simpl. by rewrite Hf0. }
  destruct F1 as (Hf1 & Hc1 & Hh1 & Hid1 & Hsp1 & Hrn1 & Hl1 & Hp1 & Hsu1).
  assert (F2 : ∃ rest, in_flight s2 = r1 :: rest ∧
               cards s2 = served_cards m ∧ history s2 = [] ∧
               idle_callbacks s2 = [] ∧ spliced s2 = [] ∧
               resolveNextPagePromise s2 = None ∧ location s2 = href m ∧
               pages s2 = ∅ ∧ suspended s2 = []).
  { rewrite H2. destruct (in_bounds m (Int (n - 1))); simpl.
    - eexists. rewrite Hf1. by split_and!.
    - exists []. rewrite Hf1. by split_and!. }
  destruct F2 as (rest & Hf2 & Hc2 & Hh2 & Hid2 & Hsp2 & Hrn2 & Hl2 & Hp2 & Hsu2).
  exists r1. simpl. split_and!; try done.
  - unfold find_request. simpl. rewrite Hf2.
    rewrite filter_cons_True; [done|]. unfold r1. simpl. by rewrite Hfr0.
  - by apply (shape_element _ _ _ _ _ Hs2).
Qed.

Section WithViewport.

Variable document_top : list card → card → Z.
Variable scroll_after_layout : list card → Z → Z.

Local Abbreviation step := (step document_top scroll_after_layout).
Local Abbreviation run := (run document_top scroll_after_layout).
Local Abbreviation lifetime := (lifetime document_top scroll_after_layout).
Local Abbreviation splice_page := (splice_page document_top scroll_after_layout).

(** X27: on arrival on a page with a page after it, the completion of the
    prefetch and the meeting of the sentinel give the same grid in either
    order: the served cards followed by the cards of the body, one splice,
    one history entry (the URL of that page), one idle callback asked for,
    no render left waiting, the body in the cache. *)
Theorem fetch_and_render_commute (m : markup) (n L : Z) (els : list card) :
  served m n L → 1 ≤ n + 1 ≤ L →
  cards (lifetime m [FetchDone 0 (GridOf els); Intersect next true]) =
    served_cards m ++ els ∧
  cards (lifetime m [Intersect next true; FetchDone 0 (GridOf els)]) =
    served_cards m ++ els ∧
  spliced (lifetime m [FetchDone 0 (GridOf els); Intersect next true]) =
    [(next, Int (n + 1), els)] ∧
  spliced (lifetime m [Intersect next true; FetchDone 0 (GridOf els)]) =
    [(next, Int (n + 1), els)] ∧
  history (lifetime m [FetchDone 0 (GridOf els); Intersect next true]) =
    [next_url m n] ∧
  history (lifetime m [Intersect next true; FetchDone 0 (GridOf els)]) =
    [next_url m n] ∧
  idle_callbacks (lifetime m [FetchDone 0 (GridOf els); Intersect next true]) =
    [next] ∧
  idle_callbacks (lifetime m [Intersect next true; FetchDone 0 (GridOf els)]) =
    [next] ∧
  suspended (lifetime m [FetchDone 0 (GridOf els); Intersect next true]) = [] ∧
  suspended (lifetime m [Intersect next true; FetchDone 0 (GridOf els)]) = [] ∧
  pages (lifetime m [FetchDone 0 (GridOf els); Intersect next true]) =
    pages (lifetime m [Intersect next true; FetchDone 0 (GridOf els)]).
Proof.
  intros Hm Hn. unfold Paginated.lifetime.
  destruct (arrival_next m n L Hm Hn)
    as (r & Hfind & Hty & Hpg & He & Hc & Hl & Ho & Hp & Hsu & Hsp & Hh & Hid & Hrn).
  set (s := connectedCallback (mount m)) in *.
  pose proof (served_last_page m n L Hm) as HL.
  assert (Hb : in_bounds m (Int (n + 1)) = true)
    by (by apply (in_bounds_Int m _ L)).
  assert (Hgrid : ∃ a, grid_last_page m = Some a)
    by (destruct Hm as [_ (a & Ha & _) _ _ _]; eauto).
  destruct Hgrid as (a & Ha).
  set (p := mkPage (Int (n + 1)) (next_url m n)).
  (* the fetch first *)
  set (a1 := stored r (GridOf els) (drop_request 0 s)).
  assert (Ha1 : step s (FetchDone 0 (GridOf els)) = a1).
  { simpl. rewrite Hfind.
    rewrite (fetched_unfold document_top scroll_after_layout).
    assert (Hres : resolver (request_type r) (drop_request 0 s) = None)
      by (by rewrite Hty).
    by rewrite Hres. }
  assert (Fa1 : element a1 = m ∧ cards a1 = served_cards m ∧
                location a1 = href m ∧ infinityScrollObserver a1 = true ∧
                pages a1 = <[Int (n + 1) := GridOf els]> ∅ ∧
                suspended a1 = [] ∧ spliced a1 = [] ∧ history a1 = [] ∧
                idle_callbacks a1 = []).
  { unfold a1, stored. rewrite Hty, Hpg. simpl. by rewrite Hp. }
  destruct Fa1 as (Hea & Hca & Hla & Hoa & Hpa & Hsua & Hspa & Hha & Hida).
  assert (Ha2 : run s [FetchDone 0 (GridOf els); Intersect next true] =
                splice_page next p els a1).
  { assert (Hrun : run s [FetchDone 0 (GridOf els); Intersect next true] =
                   step (step s (FetchDone 0 (GridOf els))) (Intersect next true))
      by reflexivity.
    rewrite Hrun, Ha1. simpl. rewrite Hoa. simpl.
    rewrite (renderPage_unfold document_top scroll_after_layout next p a1)
      by (by apply (getPage_next_arrival m n L)).
    rewrite Hea, Ha, shouldUsePage_in_bounds, Hea. simpl page. rewrite Hb.
    unfold getGridForPage. rewrite Hpa, lookup_insert_eq. done. }
  (* the render first *)
  set (b1 := suspend next p s).
  assert (Hb1 : step s (Intersect next true) = b1).
  { simpl. rewrite Ho. simpl.
    rewrite (renderPage_unfold document_top scroll_after_layout next p s)
      by (by apply (getPage_next_arrival m n L)).
    rewrite He, Ha, shouldUsePage_in_bounds, He. simpl page. rewrite Hb.
    unfold getGridForPage. by rewrite Hp, lookup_empty. }
  destruct (suspend_fields next p s)
    as (Heb & Hcb & Hpb & Hifb & Hsub & _ & Hspb & Hidb & _ & _ & Hob & Hresb).
  fold b1 in Heb, Hcb, Hpb, Hifb, Hsub, Hspb, Hidb, Hob, Hresb.
  set (w := mkWaiter (fresh s) next p) in *.
  set (b2 := awake (fresh s) (stored r (GridOf els) (drop_request 0 b1))).
  assert (Hb2 : run s [Intersect next true; FetchDone 0 (GridOf els)] =
                splice_page next p els b2).
  { assert (Hrun : run s [Intersect next true; FetchDone 0 (GridOf els)] =
                   step (step s (Intersect next true)) (FetchDone 0 (GridOf els)))
      by reflexivity.
    rewrite Hrun, Hb1. simpl.
    assert (Hfb : find_request 0 b1 = Some r).
    { unfold find_request. by rewrite Hifb. }
    rewrite Hfb.
    rewrite (fetched_unfold document_top scroll_after_layout).
    destruct (drop_request_fields 0 b1)
      as (_ & _ & _ & Hdsu & _ & _ & _ & _ & Hdres).
    rewrite Hty, (Hdres next), (Hresb next), decide_True by done.
    rewrite Hdsu, Hsub, Hsu. simpl app.
    rewrite filter_cons_True by done. cbn [hd_error].
    rewrite getGridForPage_stored. simpl waiter_page. simpl waiter_type.
    simpl page. rewrite Hpg, decide_True by done. reflexivity. }
  assert (Fb2 : cards b2 = served_cards m ∧ suspended b2 = [] ∧
                spliced b2 = [] ∧ history b2 = [] ∧ idle_callbacks b2 = [] ∧
                pages b2 = <[Int (n + 1) := GridOf els]> ∅).
  { destruct (awake_stored_fields (fresh s) r (GridOf els) (drop_request 0 b1))
      as (_ & Hs2 & Hc2 & Hj2 & _).
    fold b2 in Hs2, Hc2, Hj2.
    destruct (drop_request_fields 0 b1)
      as (_ & Hdc & Hdp & Hdsu & _ & Hdj & _).
    rewrite Hs2, Hc2, Hj2, Hdc, Hdsu, Hdj, Hcb, Hsub, Hspb, Hsu, Hc, Hsp.
    simpl app. rewrite filter_cons_False by (simpl; lia).
    split_and!; try done.
    - unfold b2, awake, stored, b1. rewrite Hty. simpl. by destruct s.
    - unfold b2, awake, stored, b1. rewrite Hty. simpl. by destruct s.
    - unfold b2, awake, stored, b1. rewrite Hty, Hpg. simpl. by rewrite Hp. }
  destruct Fb2 as (Hcb2 & Hsub2 & Hspb2 & Hhb2 & Hidb2 & Hpb2).
  rewrite Ha2, Hb2.
  destruct (splice_fields document_top scroll_after_layout next p els a1)
    as (_ & -> & -> & _ & -> & _ & _ & _ & -> & -> & _).
  destruct (splice_told document_top scroll_after_layout next p els a1)
    as (_ & -> & _).
  destruct (splice_fields document_top scroll_after_layout next p els b2)
    as (_ & -> & -> & _ & -> & _ & _ & _ & -> & -> & _).
  destruct (splice_told document_top scroll_after_layout next p els b2)
    as (_ & -> & _).
  rewrite Hca, Hcb2, Hspa, Hspb2, Hha, Hhb2, Hida, Hidb2, Hsua, Hsub2, Hpa, Hpb2.
  by split_and!.
Qed.

End WithViewport.

Import Sample.

Lemma fetch_and_render_witness :
  cards (lifetime column unanchored page2of3
           [FetchDone 0 (GridOf cards_of_page3); Intersect next true]) =
    served_cards page2of3 ++ cards_of_page3 ∧
  cards (lifetime column unanchored page2of3
           [Intersect next true; FetchDone 0 (GridOf cards_of_page3)]) =
    served_cards page2of3 ++ cards_of_page3 ∧
  spliced (lifetime column unanchored page2of3
             [FetchDone 0 (GridOf cards_of_page3); Intersect next true]) =
    [(next, Int (2 + 1), cards_of_page3)] ∧
  spliced (lifetime column unanchored page2of3
             [Intersect next true; FetchDone 0 (GridOf cards_of_page3)]) =
    [(next, Int (2 + 1), cards_of_page3)] ∧
  history (lifetime column unanchored page2of3
             [FetchDone 0 (GridOf cards_of_page3); Intersect next true]) =
    [next_url page2of3 2] ∧
  history (lifetime column unanchored page2of3
             [Intersect next true; FetchDone 0 (GridOf cards_of_page3)]) =
    [next_url page2of3 2] ∧
  idle_callbacks (lifetime column unanchored page2of3
                    [FetchDone 0 (GridOf cards_of_page3); Intersect next true]) =
    [next] ∧
  idle_callbacks (lifetime column unanchored page2of3
                    [Intersect next true; FetchDone 0 (GridOf cards_of_page3)]) =
    [next] ∧
  suspended (lifetime column unanchored page2of3
               [FetchDone 0 (GridOf cards_of_page3); Intersect next true]) = [] ∧
  suspended (lifetime column unanchored page2of3
               [Intersect next true; FetchDone 0 (GridOf cards_of_page3)]) = [] ∧
  pages (lifetime column unanchored page2of3
           [FetchDone 0 (GridOf cards_of_page3); Intersect next true]) =
    pages (lifetime column unanchored page2of3
             [Intersect next true; FetchDone 0 (GridOf cards_of_page3)]).
Proof.
  apply (fetch_and_render_commute column unanchored page2of3 2 3 cards_of_page3).
  - exact page2of3_served.
  - lia.
Defined.

End Interleaving.

(* ===================================================================== *)
(** ** One request per page *)
(* ===================================================================== *)

Module Requests.

Import Paginated Contract Invariant Journal Reconnection JSFacts Guards
  Lifetime Trace Arrival Order.

Lemma queued_frame (d : direction) (s s' : state) :
  idle_callbacks s' = idle_callbacks s → queued d s' = queued d s.
Proof. unfold queued. by intros ->. Qed.

Section WithViewport.

Variable document_top : list card → card → Z.
Variable scroll_after_layout : list card → Z → Z.

Local Abbreviation splice_page := (splice_page document_top scroll_after_layout).
Local Abbreviation renderPage := (renderPage document_top scroll_after_layout).
Local Abbreviation fetched := (fetched document_top scroll_after_layout).
Local Abbreviation step := (step document_top scroll_after_layout).
Local Abbreviation run := (run document_top scroll_after_layout).
Local Abbreviation lifetime := (lifetime document_top scroll_after_layout).
Local Abbreviation faithful := (faithful document_top scroll_after_layout).
Local Abbreviation fetched_unfold :=
  (fetched_unfold document_top scroll_after_layout).
Local Abbreviation splice_fields :=
  (splice_fields document_top scroll_after_layout).
Local Abbreviation step_cases :=
  (step_cases document_top scroll_after_layout).

Lemma splice_requests (d : direction) (p : pageinfo) (els : list card)
    (s0 s : state) :
  spliced s = spliced s0 → issued s = issued s0 →
  idle_callbacks s = idle_callbacks s0 →
  spliced (splice_page d p els s) = spliced s0 ++ [(d, page p, els)] ∧
  issued (splice_page d p els s) = issued s0 ∧
  ∀ d', queued d' (splice_page d p els s) =
        (queued d' s0 + (if decide (d = d') then 1 else 0))%nat.
Proof.
  intros Hj Hi Hid.
  destruct (splice_fields d p els s)
    as (_ & _ & _ & _ & _ & _ & _ & _ & Hj' & Hid' & Hiss' & _).
  rewrite Hj', Hiss', Hj, Hi. split_and!; [done..|].
  intros d'. rewrite (queued_snoc d d' s) by done.
  by rewrite (queued_frame d' s0 s).
Qed.

(** What a step does to the requests made and the idle callbacks. *)
Lemma step_requests (m : markup) (n lo hi : Z) (s : state) (e : event) :
  shape m n lo hi s →
  (spliced (step s e) = spliced s ∧ issued (step s e) = issued s ∧
   ∀ d, (queued d (step s e) ≤ queued d s)%nat) ∨
  (∃ d p els,
     spliced (step s e) = spliced s ++ [(d, p, els)] ∧
     issued (step s e) = issued s ∧
     ∀ d', queued d' (step s e) =
           (queued d' s + (if decide (d = d') then 1 else 0))%nat) ∨
  (∃ r,
     spliced (step s e) = spliced s ∧
     issued (step s e) = issued s ++ [r] ∧
     request_page r = target lo hi (request_type r) ∧
     (1 ≤ queued (request_type r) s)%nat ∧
     (∀ d, queued d (step s e) ≤ queued d s)%nat ∧
     (1 ≤ pending (request_type r) (step s e))%nat).
Proof.
  intros Hs. destruct e as [t b|id body|id|i|]; simpl.
  - destruct (_ && _); [|by left].
    destruct (renderPage_forms document_top scroll_after_layout t s)
      as [->|[(p & els & ->)|(p & ->)]].
    + by left.
    + right; left. exists t, (page p), els. by apply splice_requests.
    + left. destruct (suspend_fields t p s)
        as (_ & _ & _ & _ & _ & _ & Hj & Hid & Hiss & _).
      split_and!; [done..|]. intros d. by rewrite (queued_frame d s).
  - destruct (find_request id s) as [r|]; [|by left].
    rewrite fetched_unfold.
    destruct (stored_fields r body (drop_request id s))
      as (_ & _ & _ & _ & _ & _ & Hj & Hid & Hiss & _).
    assert (Hst : spliced (stored r body (drop_request id s)) = spliced s ∧
                  issued (stored r body (drop_request id s)) = issued s ∧
                  idle_callbacks (stored r body (drop_request id s)) =
                    idle_callbacks s) by (by rewrite Hj, Hid, Hiss).
    destruct Hst as (Hj1 & Hi1 & Hid1).
    destruct (resolver _ _) as [k|].
    2:{ left. split_and!; [done..|]. intros d. by rewrite (queued_frame d s). }
    destruct (head _) as [w|].
    2:{ left. split_and!; [done..|]. intros d. by rewrite (queued_frame d s). }
    destruct (getGridForPage _ _) as [els|].
    + right; left. exists (waiter_type w), (page (waiter_page w)), els.
      by apply splice_requests.
    + left. split_and!; [done..|]. intros d.
      by rewrite (queued_frame d s).
  - left. destruct (find_request id s) as [r|]; by split_and!.
  - destruct (idle_callbacks s !! i) as [t|] eqn:Hi; [|by left].
    set (s1 := set_idle_callbacks (delete i (idle_callbacks s)) s).
    assert (Hq : ∀ d', queued d' s =
              (queued d' s1 + (if decide (t = d') then 1 else 0))%nat).
    { intros d'.
      by pose proof (filter_delete_length (λ x, x = d') (idle_callbacks s) i t Hi). }
    assert (Hs1 : shape m n lo hi s1) by (by apply (shape_frame m n lo hi s)).
    destruct (getPage_target m n lo hi s1 t Hs1) as (u & Hu).
    destruct (fetchPage_cases t s1)
      as [->|[(msg & ->)|(p & sid & Hp & _ & _ & ->)]].
    + left. split_and!; [done..|]. intros d. specialize (Hq d). lia.
    + left. split_and!; [done..|]. intros d.
      change (queued d (set_rejections _ s1)) with (queued d s1).
      specialize (Hq d). lia.
    + right; right. rewrite Hu in Hp. injection Hp as <-. simpl.
      eexists. split_and!; [done|done|done| | |].
      * simpl. specialize (Hq t). rewrite decide_True in Hq by done. lia.
      * intros d.
        change (queued d (set_fresh _ (set_in_flight _ (set_issued _ s1))))
          with (queued d s1).
        specialize (Hq d). lia.
      * unfold pending. simpl. unfold requests_of.
        rewrite filter_app, length_app.
        rewrite filter_cons_True by done. simpl. lia.
  - by left.
Qed.

Lemma not_extended {A} (l : list A) (x : A) : l ≠ l ++ [x].
Proof.
  intros H. apply (f_equal length) in H. rewrite length_app in H. simpl in H. lia.
Qed.

Lemma step_asked_once (m : markup) (n lo hi : Z) (s : state) (e : event) :
  shape m n lo hi s → (∀ d, tokens lo hi d s ≤ 1)%nat → answers s e →
  asked_once n lo hi s →
  ∃ lo' hi', shape m n lo' hi' (step s e) ∧
             (∀ d, tokens lo' hi' d (step s e) ≤ 1)%nat ∧
             asked_once n lo' hi' (step s e).
Proof.
  intros Hs Htok He [Hr Ht Hnd].
  pose proof (shape_order _ _ _ _ _ Hs) as Hord.
  destruct (step_requests m n lo hi s e Hs)
    as [(Hj & Hi & Hq)|[(d & p & els & Hj & Hi & Hq)|
        (r & Hj & Hi & Hpg & Hq1 & Hq & Hpend)]];
    destruct (step_cases m n lo hi s e Hs Htok He)
      as [(Hs' & Htok' & Hj')|(d0 & els0 & Hs' & Htok' & Hj')].
  - exists lo, hi. split_and!; [done..|]. constructor; rewrite ?Hi; [done| |done].
    intros r Hin Hp. specialize (Ht r Hin Hp). specialize (Hq (request_type r)).
    lia.
  - rewrite Hj in Hj'. by destruct (not_extended _ _ Hj').
  - rewrite Hj in Hj'. symmetry in Hj'. by destruct (not_extended _ _ Hj').
  - rewrite Hj in Hj'. apply app_inj_tail in Hj' as [_ [= <- _ _]].
    exists (lo_after d lo), (hi_after d hi). split_and!; [done..|].
    constructor; rewrite ?Hi.
    + eapply Forall_impl; [exact Hr|]. simpl. intros r (z & Hz & Hrange).
      exists z. split; [done|]. destruct (request_type r), d; simpl; lia.
    + intros r Hin Hp. rewrite Hq.
      rewrite Forall_forall in Hr. destruct (Hr r Hin) as (z & Hz & Hrange).
      destruct (decide (d = request_type r)) as [Hd|Hd].
      * exfalso. rewrite <- Hd in Hp, Hrange. rewrite Hz in Hp.
        destruct d; simpl in Hp; injection Hp as Hp; lia.
      * rewrite Nat.add_0_r. apply (Ht r Hin).
        rewrite Hp. by apply target_after.
    + done.
  - exists lo, hi. split_and!; [done..|].
    destruct (target_in_range lo hi (request_type r)) as (z & Hz & Hzr); [lia|].
    assert (Hnew : request_page r ∉ request_page <$> issued s).
    { intros (r0 & Hr0 & Hin0)%list_elem_of_fmap.
      rewrite Forall_forall in Hr. destruct (Hr r0 Hin0) as (z0 & Hz0 & Hrange).
      destruct (decide (request_type r0 = request_type r)) as [Hd|Hd].
      - assert (Hq0 : queued (request_type r0) s = 0%nat).
        { apply (Ht r0 Hin0). rewrite Hd. congruence. }
        rewrite Hd in Hq0. lia.
      - rewrite Hpg, Hz0 in Hr0.
        destruct (request_type r0), (request_type r); simpl in *;
          try done; injection Hr0 as Hr0; lia. }
    constructor; rewrite ?Hi.
    + apply Forall_app. split; [done|]. apply Forall_singleton.
      exists z. split; [congruence|].
      destruct (request_type r); simpl in Hz; injection Hz as <-; lia.
    + intros r0 Hin Hp.
      pose proof (Htok' (request_type r0)) as Htk. unfold tokens in Htk.
      apply elem_of_app in Hin as [Hin|Hin].
      * specialize (Ht r0 Hin Hp). specialize (Hq (request_type r0)). lia.
      * apply list_elem_of_singleton in Hin as ->. lia.
    + rewrite fmap_app. apply NoDup_app. split_and!; [done| |].
      * intros x Hx Hx'. simpl in Hx'. apply list_elem_of_singleton in Hx' as ->.
        done.
      * simpl. apply NoDup_singleton.
  - rewrite Hj in Hj'. by destruct (not_extended _ _ Hj').
Qed.

Lemma run_asked_once (m : markup) (n : Z) (es : list event) (lo hi : Z)
    (s : state) :
  shape m n lo hi s → (∀ d, tokens lo hi d s ≤ 1)%nat →
  asked_once n lo hi s → faithful s es →
  ∃ lo' hi', asked_once n lo' hi' (run s es).
Proof.
  revert lo hi s. induction es as [|e es IH]; intros lo hi s Hs Htok Ha Hf.
  - by exists lo, hi.
  - destruct Hf as [He Hf]. simpl.
    destruct (step_asked_once m n lo hi s e Hs Htok He Ha)
      as (lo' & hi' & Hs' & Htok' & Ha').
    by apply (IH lo' hi').
Qed.

Lemma arrival_asked_once (m : markup) (n L : Z) :
  served m n L → asked_once n n n (connectedCallback (mount m)).
Proof.
  intros Hm. unfold connectedCallback.
  set (s0 := storeImageRatioSettings (mount m)).
  assert (H0 : issued s0 = [] ∧ idle_callbacks s0 = []).
  { unfold s0, storeImageRatioSettings. by destruct (cardGallery_ratio _). }
  destruct H0 as (Hi0 & Hid0).
  assert (Hs0 : shape m n n n s0).
  { apply (shape_frame m n n n (mount m)); [by apply (mount_shape m n L)|..];
      unfold s0, storeImageRatioSettings; by destruct (cardGallery_ratio _). }
  destruct (fetchPage_served m n L n n next s0 Hm Hs0) as (u1 & id1 & H1).
  pose proof (fetchPage_shape m n n n next s0 Hs0) as Hs1.
  set (s1 := fetchPage next s0) in *.
  destruct (fetchPage_served m n L n n previous s1 Hm Hs1) as (u2 & id2 & H2).
  set (s2 := fetchPage previous s1) in *.
  simpl target in H1, H2.
  assert (F1 : idle_callbacks s1 = [] ∧
               (issued s1 = [] ∨
                issued s1 = [mkRequest (fresh s0) next (Int (n + 1)) id1 u1])).
  { rewrite H1. destruct (in_bounds m (Int (n + 1))); simpl;
      rewrite ?Hi0; by eauto. }
  destruct F1 as (Hid1 & Hi1).
  assert (F2 : idle_callbacks s2 = [] ∧
               (issued s2 = issued s1 ∨
                issued s2 = issued s1 ++
                  [mkRequest (fresh s1) previous (Int (n - 1)) id2 u2])).
  { rewrite H2. destruct (in_bounds m (Int (n - 1))); simpl; by eauto. }
  destruct F2 as (Hid2 & Hi2).
  assert (Hobs : ∀ s, issued (observeViewMore s) = issued s ∧
                      idle_callbacks (observeViewMore s) = idle_callbacks s).
  { intros s. unfold observeViewMore. by destruct (_ || _). }
  destruct (Hobs s2) as (Hio & Hido).
  constructor; rewrite ?Hio.
  - destruct Hi2 as [-> | ->], Hi1 as [-> | ->]; simpl;
      repeat (apply Forall_cons; split); try apply Forall_nil;
      simpl; eexists; (split; [done|lia]).
  - intros r _ _. unfold queued. by rewrite Hido, Hid2.
  - destruct Hi2 as [-> | ->], Hi1 as [-> | ->]; simpl;
      repeat constructor; try (by intros []%elem_of_nil).
    intros [Heq|[]%elem_of_nil]%elem_of_cons. injection Heq. lia.
Qed.

(** X28: under the contract, with page numbers in the range where adding
    one is exact and the element connected once and not again, no page is
    asked for twice: after any events, the page numbers of the requests made
    are all different, those of the next direction above the served page and
    those of the previous one below it. *)
Theorem no_page_is_requested_twice (m : markup) (n L : Z)
    (os : list occurrence) :
  served m n L → safe n → safe L →
  connected_once os →
  faithful (connectedCallback (mount m)) (events_of os) →
  NoDup (request_page <$>
           issued (existence document_top scroll_after_layout m os)) ∧
  Forall (λ r, ∃ z, request_page r = Int z ∧
                    match request_type r with
                    | next => n < z
                    | previous => z < n
                    end)
    (issued (existence document_top scroll_after_layout m os)).
Proof.
  intros Hm _ _ Hos Hf. rewrite (existence_once _ _ m os Hos).
  destruct (connected_shape m n L Hm) as [Hs0 Htok0].
  destruct (run_asked_once m n _ n n _ Hs0 Htok0
              (arrival_asked_once m n L Hm) Hf) as (lo & hi & [Hr _ Hnd]).
  split; [done|].
  eapply Forall_impl; [exact Hr|]. simpl. intros r (z & Hz & Hrange).
  exists z. split; [done|]. destruct (request_type r); lia.
Qed.

End WithViewport.

Import Sample.

Lemma no_page_twice_witness :
  NoDup (request_page <$>
           issued (existence column unanchored page2of3
                     [Browser (Intersect previous true);
                      Browser (FetchDone 1 (GridOf cards_of_page1));
                      Browser (FetchDone 0 (GridOf cards_of_page3));
                      Browser (Intersect next true);
                      Browser (Idle 0); Browser (Idle 0)])) ∧
  Forall (λ r, ∃ z, request_page r = Int z ∧
                    match request_type r with
                    | next => 2 < z
                    | previous => z < 2
                    end)
    (issued (existence column unanchored page2of3
               [Browser (Intersect previous true);
                Browser (FetchDone 1 (GridOf cards_of_page1));
                Browser (FetchDone 0 (GridOf cards_of_page3));
                Browser (Intersect next true);
                Browser (Idle 0); Browser (Idle 0)])).
Proof.
  apply (no_page_is_requested_twice column unanchored page2of3 2 3).
  - exact page2of3_served.
  - unfold safe. lia.
  - unfold safe. lia.
  - refine (bool_decide_unpack _ _). vm_compute. exact I.
  - refine (bool_decide_unpack _ _). vm_compute. exact I.
Defined.

(** Connected again before the first fetches have settled, the element asks
    for the same two pages a second time. *)
Example reconnection_asks_twice :
  request_page <$> issued (existence column unanchored page2of3 [Connect]) =
    [Int 3; Int 1; Int 3; Int 1].
Proof. reflexivity. Qed.

End Requests.
